(** * Treasure hunt: team lookup and challenge-sequence resolution

    A shallow embedding of the resolution core of [main.go]
    ([findTeamPage], [getTeamChallenges], [findNextChallengeURL],
    [parseFloat] and the outcome selection of [handleNextChallenge]) together
    with the properties of it that the specification states.

    Conventions of the embedding:
    - a Go [string] is a Rocq [string] (a sequence of bytes);
    - a Go [int] is a [Z] in the 64-bit two's complement range, with the
      wrap-around of [+] written out ([wrap_int]);
    - a Go [float64] is a [spec_float] of the Standard Library's IEEE 754
      specification at precision 53 and exponent bound 1024;
    - a Go [map] is a [gmap]; a [range] loop over a map visits its entries
      in an order the language leaves unspecified, so every function with
      such a loop takes the enumeration as a parameter ([Range]);
    - the Notion client is an external store: a call to it is a node of a
      program tree ([Prog]) whose continuation receives the store's answer,
      and a program is run against a store ([Store]) that may answer
      differently every time. *)

From Stdlib Require Import ZArith Ascii String List Bool Lia.
From Stdlib Require Import Floats.SpecFloat.
From Stdlib Require Import Numbers.DecimalString Numbers.DecimalPos Numbers.DecimalN.
From stdpp Require Import base option list gmap strings fin_maps.
From stdpp Require Import sorting.

Local Open Scope string_scope.
Local Open Scope list_scope.
Local Open Scope Z_scope.

(** ** Go's [int] *)

Module GoInt.

Definition min_int : Z := - 2 ^ 63.
Definition max_int : Z := 2 ^ 63 - 1.

Definition in_range (z : Z) : bool := (min_int <=? z) && (z <=? max_int).

(** Two's complement wrap-around of a 64-bit signed integer. *)
Definition wrap_int (z : Z) : Z := (z + 2 ^ 63) mod 2 ^ 64 - 2 ^ 63.

(** [a + b] on [int]. *)
Definition add (a b : Z) : Z := wrap_int (a + b).

End GoInt.

(** ** The data of the Notion client *)

Abbreviation float64 := spec_float.
Abbreviation error := string.
Abbreviation PageID := string.
Abbreviation DatabaseID := string.

Record RichText : Type := { PlainText : string }.

Record Relation : Type := { RelationID : PageID }.

(** The property kinds the code distinguishes by a type switch or a type
    assertion; every other kind of the client is [OtherProperty]. *)
Inductive Property : Type :=
| TitleProperty (Title : list RichText)
| RichTextProperty (RichTexts : list RichText)
| NumberProperty (Number : float64)
| RelationProperty (Relations : list Relation)
| OtherProperty (kind : string).

Abbreviation Properties := (gmap string Property).

Record Page : Type := { ID : PageID; PageProperties : Properties }.

Inductive FilterCondition : Type :=
| RichTextEquals (Equals : string)
| NumberEquals (Equals : float64).

Record PropertyFilter : Type :=
  { FilterProperty : string; Condition : FilterCondition }.

Record DatabaseQueryRequest : Type :=
  { Filter : option PropertyFilter; PageSize : Z }.

Record DatabaseQueryResponse : Type := { Results : list Page }.

(** A call of the client returns a value or an error. *)
Definition QueryResult : Type := DatabaseQueryResponse + error.
Definition GetResult : Type := Page + error.

Record App : Type := { teamsDBID : DatabaseID; challengeDBID : DatabaseID }.

(** ** Programs that call the store *)

Inductive Prog (A : Type) : Type :=
| Ret (a : A)
| DatabaseQuery (db : DatabaseID) (req : DatabaseQueryRequest)
    (k : QueryResult -> Prog A)
| PageGet (id : PageID) (k : GetResult -> Prog A).

Arguments Ret {A} a.
Arguments DatabaseQuery {A} db req k.
Arguments PageGet {A} id k.

Fixpoint bind {A B : Type} (p : Prog A) (f : A -> Prog B) : Prog B :=
  match p with
  | Ret a => f a
  | DatabaseQuery db req k => DatabaseQuery db req (fun r => bind (k r) f)
  | PageGet id k => PageGet id (fun r => bind (k r) f)
  end.

(** [Prog] is a monad; stdpp's notation [x ← p; q] is used for it. *)
#[export] Instance prog_ret : MRet Prog := @Ret.
#[export] Instance prog_bind : MBind Prog := fun A B f p => bind p f.

Definition query (db : DatabaseID) (req : DatabaseQueryRequest) : Prog QueryResult :=
  DatabaseQuery db req Ret.
Definition get (id : PageID) : Prog GetResult := PageGet id Ret.

(** One call of the client with the answer it got. *)
Inductive Event : Type :=
| EvQuery (db : DatabaseID) (req : DatabaseQueryRequest) (r : QueryResult)
| EvGet (id : PageID) (r : GetResult).

(** The store: it answers a call from its current state and moves to a new
    state. *)
Record Store (S : Type) : Type :=
  { Database_Query : DatabaseID -> DatabaseQueryRequest -> S -> QueryResult * S;
    Page_Get : PageID -> S -> GetResult * S }.

Arguments Database_Query {S} _ _ _ _.
Arguments Page_Get {S} _ _ _.

(** [run h p s]: the value [p] returns against the store [h] started in
    [s], the calls made in order, and the store's final state. *)
Fixpoint run {S A : Type} (h : Store S) (p : Prog A) (s : S) : A * list Event * S :=
  match p with
  | Ret a => (a, [], s)
  | DatabaseQuery db req k =>
      let '(r, s1) := Database_Query h db req s in
      let '(a, tr, s2) := run h (k r) s1 in
      (a, EvQuery db req r :: tr, s2)
  | PageGet id k =>
      let '(r, s1) := Page_Get h id s in
      let '(a, tr, s2) := run h (k r) s1 in
      (a, EvGet id r :: tr, s2)
  end.

(** ** Iteration over a map *)

Definition Range (K V : Type) `{Countable K} : Type := gmap K V -> list (K * V).

Definition valid_range {K V : Type} `{Countable K} (r : Range K V) : Prop :=
  forall m, r m ≡ₚ map_to_list m.

(** ** Bytes, runes and the scanner of package [fmt] *)

Module Utf8.

Definition code (c : ascii) : Z := Z.of_N (N_of_ascii c).

Definition between (lo hi : Z) (c : ascii) : bool :=
  (lo <=? code c) && (code c <=? hi).

(** A continuation byte, [0x80..0xBF]. *)
Definition cont (c : ascii) : bool := between 128 191 c.

(** The range [utf8.DecodeRuneInString] accepts for the second byte,
    given the first byte of a three-byte or a four-byte encoding. *)
Definition second3 (b0 b1 : ascii) : bool :=
  if code b0 =? 224 then between 160 191 b1
  else if code b0 =? 237 then between 128 159 b1
  else between 225 239 b0 && cont b1.

Definition second4 (b0 b1 : ascii) : bool :=
  if code b0 =? 240 then between 144 191 b1
  else if code b0 =? 244 then between 128 143 b1
  else between 241 243 b0 && cont b1.

(** Width in bytes of the rune encoded at the start of [s]; [0%nat] when
    the bytes there are not a valid encoding (Go then yields [RuneError]
    and advances by one byte). *)
Definition rune_len (s : string) : nat :=
  match s with
  | EmptyString => 0%nat
  | String b0 s1 =>
      if code b0 <? 128 then 1%nat
      else
        match s1 with
        | EmptyString => 0%nat
        | String b1 s2 =>
            if between 194 223 b0 then (if cont b1 then 2%nat else 0%nat)
            else
              match s2 with
              | EmptyString => 0%nat
              | String b2 s3 =>
                  if second3 b0 b1 then (if cont b2 then 3%nat else 0%nat)
                  else
                    match s3 with
                    | EmptyString => 0%nat
                    | String b3 _ =>
                        if second4 b0 b1 && cont b2 && cont b3
                        then 4%nat else 0%nat
                    end
              end
        end
  end.

(** The encoding of [utf8.RuneError], U+FFFD. *)
Definition RuneError : string :=
  String (ascii_of_nat 239) (String (ascii_of_nat 191) (String (ascii_of_nat 189) EmptyString)).

(** Every rune of [s] is validly encoded. [skip] counts the bytes still
    to pass of the rune being read. *)
Fixpoint valid_from (skip : nat) (s : string) : bool :=
  match s with
  | EmptyString => Nat.eqb skip 0
  | String c s' =>
      match skip with
      | S k => valid_from k s'
      | O =>
          match rune_len (String c s') with
          | O => false
          | S k => valid_from k s'
          end
      end
  end.

Definition valid (s : string) : bool := valid_from 0 s.

End Utf8.

(** [cleanID] of [findNextChallengeURL]: the loop
    [for _, c := range pageID { if c != '-' { cleanID += string(c) } }].
    A [range] over a string yields runes; a byte that starts no valid
    encoding is yielded as [RuneError], which [string(c)] writes back as the
    three bytes of U+FFFD. *)
Fixpoint cleanID_from (skip : nat) (pageID : string) : string :=
  match pageID with
  | EmptyString => EmptyString
  | String c rest =>
      match skip with
      | S k => String c (cleanID_from k rest)
      | O =>
          match Utf8.rune_len (String c rest) with
          | O => Utf8.RuneError +:+ cleanID_from 0 rest
          | S O => if Ascii.eqb c "-" then cleanID_from 0 rest
                   else String c (cleanID_from 0 rest)
          | S (S k) => String c (cleanID_from (S k) rest)
          end
      end
  end.

Definition cleanID (pageID : string) : string := cleanID_from 0 pageID.

(** The same identifier with its hyphen bytes removed. *)
Fixpoint remove_hyphens (s : string) : string :=
  match s with
  | EmptyString => EmptyString
  | String c rest =>
      if Ascii.eqb c "-" then remove_hyphens rest else String c (remove_hyphens rest)
  end.

Fixpoint has_hyphen (s : string) : bool :=
  match s with
  | EmptyString => false
  | String c rest => Ascii.eqb c "-" || has_hyphen rest
  end.

(** The scanning of [fmt.Sscanf], as far as the formats ["Challenge%d"] and
    ["%f"] use it. The scanner reads runes from the input and collects the
    bytes of a token in a buffer; [None] is a scan that ends in an error. *)
Module Fmt.

Import Utf8.

Definition decimalDigits : string := "0123456789".
Definition hexadecimalDigits : string := "0123456789aAbBcCdDeEfF".
Definition sign : string := "+-".
Definition period : string := ".".
Definition exponent : string := "eEpP".

Fixpoint indexRune (set : string) (c : ascii) : bool :=
  match set with
  | EmptyString => false
  | String d set' => Ascii.eqb c d || indexRune set' c
  end.

(** [isSpace]: the table of package [fmt], U+0009..U+000D, U+0020, U+0085,
    U+00A0, U+1680, U+2000..U+200A, U+2028, U+2029, U+202F, U+205F and
    U+3000, read off the encoded bytes. The result is the width of the
    space rune at the start of [s], [0%nat] when there is none. *)
Definition space_width (s : string) : nat :=
  match s with
  | String b0 s1 =>
      if between 9 13 b0 || (code b0 =? 32) then 1%nat
      else
        match s1 with
        | String b1 s2 =>
            if (code b0 =? 194) && ((code b1 =? 133) || (code b1 =? 160)) then 2%nat
            else
              match s2 with
              | String b2 _ =>
                  if (code b0 =? 225) && (code b1 =? 154) && (code b2 =? 128) then 3%nat
                  else if (code b0 =? 226) && (code b1 =? 128)
                          && (between 128 138 b2 || (code b2 =? 168)
                              || (code b2 =? 169) || (code b2 =? 175)) then 3%nat
                  else if (code b0 =? 226) && (code b1 =? 129) && (code b2 =? 159) then 3%nat
                  else if (code b0 =? 227) && (code b1 =? 128) && (code b2 =? 128) then 3%nat
                  else 0%nat
              | EmptyString => 0%nat
              end
        | EmptyString => 0%nat
        end
  | EmptyString => 0%nat
  end.

(** [ss.SkipSpace] of a [Sscanf] scan ([nlIsSpace] is false): spaces are
    passed, a newline is the error "unexpected newline", and a carriage
    return directly before a newline is passed on its own. *)
Fixpoint SkipSpace_from (skip : nat) (s : string) : option string :=
  match s with
  | EmptyString => Some EmptyString
  | String c rest =>
      match skip with
      | S k => SkipSpace_from k rest
      | O =>
          if (code c =? 13) && (match rest with String d _ => code d =? 10 | _ => false end)
          then SkipSpace_from 0 rest
          else if code c =? 10 then None
          else
            match space_width (String c rest) with
            | O => Some (String c rest)
            | S k => SkipSpace_from k rest
            end
      end
  end.

Definition SkipSpace (s : string) : option string := SkipSpace_from 0 s.

(** [ss.accept]: when the next rune is in [set] it moves to the buffer. *)
Definition accept (set : string) (st : string * string) : bool * (string * string) :=
  match st.2 with
  | String c rest =>
      if indexRune set c then (true, (st.1 +:+ String c EmptyString, rest))
      else (false, st)
  | EmptyString => (false, st)
  end.

(** The loop [for s.accept(set) {}]. *)
Fixpoint accept_all (set : string) (buf input : string) : string * string :=
  match input with
  | String c rest =>
      if indexRune set c then accept_all set (buf +:+ String c EmptyString) rest
      else (buf, input)
  | EmptyString => (buf, input)
  end.

(** The value of a run of decimal digits. *)
Definition digit_value (c : ascii) : Z := code c - 48.

Fixpoint digits_value (acc : Z) (s : string) : Z :=
  match s with
  | EmptyString => acc
  | String c rest => digits_value (10 * acc + digit_value c) rest
  end.

(** The decimal digits of a natural number, and the decimal text of an
    integer: a minus sign before the digits of a negative one. *)
Definition decimal (z : Z) : string :=
  NilZero.string_of_uint (N.to_uint (Z.to_N z)).

Definition int_text (z : Z) : string :=
  if z <? 0 then String "-" (decimal (- z)) else decimal z.

Definition digits_only (s : string) : bool :=
  forallb (fun c => indexRune decimalDigits c) (list_ascii_of_string s).

Definition starts_with_digit (s : string) : bool :=
  match s with
  | String c _ => indexRune decimalDigits c
  | EmptyString => false
  end.

(** [strconv.ParseInt(tok, 10, 64)] on a token of [scanNumber]: an
    optional sign and at least one decimal digit. The error is the range
    error of a value outside [int64]. *)
Definition ParseInt (tok : string) : option Z :=
  let v :=
    match tok with
    | String c digits =>
        if Ascii.eqb c "-" then - digits_value 0 digits
        else if Ascii.eqb c "+" then digits_value 0 digits
        else digits_value 0 tok
    | EmptyString => 0
    end in
  if GoInt.in_range v then Some v else None.

(** [ss.scanInt] for the verb [%d] into an [int] of 64 bits:
    [SkipSpace], [notEOF], an optional sign, [scanNumber], [ParseInt]. *)
Definition scanInt (input : string) : option (Z * string) :=
  match SkipSpace input with
  | None => None
  | Some EmptyString => None
  | Some s1 =>
      let '(_, st) := accept sign (EmptyString, s1) in
      match st.2 with
      | EmptyString => None
      | String c _ =>
          if indexRune decimalDigits c then
            let '(tok, rest) := accept_all decimalDigits st.1 st.2 in
            match ParseInt tok with
            | Some v => Some (v, rest)
            | None => None
            end
          else None
      end
  end.

(** The literal text of a format: every byte must be the next byte of the
    input. *)
Fixpoint advance (literal input : string) : option string :=
  match literal with
  | EmptyString => Some input
  | String c literal' =>
      match input with
      | String d input' => if Ascii.eqb c d then advance literal' input' else None
      | EmptyString => None
      end
  end.

(** [fmt.Sscanf(str, "Challenge%d", &n)]: [Some n] when [err == nil].
    Input left over after the number is not an error. *)
Definition Sscanf_Challenge_d (str : string) : option Z :=
  match advance "Challenge" str with
  | None => None
  | Some s1 =>
      match SkipSpace s1 with
      | None => None
      | Some s2 =>
          match scanInt s2 with
          | Some (n, _) => Some n
          | None => None
          end
      end
  end.

End Fmt.

(** ** [float64] *)

Module Float64.

Import Utf8 Fmt.

Definition prec : Z := 53.
Definition emax : Z := 1024.

Definition valid (f : float64) : bool := valid_binary prec emax f.

(** [m / 2^k] for [k > 0], rounded to the nearest integer, a tie to the
    even one. *)
Definition round_half_even (m k : Z) : Z :=
  let q := m / 2 ^ k in
  let r := m mod 2 ^ k in
  match 2 * r ?= 2 ^ k with
  | Lt => q
  | Gt => q + 1
  | Eq => if Z.even q then q else q + 1
  end.

(** The magnitude [m * 2^e] printed with no digit after the point. *)
Definition rounded_magnitude (m : positive) (e : Z) : Z :=
  if 0 <=? e then Zpos m * 2 ^ e else round_half_even (Zpos m) (- e).

Definition sign_text (s : bool) : string := if s then "-" else "".

(** [fmt.Sprintf("%.0f", f)]. *)
Definition Sprintf_0f (f : float64) : string :=
  match f with
  | S754_nan => "NaN"
  | S754_infinity false => "+Inf"
  | S754_infinity true => "-Inf"
  | S754_zero s => sign_text s +:+ "0"
  | S754_finite s m e => sign_text s +:+ decimal (rounded_magnitude m e)
  end.

(** *** [strconv.ParseFloat(s, 64)] *)

(** [lower(c)] of package [strconv]: [c | ('x' - 'X')]. *)
Definition lower (c : ascii) : Z := Z.lor (code c) 32.

Definition is_digit (c : ascii) : bool := between 48 57 c.
Definition is_hex_letter (c : ascii) : bool := (97 <=? lower c) && (lower c <=? 102).

Fixpoint commonPrefixLenIgnoreCase (s pre : string) : nat :=
  match s, pre with
  | String c s', String p pre' =>
      let c' := if between 65 90 c then code c + 32 else code c in
      if c' =? code p then S (commonPrefixLenIgnoreCase s' pre') else 0%nat
  | _, _ => 0%nat
  end.

(** [special]: the value and the number of bytes read, for an optionally
    signed "inf" or "infinity" and for "nan", in any case of letters. *)
Definition special (s : string) : option (float64 * nat) :=
  let inf (neg : bool) (nsign : nat) (body : string) :=
    let n := commonPrefixLenIgnoreCase body "infinity" in
    let n := if (3 <? n)%nat && (n <? 8)%nat then 3%nat else n in
    if (n =? 3)%nat || (n =? 8)%nat then Some (S754_infinity neg, (nsign + n)%nat)
    else None in
  match s with
  | EmptyString => None
  | String c body =>
      if Ascii.eqb c "+" then inf false 1%nat body
      else if Ascii.eqb c "-" then inf true 1%nat body
      else if (lower c =? 105) then inf false 0%nat s
      else if (lower c =? 110) then
        if (commonPrefixLenIgnoreCase s "nan" =? 3)%nat then Some (S754_nan, 3%nat)
        else None
      else None
  end.

(** The state of the digit loop of [readFloat]. The mantissa keeps every
    digit: the conversion below rounds the exact value, as [strconv] does
    with its exact decimal when the 64-bit mantissa was truncated. *)
Record digits_state : Type :=
  { mantissa : Z; nd : Z; dp : Z;
    sawdot : bool; sawdigits : bool; underscores : bool }.

Fixpoint read_digits (hex : bool) (st : digits_state) (s : string)
  : digits_state * string :=
  match s with
  | EmptyString => (st, s)
  | String c rest =>
      if Ascii.eqb c "_" then
        read_digits hex
          {| mantissa := mantissa st; nd := nd st; dp := dp st; sawdot := sawdot st;
             sawdigits := sawdigits st; underscores := true |} rest
      else if Ascii.eqb c "." then
        if sawdot st then (st, s)
        else
          read_digits hex
            {| mantissa := mantissa st; nd := nd st; dp := nd st; sawdot := true;
               sawdigits := sawdigits st; underscores := underscores st |} rest
      else if is_digit c then
        if Ascii.eqb c "0" && (nd st =? 0) then
          read_digits hex
            {| mantissa := mantissa st; nd := nd st; dp := dp st - 1; sawdot := sawdot st;
               sawdigits := true; underscores := underscores st |} rest
        else
          read_digits hex
            {| mantissa := mantissa st * (if hex then 16 else 10) + (code c - 48);
               nd := nd st + 1; dp := dp st; sawdot := sawdot st;
               sawdigits := true; underscores := underscores st |} rest
      else if hex && is_hex_letter c then
        read_digits hex
          {| mantissa := mantissa st * 16 + (lower c - 97 + 10);
             nd := nd st + 1; dp := dp st; sawdot := sawdot st;
             sawdigits := true; underscores := underscores st |} rest
      else (st, s)
  end.

(** The digits of an exponent: the value stops growing at 10000; the
    flag tells whether an underscore was passed. *)
Fixpoint read_exponent (e : Z) (us : bool) (s : string) : Z * bool * string :=
  match s with
  | EmptyString => (e, us, s)
  | String c rest =>
      if Ascii.eqb c "_" then read_exponent e true rest
      else if is_digit c then
        read_exponent (if e <? 10000 then e * 10 + (code c - 48) else e) us rest
      else (e, us, s)
  end.

(** [underscoreOK]: an underscore stands only between digits, or between
    the base prefix and a digit. [saw] is the last byte's class: [0] for a
    digit or the base prefix, [1] for an underscore, [2] otherwise (the
    start of the number behaves as any other byte). *)
Fixpoint underscore_scan (hex : bool) (saw : Z) (s : string) : bool :=
  match s with
  | EmptyString => negb (saw =? 1)
  | String c rest =>
      if is_digit c || (hex && is_hex_letter c) then underscore_scan hex 0 rest
      else if Ascii.eqb c "_" then
        if saw =? 0 then underscore_scan hex 1 rest else false
      else if saw =? 1 then false
      else underscore_scan hex 2 rest
  end.

Definition underscoreOK (s : string) : bool :=
  let s1 :=
    match s with
    | String c rest => if Ascii.eqb c "-" || Ascii.eqb c "+" then rest else s
    | EmptyString => s
    end in
  match s1 with
  | String c0 (String c1 rest) =>
      if Ascii.eqb c0 "0" && ((lower c1 =? 98) || (lower c1 =? 111) || (lower c1 =? 120))
      then underscore_scan (lower c1 =? 120) 0 rest
      else underscore_scan false 2 s1
  | _ => underscore_scan false 2 s1
  end.

(** [readFloat] on the whole of [s]: the exact mantissa, the exponent of
    the base (10, or 2 for a hexadecimal mantissa), the sign and the base;
    [None] when [s] is not a number in full. *)
Definition readFloat (s : string) : option (Z * Z * bool * bool) :=
  match s with
  | EmptyString => None
  | String c0 after_sign =>
      let neg := Ascii.eqb c0 "-" in
      let s1 := if Ascii.eqb c0 "+" || neg then after_sign else s in
      let '(hex, s2) :=
        match s1 with
        | String z (String x (String y r)) =>
            if Ascii.eqb z "0" && (lower x =? 120) then (true, String y r)
            else (false, s1)
        | _ => (false, s1)
        end in
      let '(st, s3) :=
        read_digits hex
          {| mantissa := 0; nd := 0; dp := 0; sawdot := false;
             sawdigits := false; underscores := false |} s2 in
      if negb (sawdigits st) then None
      else
        let dp1 := if sawdot st then dp st else nd st in
        let dp2 := if hex then dp1 * 4 else dp1 in
        let nd2 := if hex then nd st * 4 else nd st in
        let tail :=
          match s3 with
          | String c s4 =>
              if lower c =? (if hex then 112 else 101) then
                match s4 with
                | EmptyString => None
                | String d s5 =>
                    let esign := if Ascii.eqb d "-" then -1 else 1 in
                    let s6 := if Ascii.eqb d "+" || Ascii.eqb d "-" then s5 else s4 in
                    match s6 with
                    | String g _ =>
                        if is_digit g then
                          let '(e, us, s7) := read_exponent 0 (underscores st) s6 in
                          Some (dp2 + e * esign, us, s7)
                        else None
                    | EmptyString => None
                    end
                end
              else if hex then None
              else Some (dp2, underscores st, s3)
          | EmptyString => if hex then None else Some (dp2, underscores st, s3)
          end in
        match tail with
        | None => None
        | Some (dp3, us, rest) =>
            let exp := if mantissa st =? 0 then 0 else dp3 - nd2 in
            if us && negb (underscoreOK s) then None
            else
              match rest with
              | EmptyString => Some (mantissa st, exp, neg, hex)
              | String _ _ => None
              end
        end
  end.

(** The nearest [float64] to [m * 10^exp], ties to even. *)
Definition round_decimal (neg : bool) (m exp : Z) : float64 :=
  if m =? 0 then S754_zero neg
  else if 0 <=? exp then
    binary_normalize prec emax (if neg then - (m * 10 ^ exp) else m * 10 ^ exp) 0 neg
  else
    let '(q, e, l) := SFdiv_core_binary prec emax m 0 (10 ^ (- exp)) 0 in
    binary_round_aux prec emax neg q e l.

(** The nearest [float64] to [m * 2^exp], ties to even. *)
Definition round_binary (neg : bool) (m exp : Z) : float64 :=
  binary_normalize prec emax (if neg then - m else m) exp neg.

(** An infinity out of a finite number is the range error of [strconv]. *)
Definition in_float_range (f : float64) : option float64 :=
  match f with
  | S754_infinity _ => None
  | _ => Some f
  end.

Definition ParseFloat (s : string) : option float64 :=
  match special s with
  | Some (f, n) => if (n =? String.length s)%nat then Some f else None
  | None =>
      match readFloat s with
      | None => None
      | Some (m, exp, neg, hex) =>
          in_float_range (if hex then round_binary neg m exp else round_decimal neg m exp)
      end
  end.

(** [math.Ldexp(f, exp)] for an [exp] in the range of [int]: the nearest
    [float64] to [f * 2^exp]. The binary exponent of the result is summed
    in [int] arithmetic, in the two steps of the library. *)
Definition Ldexp (f : float64) (exp : Z) : float64 :=
  match f with
  | S754_finite s m e =>
      let E := Zpos (digits2_pos m) + e - 1 in
      let e0 := if E <? -1022 then -52 else 0 in
      let exp2 := GoInt.add (GoInt.add exp e0) (E - e0) in
      if exp2 <? -1075 then S754_zero s
      else if 1023 <? exp2 then S754_infinity s
      else SFldexp prec emax f exp
  | _ => f
  end.

(** [ss.floatToken]: the bytes of the input that can start a number. *)
Definition floatToken (input : string) : string * string :=
  let st0 := (EmptyString, input) in
  let '(n1, st1) := accept "nN" st0 in
  let '(n2, st2) := if n1 then accept "aA" st1 else (false, st1) in
  let '(n3, st3) := if n2 then accept "nN" st2 else (false, st2) in
  if n3 then st3
  else
    let '(_, st4) := accept sign st3 in
    let '(i1, st5) := accept "iI" st4 in
    let '(i2, st6) := if i1 then accept "nN" st5 else (false, st5) in
    let '(i3, st7) := if i2 then accept "fF" st6 else (false, st6) in
    if i3 then st7
    else
      let '(z, st8) := accept "0" st7 in
      let '(x, st9) := if z then accept "xX" st8 else (false, st8) in
      let digits := (if x then hexadecimalDigits else decimalDigits) +:+ "_" in
      let exp := if x then "pP" else exponent in
      let st10 := accept_all digits st9.1 st9.2 in
      let '(dot, st11) := accept period st10 in
      let st12 := if dot then accept_all digits st11.1 st11.2 else st11 in
      let '(e, st13) := accept exp st12 in
      if e then
        let '(_, st14) := accept sign st13 in
        accept_all (decimalDigits +:+ "_") st14.1 st14.2
      else st13.

(** The text before the first [c] of [s] and the text after it. *)
Fixpoint split_at (c : ascii) (s : string) : option (string * string) :=
  match s with
  | EmptyString => None
  | String d rest =>
      if Ascii.eqb c d then Some (EmptyString, rest)
      else
        match split_at c rest with
        | Some (a, b) => Some (String d a, b)
        | None => None
        end
  end.

(** [strconv.Atoi]: an optional sign and decimal digits only. *)
Definition Atoi (s : string) : option Z :=
  let body :=
    match s with
    | String c rest => if Ascii.eqb c "-" || Ascii.eqb c "+" then rest else s
    | EmptyString => s
    end in
  match body with
  | EmptyString => None
  | String _ _ =>
      if forallb is_digit (list_ascii_of_string body) then ParseInt s else None
  end.

(** [ss.convertFloat(str, 64)]: a decimal mantissa with a [p] exponent is
    evaluated here, everything else by [ParseFloat]. *)
Definition convertFloat (str : string) : option float64 :=
  match split_at "p" str with
  | Some (mant, exp) =>
      if indexRune str "x" || indexRune str "X" then ParseFloat str
      else
        match ParseFloat mant, Atoi exp with
        | Some f, Some m => Some (Ldexp f m)
        | _, _ => None
        end
  | None => ParseFloat str
  end.

(** [fmt.Sscanf(s, "%f", &f)]: [Some f] when [err == nil]. *)
Definition Sscanf_f (s : string) : option float64 :=
  match SkipSpace s with
  | None => None
  | Some s1 =>
      match SkipSpace s1 with
      | None => None
      | Some EmptyString => None
      | Some s2 => convertFloat (floatToken s2).1
      end
  end.

End Float64.

(** [parseFloat] of [main.go]: the scanned value and whether [err != nil];
    [f] keeps its zero value when the scan fails. *)
Definition parseFloat (s : string) : float64 * bool :=
  match Float64.Sscanf_f s with
  | Some f => (f, false)
  | None => (S754_zero false, true)
  end.

(** ** The resolution core of [main.go] *)

Definition firstResult (r : QueryResult) : option Page :=
  match r with
  | inl resp => head (Results resp)
  | inr _ => None
  end.

Section Resolution.

Variable app : App.
(** The order in which [range] visits the properties of a page and the
    entries of a challenge map. *)
Variable rangeProperties : Range string Property.
Variable rangeChallenges : Range Z string.

(** *** [findTeamPage] *)

Definition propertyNames : list string := ["Name"; "Team"; "Title"; "title"].

Definition teamFilter (prop teamName : string) : DatabaseQueryRequest :=
  {| Filter := Some {| FilterProperty := prop; Condition := RichTextEquals teamName |};
     PageSize := 0 |}.

Definition allTeams : DatabaseQueryRequest := {| Filter := None; PageSize := 100 |}.

(** The two cases of the type switch in the manual search. *)
Definition propertyMatches (teamName : string) (prop : Property) : bool :=
  match prop with
  | TitleProperty (t :: _) => String.eqb (PlainText t) teamName
  | RichTextProperty (t :: _) => String.eqb (PlainText t) teamName
  | _ => false
  end.

Definition pageMatches (teamName : string) (page : Page) : bool :=
  existsb (fun entry => propertyMatches teamName entry.2)
    (rangeProperties (PageProperties page)).

(** The manual search over the result of the unfiltered query; the
    function's [return "", nil] when no page matches. *)
Fixpoint searchPages (teamName : string) (pages : list Page) : string :=
  match pages with
  | [] => EmptyString
  | page :: rest =>
      if pageMatches teamName page then ID page else searchPages teamName rest
  end.

Definition fullScan (teamName : string) : Prog (string + error) :=
  result ← query (teamsDBID app) allTeams;
  match result with
  | inr err => mret (inr err)
  | inl resp => mret (inl (searchPages teamName (Results resp)))
  end.

(** The loop over [propertyNames], then whatever follows it. *)
Fixpoint tieredLookup (teamName : string) (props : list string)
    (otherwise : Prog (string + error)) : Prog (string + error) :=
  match props with
  | [] => otherwise
  | prop :: rest =>
      result ← query (teamsDBID app) (teamFilter prop teamName);
      match firstResult result with
      | Some page => mret (inl (ID page))
      | None => tieredLookup teamName rest otherwise
      end
  end.

Definition findTeamPage (teamName : string) : Prog (string + error) :=
  tieredLookup teamName propertyNames (fullScan teamName).

(** *** [getTeamChallenges] *)

(** [challenges[challengeNum] = fmt.Sprintf("%.0f", v.Number)] when the
    property [name] of the page is a number. *)
Definition storeNumber (name : string) (challengePage : Page) (challengeNum : Z)
    (challenges : gmap Z string) : gmap Z string :=
  match PageProperties challengePage !! name with
  | Some (NumberProperty v) => <[challengeNum := Float64.Sprintf_0f v]> challenges
  | _ => challenges
  end.

(** The body of [if err == nil { ... }]: the read of ["id"], then of
    ["ID"] when the map has no entry for the position. *)
Definition readChallengeID (challengePage : Page) (challengeNum : Z)
    (challenges : gmap Z string) : gmap Z string :=
  let challenges1 := storeNumber "id" challengePage challengeNum challenges in
  match challenges1 !! challengeNum with
  | Some _ => challenges1
  | None => storeNumber "ID" challengePage challengeNum challenges1
  end.

(** One turn of the loop over the properties of the team page. *)
Definition visitProperty (challenges : gmap Z string) (entry : string * Property)
  : Prog (gmap Z string) :=
  match Fmt.Sscanf_Challenge_d entry.1 with
  | Some challengeNum =>
      match entry.2 with
      | RelationProperty (relation :: _) =>
          r ← get (RelationID relation);
          match r with
          | inl challengePage => mret (readChallengeID challengePage challengeNum challenges)
          | inr _ => mret challenges
          end
      | _ => mret challenges
      end
  | None => mret challenges
  end.

Fixpoint visitProperties (entries : list (string * Property))
    (challenges : gmap Z string) : Prog (gmap Z string) :=
  match entries with
  | [] => mret challenges
  | entry :: rest =>
      challenges1 ← visitProperty challenges entry;
      visitProperties rest challenges1
  end.

Definition getTeamChallenges (teamPageID : PageID) : Prog (gmap Z string + error) :=
  r ← get teamPageID;
  match r with
  | inr err => mret (inr err)
  | inl page =>
      challenges ← visitProperties (rangeProperties (PageProperties page)) ∅;
      mret (inl challenges)
  end.

(** *** [findNextChallengeURL] *)

(** The loop that finds the position of the current challenge: the first
    entry visited whose identifier is [currentID], else [0]. *)
Fixpoint scanCurrentPos (entries : list (Z * string)) (currentID : string) : Z :=
  match entries with
  | [] => 0
  | (pos, id) :: rest =>
      if String.eqb id currentID then pos else scanCurrentPos rest currentID
  end.

Definition currentPosition (challenges : gmap Z string) (currentID : string) : Z :=
  scanCurrentPos (rangeChallenges challenges) currentID.

Definition nextPosition (challenges : gmap Z string) (currentID : string) : Z :=
  GoInt.add (currentPosition challenges currentID) 1.

(** [nextID, exists := challenges[nextPos]]. *)
Definition nextChallengeID (challenges : gmap Z string) (currentID : string)
  : option string :=
  challenges !! nextPosition challenges currentID.

Definition baseURL : string := "https://marcbaumholz.notion.site/".

Definition numberFilter (prop nextID : string) : DatabaseQueryRequest :=
  {| Filter := Some {| FilterProperty := prop;
                       Condition := NumberEquals (parseFloat nextID).1 |};
     PageSize := 0 |}.

(** The body of [if nextID, exists := challenges[nextPos]; exists]. *)
Definition locateChallenge (nextID : string) : Prog string :=
  result ← query (challengeDBID app) (numberFilter "id" nextID);
  result ← match firstResult result with
            | Some _ => mret result
            | None => query (challengeDBID app) (numberFilter "ID" nextID)
            end;
  match firstResult result with
  | Some page => mret (baseURL +:+ cleanID (ID page))
  | None => mret EmptyString
  end.

Definition findNextChallengeURL (challenges : gmap Z string) (currentID : string)
  : Prog string :=
  match nextChallengeID challenges currentID with
  | Some nextID => locateChallenge nextID
  | None => mret EmptyString
  end.

(** *** [handleNextChallenge] *)

(** What the handler writes: the status 400 text, or one of the three
    templates with its data. *)
Inductive Response : Type :=
| BadRequest (text : string)
| ErrorPage (message : string)
| FinishedPage (team : string)
| RedirectPage (url team : string).

Definition handleNextChallenge (currentChallengeID teamName : string) : Prog Response :=
  if String.eqb teamName "" then mret (BadRequest "Teamname erforderlich")
  else
    found ← findTeamPage teamName;
    match found with
    | inr _ => mret (ErrorPage "Team nicht gefunden")
    | inl teamPageID =>
        if String.eqb teamPageID "" then mret (ErrorPage "Team nicht gefunden")
        else
          teamData ← getTeamChallenges teamPageID;
          match teamData with
          | inr err =>
              mret (ErrorPage ("Fehler beim Abrufen der Team-Daten: " +:+ err))
          | inl challenges =>
              nextChallengeURL ← findNextChallengeURL challenges currentChallengeID;
              if String.eqb nextChallengeURL ""
              then mret (FinishedPage teamName)
              else mret (RedirectPage nextChallengeURL teamName)
          end
    end.

End Resolution.

(** ** Stores to run the programs against *)

(** A store that never changes: every call is answered from two tables. *)
Definition fixedStore (queries : DatabaseID -> DatabaseQueryRequest -> QueryResult)
    (pages : PageID -> GetResult) : Store unit :=
  {| Database_Query := fun db req s => (queries db req, s);
     Page_Get := fun id s => (pages id, s) |}.

(** A store that plays back a script: the n-th call gets the n-th answer of
    its kind, and an error once the script is used up. *)
Definition scriptedStore : Store (list QueryResult * list GetResult) :=
  {| Database_Query := fun _ _ s =>
       match s.1 with
       | r :: rest => (r, (rest, s.2))
       | [] => (inr "script exhausted", s)
       end;
     Page_Get := fun _ s =>
       match s.2 with
       | r :: rest => (r, (s.1, rest))
       | [] => (inr "script exhausted", s)
       end |}.

(** A query that gives the caller nothing to use: an error, or no record. *)
Definition yields_nothing (r : QueryResult) : Prop :=
  (exists err, r = inr err) \/ (exists resp, r = inl resp /\ Results resp = []).

(** A query that succeeds with [page] as its first record. *)
Definition yields_first (r : QueryResult) (page : Page) : Prop :=
  exists resp rest, r = inl resp /\ Results resp = page :: rest.

(** The team "Rockets" of the specification's scenario, with three ordered
    challenges of numeric identifiers 10, 20 and 30. *)
Module Rockets.

Definition number (z : Z) : float64 := Float64.round_binary false z 0.

Definition challengePage (id : PageID) (key : string) (n : Z) : Page :=
  {| ID := id; PageProperties := {[ key := NumberProperty (number n) ]} |}.

Definition c10 : Page := challengePage "c-10-a" "id" 10.
Definition c20 : Page := challengePage "c-20-b" "ID" 20.
Definition c30 : Page := challengePage "c-30-c" "id" 30.

Definition team : Page :=
  {| ID := "team-1";
     PageProperties :=
       {[ "Name" := TitleProperty [ {| PlainText := "Rockets" |} ];
          "Challenge1" := RelationProperty [ {| RelationID := "c-10-a" |} ];
          "Challenge2" := RelationProperty [ {| RelationID := "c-20-b" |} ];
          "Challenge3" := RelationProperty [ {| RelationID := "c-30-c" |} ] ]} |}.

Definition app : App := {| teamsDBID := "teams"; challengeDBID := "challenges" |}.

Definition pages (id : PageID) : GetResult :=
  if String.eqb id "team-1" then inl team
  else if String.eqb id "c-10-a" then inl c10
  else if String.eqb id "c-20-b" then inl c20
  else if String.eqb id "c-30-c" then inl c30
  else inr "object not found".

(** The team database has its title under "Name"; the challenge database
    has no property "id" to filter on for challenge 20, only "ID". *)
Definition queries (db : DatabaseID) (req : DatabaseQueryRequest) : QueryResult :=
  match Filter req with
  | None => if String.eqb db "teams" then inl {| Results := [team] |}
            else inl {| Results := [c10; c20; c30] |}
  | Some f =>
      match Condition f with
      | RichTextEquals name =>
          if String.eqb db "teams" && String.eqb (FilterProperty f) "Name" then
            inl {| Results := if String.eqb name "Rockets" then [team] else [] |}
          else inr "could not find property"
      | NumberEquals v =>
          if String.eqb (FilterProperty f) "id" then
            inl {| Results := if Float64.Sprintf_0f v =? "10" then [c10]
                              else if Float64.Sprintf_0f v =? "30" then [c30] else [] |}
          else if String.eqb (FilterProperty f) "ID" then
            inl {| Results := if Float64.Sprintf_0f v =? "20" then [c20] else [] |}
          else inr "could not find property"
      end
  end%string.

Definition store : Store unit := fixedStore queries pages.

Definition sequence : gmap Z string := {[ 1 := "10"; 2 := "20"; 3 := "30" ]}.

End Rockets.

(** ** Predicates of the statements *)

(** Distinct positions hold distinct identifiers. *)
Definition distinct_identifiers (challenges : gmap Z string) : Prop :=
  forall pos1 pos2 id,
    challenges !! pos1 = Some id -> challenges !! pos2 = Some id -> pos1 = pos2.

(** The first [n] bytes of [s], as far as [s] reaches, are bytes of a
    multi-byte encoding. *)
Fixpoint high_prefix (n : nat) (s : string) : bool :=
  match n, s with
  | S k, String c rest => (128 <=? Utf8.code c) && high_prefix k rest
  | _, _ => true
  end.

(** The text the manual search reads from a property: the plain text of
    the first segment of a title or of a rich text, nothing for any other
    kind and for a title or rich text without segments. *)
Definition property_text (prop : Property) : option string :=
  match prop with
  | TitleProperty (t :: _) => Some (PlainText t)
  | RichTextProperty (t :: _) => Some (PlainText t)
  | _ => None
  end.

(** Some property of the page reads exactly [teamName]. *)
Definition names_team (teamName : string) (page : Page) : Prop :=
  exists key prop,
    PageProperties page !! key = Some prop /\ property_text prop = Some teamName.

(** [id] is the identifier of the first page of [pages] that names the
    team, or the empty string when no page names it. *)
Definition first_named (teamName : string) (pages : list Page) (id : string) : Prop :=
  (exists before page after,
      pages = before ++ page :: after
      /\ Forall (fun p => ~ names_team teamName p) before
      /\ names_team teamName page
      /\ id = ID page)
  \/ (Forall (fun p => ~ names_team teamName p) pages /\ id = EmptyString).

(** The call [ev] succeeded and gave no record of the team: a filter query
    with no record, or an unfiltered query none of whose pages names it. *)
Definition no_match (teamName : string) (ev : Event) : Prop :=
  match ev with
  | EvQuery _ req (inl resp) =>
      match Filter req with
      | Some _ => Results resp = []
      | None => Forall (fun p => ~ names_team teamName p) (Results resp)
      end
  | _ => False
  end.

(** The value of a decimal numeral read from its first digit on, as
    [Fmt.digits_value] reads a string. *)
Fixpoint uint_value (acc : Z) (d : Decimal.uint) : Z :=
  match d with
  | Decimal.Nil => acc
  | Decimal.D0 l => uint_value (10 * acc + 0) l
  | Decimal.D1 l => uint_value (10 * acc + 1) l
  | Decimal.D2 l => uint_value (10 * acc + 2) l
  | Decimal.D3 l => uint_value (10 * acc + 3) l
  | Decimal.D4 l => uint_value (10 * acc + 4) l
  | Decimal.D5 l => uint_value (10 * acc + 5) l
  | Decimal.D6 l => uint_value (10 * acc + 6) l
  | Decimal.D7 l => uint_value (10 * acc + 7) l
  | Decimal.D8 l => uint_value (10 * acc + 8) l
  | Decimal.D9 l => uint_value (10 * acc + 9) l
  end.

(** The position and the first linked record of a property of the team
    page that scans as ["Challenge%d"] and is a relation with a target. *)
Definition challenge_link (entry : string * Property) : option (Z * PageID) :=
  match Fmt.Sscanf_Challenge_d entry.1, entry.2 with
  | Some challengeNum, RelationProperty (relation :: _) =>
      Some (challengeNum, RelationID relation)
  | _, _ => None
  end.

(** The number a page holds under a property name, when the property is
    there and is of the number kind. *)
Definition number_under (name : string) (page : Page) : option float64 :=
  match PageProperties page !! name with
  | Some (NumberProperty v) => Some v
  | _ => None
  end.

(** The numeric identifier of a challenge page: the number under "id",
    else the number under "ID". *)
Definition numeric_id (page : Page) : option float64 :=
  match number_under "id" page with
  | Some v => Some v
  | None => number_under "ID" page
  end.

(** What the answer to the fetch of a linked record adds to the map. *)
Definition absorb (challengeNum : Z) (r : GetResult) (challenges : gmap Z string)
  : gmap Z string :=
  match r with
  | inl challengePage => readChallengeID challengePage challengeNum challenges
  | inr _ => challenges
  end.

(** The map built from the links of a team page and the answers to
    their fetches, taken in order. *)
Definition absorb_all (fetched : list ((Z * PageID) * GetResult))
    (challenges : gmap Z string) : gmap Z string :=
  foldl (fun m fetch => absorb fetch.1.1 fetch.2 m) challenges fetched.

(** A team page whose relation properties are not named plainly
    [Challenge<N>], and challenge pages whose "id" is no number. *)
Module Oddities.

Definition titled (id : PageID) (n : Z) : Page :=
  {| ID := id;
     PageProperties :=
       {[ "id" := TitleProperty [ {| PlainText := "seven" |} ];
          "ID" := NumberProperty (Rockets.number n) ]} |}.

Definition unnumbered (id : PageID) : Page :=
  {| ID := id;
     PageProperties :=
       {[ "id" := RichTextProperty [ {| PlainText := "7" |} ];
          "ID" := OtherProperty "checkbox" ]} |}.

Definition team : Page :=
  {| ID := "team-2";
     PageProperties :=
       {[ "Challenge2Bonus" := RelationProperty [ {| RelationID := "c-20-b" |} ];
          "Challenge-1" := RelationProperty [ {| RelationID := "c-10-a" |};
                                              {| RelationID := "c-30-c" |} ];
          "Challenge7" := RelationProperty [ {| RelationID := "t-7" |} ];
          "Challenge8" := RelationProperty [ {| RelationID := "u-8" |} ];
          "Challenge9" := RelationProperty [ {| RelationID := "gone" |} ];
          "Challenge10" := RelationProperty [];
          "Challenge11" := TitleProperty [ {| PlainText := "eleven" |} ];
          "challenge12" := RelationProperty [ {| RelationID := "c-30-c" |} ] ]} |}.

Definition pages (id : PageID) : GetResult :=
  if String.eqb id "team-2" then inl team
  else if String.eqb id "t-7" then inl (titled "t-7" 7)
  else if String.eqb id "u-8" then inl (unnumbered "u-8")
  else Rockets.pages id.

Definition store : Store unit := fixedStore Rockets.queries pages.

End Oddities.

(** ** Integer-valued numbers *)

(** [math.Signbit]. *)
Definition signbit (f : float64) : bool :=
  match f with
  | S754_zero s | S754_infinity s | S754_finite s _ _ => s
  | S754_nan => false
  end.

(** The integer a [float64] stands for, when it stands for one: a zero, or
    [m * 2^e] with no fractional part. *)
Definition integer_value (f : float64) : option Z :=
  match f with
  | S754_zero _ => Some 0
  | S754_finite s m e =>
      let magnitude :=
        if 0 <=? e then Some (Zpos m * 2 ^ e)
        else if Zpos m mod 2 ^ (- e) =? 0 then Some (Zpos m / 2 ^ (- e))
        else None in
      (fun v => if s then - v else v) <$> magnitude
  | _ => None
  end.

(** ** The team list of the form and the generator *)

(** The order of Go strings: byte by byte. *)
Definition string_le (a b : string) : Prop := String.leb a b = true.

#[export] Instance string_le_dec : RelDecision string_le :=
  fun a b => decide (String.leb a b = true).

(** [sort.Strings]: the names in increasing order. The increasing
    arrangement of a list of strings is unique, so the sorting algorithm
    of the library does not show in the result. *)
Definition sort_Strings (x : list string) : list string := merge_sort string_le x.

(** The type assertion and the length test of the loop of
    [getAllTeamNames]: the plain text of the first segment of a title. *)
Definition titleText (prop : Property) : option string :=
  match prop with
  | TitleProperty (t :: _) => Some (PlainText t)
  | _ => None
  end.

(** The loop over the properties of one page, left by [break] at the first
    title with a segment. *)
Fixpoint firstTitle (entries : list (string * Property)) : option string :=
  match entries with
  | [] => None
  | entry :: rest =>
      match titleText entry.2 with
      | Some name => Some name
      | None => firstTitle rest
      end
  end.

(** The data handed to a template, and the calls a handler makes on its
    [gin.Context]. *)
Inductive TemplateData : Type :=
| NoData
| TeamFormData (challengeID : string) (Teams : list string)
| MVPData (mvp : string).

Inductive Output : Type :=
| OutHeader (key value : string)
| OutTemplate (name : string) (data : TemplateData)
| OutString (code : Z) (text : string).

(** [a - b] on [int]. *)
Definition int_sub (a b : Z) : Z := GoInt.wrap_int (a - b).

(** [mvpArray[i]]: an index out of range is a run-time panic, [None]. *)
Definition index {A : Type} (l : list A) (i : Z) : option A :=
  if i <? 0 then None else l !! Z.to_nat i.

Definition mvpArray : list string :=
  [ "Portable Water Filter"; "Eco-Friendly Phone Stand"; "Leaf-Based Notebook";
    "Natural Air Freshener"; "Solar-Powered Lantern"; "Pocket-Sized Board Game";
    "Mini Bird Feeder"; "Portable Hammock"; "Eco Speaker Amplifier";
    "Handmade Jewelry"; "Biodegradable Straw"; "Reusable Cutlery Set"; "Eco Toy Car";
    "Compostable Food Container"; "Emergency Shelter Kit"; "Natural Bandage";
    "Seed-Paper Business Card"; "Upcycled Coin Wallet"; "Outdoor Chess Set";
    "DIY Kite"; "Portable Plant Pot"; "Zero-Waste Picnic Kit"; "Wind Chime";
    "Stress Relief Toy"; "Eco Bracelet"; "Paper Recycling Kit";
    "Biodegradable Soap Holder"; "Natural Toothbrush"; "Eco-Friendly Bag";
    "Outdoor Survival Kit"; "Pocket Garden"; "Park-Themed Board Game";
    "Compost Bin Prototype"; "Mini Solar Oven"; "Eco-Friendly Candle";
    "Toy Drone Shell"; "Bird Call Whistle"; "Outdoor Gym Equipment"; "Eco Keychain";
    "Rainwater Collector"; "DIY Frisbee"; "Eco Sunglasses"; "Reusable Coffee Sleeve";
    "Portable Charger Holder"; "Nature Bookmark"; "Toy Boat"; "DIY Musical Instrument";
    "Eco-Friendly Packaging"; "Foldable Stool"; "Eco Travel Mug"; "Mini Wind Turbine";
    "Outdoor Meditation Mat"; "Portable Whiteboard"; "Emergency Cooking Stove";
    "Toy Puzzle"; "Nature Art Frame"; "Eco Phone Case"; "Reusable Water Filter Straw";
    "Picnic Blanket Prototype"; "Eco Bag Tag"; "DIY Pen Holder"; "Eco-Friendly Wallet";
    "Upcycled Backpack"; "Biodegradable Plant Pot"; "Eco Toothpaste Holder";
    "DIY Notebook"; "Park Cleaning Kit"; "Eco Coaster"; "Portable Light Reflector";
    "Outdoor Cooking Kit"; "Eco-Friendly Umbrella"; "Eco-Friendly Badge";
    "Mini Greenhouse"; "Eco-Friendly Soap Dish"; "Outdoor Relaxation Chair";
    "Toy Rocket"; "Eco-Friendly Speaker"; "DIY Lamp"; "Eco-Friendly Calendar";
    "Nature Camera Case"; "Eco-Friendly Shoes"; "Eco-Friendly Gloves";
    "Outdoor Game Dice"; "DIY Jewelry Box"; "Eco Candle Holder";
    "Portable Fire Starter"; "Eco Ashtray"; "Reusable Straw Holder";
    "DIY Sunglass Holder"; "Eco Plant Sprayer"; "Toy Airplane"; "Mini Compost Bag";
    "Eco-Friendly Watch"; "Portable Raincoat"; "Eco Pencil Case"; "Outdoor Card Game";
    "Toy Binoculars"; "Eco Lantern"; "Pocket First Aid Kit"; "Eco Water Bottle";
    "Eco Blanket" ].

Section Forms.

Variable app : App.
Variable rangeProperties : Range string Property.
(** The error, if any, of [app.templates.ExecuteTemplate] on a template
    and its data. *)
Variable ExecuteTemplate : string -> TemplateData -> option error.
(** The number the generator of [math/rand] gives for a bound. *)
Variable Intn : Z -> Z.

(** *** [getAllTeamNames] *)

(** The loop over [result.Results], appending to [teamNames]. *)
Fixpoint collectTeamNames (pages : list Page) (teamNames : list string) : list string :=
  match pages with
  | [] => teamNames
  | page :: rest =>
      collectTeamNames rest
        match firstTitle (rangeProperties (PageProperties page)) with
        | Some name => teamNames ++ [name]
        | None => teamNames
        end
  end.

(** The function after its query succeeded. *)
Definition listTeamNames (pages : list Page) : list string + error :=
  let teamNames := collectTeamNames pages [] in
  if (length teamNames =? 0)%nat then inr "keine Teams in der Datenbank gefunden"
  else inl (sort_Strings teamNames).

Definition getAllTeamNames : Prog (list string + error) :=
  result ← query (teamsDBID app) {| Filter := None; PageSize := 100 |};
  match result with
  | inr err => mret (inr ("fehler beim Abfragen der Team-Datenbank: " +:+ err))
  | inl resp => mret (listTeamNames (Results resp))
  end.

(** *** [handleHome] and [handleChallengeForm] *)

(** The header, the template, and the status 500 text when the template
    fails. *)
Definition renderTemplate (name : string) (data : TemplateData) : list Output :=
  OutHeader "Content-Type" "text/html; charset=utf-8"
  :: OutTemplate name data
  :: match ExecuteTemplate name data with
     | Some err => [OutString 500 ("Template-Fehler: " +:+ err)]
     | None => []
     end.

Definition handleHome : list Output := renderTemplate "home.html" NoData.

Definition handleChallengeForm (challengeID : string) : Prog (list Output) :=
  teamNames ← getAllTeamNames;
  match teamNames with
  | inr err => mret [OutString 500 ("Fehler beim Laden der Teamliste: " +:+ err)]
  | inl names => mret (renderTemplate "teamform.html" (TeamFormData challengeID names))
  end.

(** *** [randRange] and [generateMVP] *)

(** [rand.Intn(n)]: a panic, [None], when [n <= 0]. *)
Definition rand_Intn (n : Z) : option Z :=
  if n <=? 0 then None else Some (Intn n).

Definition randRange (min max : Z) : option Z :=
  r ← rand_Intn (int_sub max min);
  Some (GoInt.add r min).

Definition generateMVP : option (list Output) :=
  i ← randRange 0 (Z.of_nat (length mvpArray));
  mvp ← index mvpArray i;
  Some (renderTemplate "mvpgenerator.html" (MVPData mvp)).

Definition handleMVPGenerator : option (list Output) := generateMVP.

End Forms.

(** ** Predicates of the statements on the team list *)

(** The title the loop of [getAllTeamNames] reads from a page under an
    enumeration of its properties. *)
Definition page_title (range : Range string Property) (page : Page) : option string :=
  firstTitle (range (PageProperties page)).

(** The page has a title property whose first segment reads [name]. *)
Definition has_title (page : Page) (name : string) : Prop :=
  exists key prop,
    PageProperties page !! key = Some prop /\ titleText prop = Some name.

(** Any two titles of the page read the same: a page of a Notion database
    has one title property. *)
Definition single_title (page : Page) : Prop :=
  forall name1 name2, has_title page name1 -> has_title page name2 -> name1 = name2.

(** A team database of three teams and a page with no title. The title is
    under a different name on every page. *)
Module League.

Definition teamPage (id : PageID) (key name : string) : Page :=
  {| ID := id;
     PageProperties :=
       {[ key := TitleProperty [ {| PlainText := name |}; {| PlainText := " (2024)" |} ];
          "Notes" := RichTextProperty [ {| PlainText := "n/a" |} ] ]} |}.

Definition untitled : Page :=
  {| ID := "t-0";
     PageProperties := {[ "Name" := TitleProperty [];
                          "Notes" := RichTextProperty [ {| PlainText := "draft" |} ] ]} |}.

Definition teams : list Page :=
  [ teamPage "t-1" "Name" "rockets"; untitled; teamPage "t-2" "Team" "Zebras";
    teamPage "t-3" "title" "Comets" ].

Definition app : App := {| teamsDBID := "teams"; challengeDBID := "challenges" |}.

(** The store answers the unfiltered query of the team database; it has no
    property to filter on. *)
Definition queries (db : DatabaseID) (req : DatabaseQueryRequest) : QueryResult :=
  match Filter req with
  | None => if String.eqb db "teams" then inl {| Results := teams |}
            else inr "object not found"
  | Some _ => inr "could not find property"
  end.

Definition pages (id : PageID) : GetResult := inr "object not found".

Definition store : Store unit := fixedStore queries pages.

(** A store whose every call fails. *)
Definition offline : Store unit :=
  fixedStore (fun _ _ => inr "service unavailable") (fun _ => inr "service unavailable").

(** A template engine that never fails. *)
Definition rendered (name : string) (data : TemplateData) : option error := None.

End League.

(** No two properties of the team page that link a challenge scan to the
    same position. *)
Definition distinct_positions (team : Page) : Prop :=
  forall name1 prop1 target1 name2 prop2 target2 n,
    PageProperties team !! name1 = Some prop1 ->
    PageProperties team !! name2 = Some prop2 ->
    challenge_link (name1, prop1) = Some (n, target1) ->
    challenge_link (name2, prop2) = Some (n, target2) ->
    name1 = name2.

(** Every call of a run against a store of fixed answers got the store's
    answer to it. *)
Definition fixed_answer (queries : DatabaseID -> DatabaseQueryRequest -> QueryResult)
    (pages : PageID -> GetResult) (ev : Event) : Prop :=
  match ev with
  | EvQuery db req r => r = queries db req
  | EvGet id r => r = pages id
  end.

(** The database queries among the calls of a run: the database and the
    request of each. *)
Definition queries_of (calls : list Event) : list (DatabaseID * DatabaseQueryRequest) :=
  omap (fun ev => match ev with
                  | EvQuery db req _ => Some (db, req)
                  | EvGet _ _ => None
                  end) calls.


(** ** Predicates of the statements on the extraction and the team search *)

(** What one fetched answer makes of the entry of its position: a number
    under "id" is written over whatever the entry was; without one, an entry
    that is there stays, and only an absent entry takes the number under
    "ID"; a failed fetch changes nothing. *)
Definition entry_step (r : GetResult) (current : option string) : option string :=
  match r with
  | inr _ => current
  | inl page =>
      match number_under "id" page with
      | Some v => Some (Float64.Sprintf_0f v)
      | None =>
          match current with
          | Some text => Some text
          | None => option_map Float64.Sprintf_0f (number_under "ID" page)
          end
      end
  end.

(** The entry of position [n] after the answers to the fetches, taken in
    the order of the visit: only the fetches for [n] count. *)
Definition visit_entry (n : Z) (current : option string)
    (fetch : (Z * PageID) * GetResult) : option string :=
  if decide (fetch.1.1 = n) then entry_step fetch.2 current else current.

Definition position_entry (n : Z) (fetched : list ((Z * PageID) * GetResult))
  : option string :=
  foldl (visit_entry n) None fetched.





(** The whole text of a title or of a rich text: its segments in a row. *)
Definition full_text (prop : Property) : option string :=
  match prop with
  | TitleProperty segments | RichTextProperty segments =>
      Some (foldr (fun segment text => PlainText segment +:+ text) EmptyString segments)
  | _ => None
  end.

(** A title or a rich text of exactly one segment; any other kind. *)
Definition one_segment (prop : Property) : Prop :=
  match prop with
  | TitleProperty segments | RichTextProperty segments => length segments = 1%nat
  | _ => True
  end.

(** A team page whose two linking properties scan to the same position,
    and the two challenge pages they link: one with a number under "ID"
    only, one whose "id" is a title and whose "ID" is a number. *)
Module SamePosition.

Definition team : Page :=
  {| ID := "team-4";
     PageProperties :=
       {[ "Challenge7" := RelationProperty [ {| RelationID := "c-20-b" |} ];
          "Challenge07" := RelationProperty [ {| RelationID := "t-7" |} ] ]} |}.

Definition pages (id : PageID) : GetResult :=
  if String.eqb id "team-4" then inl team else Oddities.pages id.

Definition store : Store unit := fixedStore Rockets.queries pages.

End SamePosition.

(** Two team pages whose titles have two segments: "Rock" and "ets", and
    "Rockets" and " (2024)". No filter query of this store finds a record. *)
Module Segments.

Definition titled (id : PageID) (first second : string) : Page :=
  {| ID := id;
     PageProperties :=
       {[ "Name" := TitleProperty [ {| PlainText := first |}; {| PlainText := second |} ] ]} |}.

Definition split : Page := titled "a" "Rock" "ets".
Definition suffixed : Page := titled "b" "Rockets" " (2024)".

Definition queries (db : DatabaseID) (req : DatabaseQueryRequest) : QueryResult :=
  match Filter req with
  | None => inl {| Results := [split; suffixed] |}
  | Some _ => inl {| Results := [] |}
  end.

Definition store : Store unit := fixedStore queries (fun _ => inr "object not found").

End Segments.

(** * Properties *)

(** ** Arithmetic of [int] *)

Section GoIntFacts.

Import GoInt.

Lemma wrap_int_id z : min_int <= z <= max_int -> wrap_int z = z.
Proof.
  unfold wrap_int, min_int, max_int. intros Hz.
  rewrite Z.mod_small by lia. lia.
Qed.

Lemma wrap_int_range z : min_int <= wrap_int z <= max_int.
Proof.
  unfold wrap_int, min_int, max_int.
  pose proof (Z.mod_pos_bound (z + 2 ^ 63) (2 ^ 64) ltac:(lia)). lia.
Qed.


End GoIntFacts.

(** ** The scan of a property name *)

Example Sscanf_Challenge_1 : Fmt.Sscanf_Challenge_d "Challenge1" = Some 1.
Proof. reflexivity. Qed.
Example Sscanf_Challenge_12 : Fmt.Sscanf_Challenge_d "Challenge12" = Some 12.
Proof. reflexivity. Qed.
Example Sscanf_Challenge_bonus : Fmt.Sscanf_Challenge_d "Challenge2Bonus" = Some 2.
Proof. reflexivity. Qed.
Example Sscanf_Challenge_neg : Fmt.Sscanf_Challenge_d "Challenge-1" = Some (-1).
Proof. reflexivity. Qed.
Example Sscanf_Challenge_space : Fmt.Sscanf_Challenge_d "Challenge 7" = Some 7.
Proof. reflexivity. Qed.
Example Sscanf_Challenge_none : Fmt.Sscanf_Challenge_d "Challenge" = None.
Proof. reflexivity. Qed.
Example Sscanf_Challenge_lower : Fmt.Sscanf_Challenge_d "challenge1" = None.
Proof. reflexivity. Qed.
Example Sscanf_Challenge_name : Fmt.Sscanf_Challenge_d "Name" = None.
Proof. reflexivity. Qed.
Example Sscanf_Challenge_big :
  Fmt.Sscanf_Challenge_d "Challenge9223372036854775808" = None.
Proof. reflexivity. Qed.

(** ** Running programs *)

Lemma run_ret {S A : Type} (h : Store S) (a : A) (s : S) :
  run h (mret a) s = (a, [], s).
Proof. reflexivity. Qed.

Lemma run_bind {S A B : Type} (h : Store S) (p : Prog A) (f : A -> Prog B) (s : S) :
  run h (p ≫= f) s =
    let '(a, tr1, s1) := run h p s in
    let '(b, tr2, s2) := run h (f a) s1 in
    (b, tr1 ++ tr2, s2).
Proof.
  revert s. induction p as [a|db req k IH|id k IH]; intros s; cbn.
  - destruct (run h (f a) s) as [[b tr] s2]. reflexivity.
  - destruct (Database_Query h db req s) as [r s1].
    change (bind (k r) f) with (k r ≫= f). rewrite IH.
    destruct (run h (k r) s1) as [[a tr1] s2].
    destruct (run h (f a) s2) as [[b tr2] s3]. reflexivity.
  - destruct (Page_Get h id s) as [r s1].
    change (bind (k r) f) with (k r ≫= f). rewrite IH.
    destruct (run h (k r) s1) as [[a tr1] s2].
    destruct (run h (f a) s2) as [[b tr2] s3]. reflexivity.
Qed.

Lemma run_query {S : Type} (h : Store S) db req (s : S) :
  run h (query db req) s =
    ((Database_Query h db req s).1, [EvQuery db req (Database_Query h db req s).1],
     (Database_Query h db req s).2).
Proof. cbn. destruct (Database_Query h db req s); reflexivity. Qed.

Lemma run_get {S : Type} (h : Store S) id (s : S) :
  run h (get id) s =
    ((Page_Get h id s).1, [EvGet id (Page_Get h id s).1], (Page_Get h id s).2).
Proof. cbn. destruct (Page_Get h id s); reflexivity. Qed.

Lemma firstResult_None (r : QueryResult) :
  firstResult r = None <-> yields_nothing r.
Proof.
  unfold yields_nothing. destruct r as [[results]|err]; cbn.
  - destruct results as [|page rest]; cbn; split.
    + intros _. right. eexists. split; reflexivity.
    + reflexivity.
    + discriminate.
    + intros [[e He]|[resp [He Hr]]]; [discriminate|].
      injection He as <-. discriminate.
  - split; [intros _; left; eauto | reflexivity].
Qed.

Lemma firstResult_Some (r : QueryResult) (page : Page) :
  firstResult r = Some page <-> yields_first r page.
Proof.
  unfold yields_first. destruct r as [[results]|err]; cbn.
  - destruct results as [|page' rest]; cbn; split.
    + discriminate.
    + intros (resp & rest & He & Hr). injection He as <-. discriminate.
    + intros [= ->]. eexists _, _. split; reflexivity.
    + intros (resp & rest' & He & Hr). injection He as <-.
      cbn in Hr. congruence.
  - split; [discriminate|]. intros (resp & rest & He & _). discriminate.
Qed.

(** ** The position of the current challenge *)

Lemma valid_range_lookup {K V : Type} `{Countable K} (r : Range K V) (m : gmap K V) k v :
  valid_range r -> (k, v) ∈ r m <-> m !! k = Some v.
Proof. intros Hr. rewrite (Hr m). apply elem_of_map_to_list. Qed.

(** The scan returns the position of an entry that holds [currentID], or
    [0] when no entry holds it. *)
Lemma scanCurrentPos_spec (entries : list (Z * string)) (currentID : string) :
  (scanCurrentPos entries currentID = 0
   /\ forall pos id, (pos, id) ∈ entries -> id <> currentID)
  \/ (scanCurrentPos entries currentID, currentID) ∈ entries.
Proof.
  induction entries as [|[pos id] rest IH]; cbn.
  - left. split; [reflexivity|]. intros pos id Hin. inversion Hin.
  - destruct (String.eqb_spec id currentID) as [->|Hne].
    + right. left.
    + destruct IH as [[H0 Hall]|Hin].
      * left. split; [exact H0|]. intros pos' id' Hin.
        apply elem_of_cons in Hin as [[= -> ->]|Hin]; [exact Hne|eauto].
      * right. right. exact Hin.
Qed.

Lemma scanCurrentPos_absent (entries : list (Z * string)) (currentID : string) :
  (forall pos id, (pos, id) ∈ entries -> id <> currentID) ->
  scanCurrentPos entries currentID = 0.
Proof.
  intros Hall. destruct (scanCurrentPos_spec entries currentID) as [[H0 _]|Hin].
  - exact H0.
  - exfalso. exact (Hall _ _ Hin eq_refl).
Qed.

(** C1. For every sequence mapping and every [currentID] that is the
    identifier of no position, the resolver takes position 0 as the current
    one and looks up position 1: the next identifier is the one stored at
    position 1 when 1 is a key, and the function then goes on to locate
    exactly that identifier; when 1 is no key it returns the empty string.
    The result is a plain string in both cases: the function has no error
    to return. *)
Theorem findNextChallengeURL_unknown_id_starts_at_1
    (app : App) (range : Range Z string) (challenges : gmap Z string)
    (currentID : string) :
  valid_range range ->
  map_Forall (fun _ id => id <> currentID) challenges ->
  currentPosition range challenges currentID = 0
  /\ nextChallengeID range challenges currentID = challenges !! 1
  /\ findNextChallengeURL app range challenges currentID =
       match challenges !! 1 with
       | Some nextID => locateChallenge app nextID
       | None => mret EmptyString
       end.
Proof.
  intros Hrange Hnone.
  assert (Hpos : currentPosition range challenges currentID = 0).
  { apply scanCurrentPos_absent. intros pos id Hin.
    apply (valid_range_lookup range challenges pos id Hrange) in Hin.
    exact (Hnone pos id Hin). }
  assert (Hnext : nextChallengeID range challenges currentID = challenges !! 1).
  { unfold nextChallengeID, nextPosition. rewrite Hpos. reflexivity. }
  split; [exact Hpos|]. split; [exact Hnext|].
  unfold findNextChallengeURL. rewrite Hnext. reflexivity.
Qed.

Lemma findNextChallengeURL_unknown_id_witness :
  currentPosition map_to_list Rockets.sequence "unknown-id" = 0
  /\ nextChallengeID map_to_list Rockets.sequence "unknown-id" = Some "10".
Proof.
  destruct (findNextChallengeURL_unknown_id_starts_at_1 Rockets.app map_to_list
              Rockets.sequence "unknown-id") as (Hpos & Hnext & _).
  - intros m. reflexivity.
  - apply (bool_decide_unpack _). vm_compute. exact I.
  - split; [exact Hpos|]. rewrite Hnext. reflexivity.
Defined.

(** With an enumeration of the map itself, the current position is a
    position that holds [currentID], or [0] when no position holds it. *)
Lemma currentPosition_spec (range : Range Z string) (challenges : gmap Z string)
    (currentID : string) :
  valid_range range ->
  (currentPosition range challenges currentID = 0
   /\ map_Forall (fun _ id => id <> currentID) challenges)
  \/ challenges !! currentPosition range challenges currentID = Some currentID.
Proof.
  intros Hrange. unfold currentPosition.
  destruct (scanCurrentPos_spec (range challenges) currentID) as [[H0 Hall]|Hin].
  - left. split; [exact H0|]. intros pos id Hlook.
    apply (Hall pos id). apply (valid_range_lookup range challenges pos id Hrange).
    exact Hlook.
  - right. apply (valid_range_lookup range challenges _ _ Hrange). exact Hin.
Qed.

(** C2. When the position after the current one is no key of the mapping,
    [findNextChallengeURL] is the program that returns the empty string at
    once: run against any store it makes no call. The caller
    [handleNextChallenge], once the team and its challenges are found,
    answers such a request with the "finished" page and makes no call
    beyond those two lookups. *)
Theorem findNextChallengeURL_exhausted_is_finished
    {S : Type} (h : Store S) (app : App)
    (rangeProperties : Range string Property) (rangeChallenges : Range Z string)
    (challenges : gmap Z string) (currentID : string) :
  challenges !! nextPosition rangeChallenges challenges currentID = None ->
  findNextChallengeURL app rangeChallenges challenges currentID = mret EmptyString
  /\ (forall s : S,
        run h (findNextChallengeURL app rangeChallenges challenges currentID) s
        = (EmptyString, [], s))
  /\ (forall (teamName : string) (teamPageID : PageID) (s s1 s2 : S)
             (tr1 tr2 : list Event),
        teamName <> EmptyString ->
        run h (findTeamPage app rangeProperties teamName) s = (inl teamPageID, tr1, s1) ->
        teamPageID <> EmptyString ->
        run h (getTeamChallenges rangeProperties teamPageID) s1
        = (inl challenges, tr2, s2) ->
        run h (handleNextChallenge app rangeProperties rangeChallenges currentID teamName) s
        = (FinishedPage teamName, tr1 ++ tr2, s2)).
Proof.
  intros Hnone.
  assert (Hret : findNextChallengeURL app rangeChallenges challenges currentID
                 = mret EmptyString).
  { unfold findNextChallengeURL, nextChallengeID. rewrite Hnone. reflexivity. }
  split; [exact Hret|]. split.
  - intros s. rewrite Hret. reflexivity.
  - intros teamName teamPageID s s1 s2 tr1 tr2 Hname Hteam Hid Hdata.
    unfold handleNextChallenge.
    destruct (String.eqb_spec teamName EmptyString) as [->|_]; [congruence|].
    rewrite run_bind, Hteam. cbv beta iota.
    destruct (String.eqb_spec teamPageID EmptyString) as [->|_]; [congruence|].
    rewrite run_bind, Hdata. cbv beta iota.
    rewrite run_bind, Hret. cbn.
    rewrite app_nil_r. reflexivity.
Qed.

Lemma findNextChallengeURL_exhausted_witness :
  run Rockets.store
    (handleNextChallenge Rockets.app map_to_list map_to_list "30" "Rockets") tt
  = (FinishedPage "Rockets",
     (run Rockets.store (findTeamPage Rockets.app map_to_list "Rockets") tt).1.2
     ++ (run Rockets.store (getTeamChallenges map_to_list "team-1") tt).1.2,
     tt).
Proof.
  assert (Hnone : Rockets.sequence !! nextPosition map_to_list Rockets.sequence "30" = None)
    by (vm_compute; reflexivity).
  destruct (findNextChallengeURL_exhausted_is_finished Rockets.store Rockets.app
              map_to_list map_to_list Rockets.sequence "30" Hnone) as (_ & _ & Hcaller).
  apply (Hcaller "Rockets" "team-1" tt tt tt).
  - discriminate.
  - vm_compute. reflexivity.
  - discriminate.
  - vm_compute. reflexivity.
Defined.

Lemma distinct_identifiers_NoDup (challenges : gmap Z string) :
  NoDup (map_to_list challenges).*2 -> distinct_identifiers challenges.
Proof.
  intros Hnd pos1 pos2 id H1 H2.
  apply elem_of_map_to_list in H1, H2.
  induction (map_to_list challenges) as [|[pos id'] l IH]; [inversion H1|].
  cbn in Hnd. apply NoDup_cons in Hnd as [Hnotin Hnd].
  apply elem_of_cons in H1 as [[= -> ->]|H1];
    apply elem_of_cons in H2 as [[= ->]|H2]; subst.
  - reflexivity.
  - exfalso. apply Hnotin. apply (list_elem_of_fmap_2 snd _ _ H2).
  - exfalso. apply Hnotin. apply (list_elem_of_fmap_2 snd _ _ H1).
  - exact (IH Hnd H1 H2).
Qed.

(** C8. When distinct positions hold distinct identifiers, the outcome of
    the next-position resolution does not depend on the order in which the
    map is enumerated: under any two enumerations of the same map the scan
    finds the same current position, the same next identifier is looked up,
    and [findNextChallengeURL] is the same program, so that two runs against
    the same store from the same state agree. *)
Theorem findNextChallengeURL_iteration_order_irrelevant
    {S : Type} (h : Store S) (app : App) (range1 range2 : Range Z string)
    (challenges : gmap Z string) (currentID : string) :
  valid_range range1 -> valid_range range2 ->
  distinct_identifiers challenges ->
  currentPosition range1 challenges currentID = currentPosition range2 challenges currentID
  /\ nextChallengeID range1 challenges currentID = nextChallengeID range2 challenges currentID
  /\ forall s : S,
       run h (findNextChallengeURL app range1 challenges currentID) s
       = run h (findNextChallengeURL app range2 challenges currentID) s.
Proof.
  intros Hr1 Hr2 Hdistinct.
  assert (Hpos : currentPosition range1 challenges currentID
                 = currentPosition range2 challenges currentID).
  { destruct (currentPosition_spec range1 challenges currentID Hr1) as [[H1 Hall1]|H1];
      destruct (currentPosition_spec range2 challenges currentID Hr2) as [[H2 Hall2]|H2].
    - congruence.
    - exfalso. exact (Hall1 _ _ H2 eq_refl).
    - exfalso. exact (Hall2 _ _ H1 eq_refl).
    - exact (Hdistinct _ _ _ H1 H2). }
  assert (Hnext : nextChallengeID range1 challenges currentID
                  = nextChallengeID range2 challenges currentID).
  { unfold nextChallengeID, nextPosition. rewrite Hpos. reflexivity. }
  split; [exact Hpos|]. split; [exact Hnext|].
  intros s. unfold findNextChallengeURL. rewrite Hnext. reflexivity.
Qed.

Lemma findNextChallengeURL_iteration_order_witness :
  nextChallengeID map_to_list Rockets.sequence "10"
  = nextChallengeID (fun m => reverse (map_to_list m)) Rockets.sequence "10".
Proof.
  apply (findNextChallengeURL_iteration_order_irrelevant Rockets.store Rockets.app
           map_to_list (fun m => reverse (map_to_list m)) Rockets.sequence "10").
  - intros m. reflexivity.
  - intros m. apply reverse_Permutation.
  - apply distinct_identifiers_NoDup. apply (bool_decide_unpack _). vm_compute. exact I.
Defined.

(** With one identifier at two positions the enumeration order decides:
    the first entry visited wins. *)
Example duplicate_identifier_first_visited_wins :
  let challenges : gmap Z string := {[ 1 := "7"; 2 := "8"; 5 := "7"; 6 := "9" ]} in
  nextChallengeID map_to_list challenges "7" = Some "9"
  /\ nextChallengeID (fun m => reverse (map_to_list m)) challenges "7" = Some "8".
Proof. vm_compute. split; reflexivity. Qed.

(** ** The cleaned page identifier *)

Ltac bool_facts :=
  repeat match goal with
    | H : _ && _ = true |- _ => apply andb_true_iff in H as [? ?]
    | H : (_ <=? _) = true |- _ => apply Z.leb_le in H
    | H : (_ <? _) = true |- _ => apply Z.ltb_lt in H
    | H : (_ <? _) = false |- _ => apply Z.ltb_ge in H
    | H : (_ =? _) = true |- _ => apply Z.eqb_eq in H
    | H : (_ =? _) = false |- _ => apply Z.eqb_neq in H
    end.

Lemma hyphen_code (c : ascii) : Ascii.eqb c "-" = true -> Utf8.code c = 45.
Proof. intros H. apply Ascii.eqb_eq in H. subst c. reflexivity. Qed.

Lemma high_not_hyphen (c : ascii) : 128 <= Utf8.code c -> Ascii.eqb c "-" = false.
Proof.
  intros H. destruct (Ascii.eqb c "-") eqn:E; [|reflexivity].
  apply hyphen_code in E. lia.
Qed.

Lemma second3_high b0 b1 : Utf8.second3 b0 b1 = true -> 128 <= Utf8.code b1.
Proof.
  unfold Utf8.second3, Utf8.cont, Utf8.between.
  repeat match goal with |- context [if ?b then _ else _] => destruct b end;
    intros; bool_facts; lia.
Qed.

Lemma second4_high b0 b1 : Utf8.second4 b0 b1 = true -> 128 <= Utf8.code b1.
Proof.
  unfold Utf8.second4, Utf8.cont, Utf8.between.
  repeat match goal with |- context [if ?b then _ else _] => destruct b end;
    intros; bool_facts; lia.
Qed.

Lemma cont_high b : Utf8.cont b = true -> 128 <= Utf8.code b.
Proof. unfold Utf8.cont, Utf8.between. intros; bool_facts; lia. Qed.

(** A rune of more than one byte starts with a high byte and is followed
    by as many high bytes as its width says. *)
Lemma rune_len_multibyte (c : ascii) (rest : string) (k : nat) :
  Utf8.rune_len (String c rest) = S (S k) ->
  128 <= Utf8.code c /\ high_prefix (S k) rest = true.
Proof.
  cbn [Utf8.rune_len].
  destruct (Utf8.code c <? 128) eqn:E0; [discriminate|]. bool_facts.
  destruct rest as [|b1 s2]; [discriminate|].
  destruct (Utf8.between 194 223 c).
  { destruct (Utf8.cont b1) eqn:E1; [|discriminate].
    intros [= <-]. split; [lia|]. cbn. apply cont_high in E1.
    apply andb_true_iff. split; [apply Z.leb_le; lia|reflexivity]. }
  destruct s2 as [|b2 s3]; [discriminate|].
  destruct (Utf8.second3 c b1) eqn:E3.
  { destruct (Utf8.cont b2) eqn:E2; [|discriminate].
    intros [= <-]. split; [lia|]. cbn.
    apply second3_high in E3. apply cont_high in E2.
    rewrite !andb_true_iff, !Z.leb_le. repeat split; lia. }
  destruct s3 as [|b3 s4]; [discriminate|].
  destruct (Utf8.second4 c b1) eqn:E4; [|discriminate].
  destruct (Utf8.cont b2) eqn:E2; [|discriminate].
  destruct (Utf8.cont b3) eqn:E5; [|discriminate].
  cbn. intros [= <-]. split; [lia|].
  apply second4_high in E4. apply cont_high in E2, E5.
  cbn. rewrite !andb_true_iff, !Z.leb_le. repeat split; lia.
Qed.


Lemma has_hyphen_app (s t : string) :
  has_hyphen (s +:+ t) = has_hyphen s || has_hyphen t.
Proof.
  induction s as [|c s IH]; [reflexivity|].
  change (String c s +:+ t) with (String c (s +:+ t)).
  cbn [has_hyphen]. rewrite IH. apply orb_assoc.
Qed.

(** No hyphen is left in the cleaned identifier, whatever the bytes of the
    page identifier are. *)
Lemma cleanID_from_no_hyphen (skip : nat) (pageID : string) :
  high_prefix skip pageID = true ->
  has_hyphen (cleanID_from skip pageID) = false.
Proof.
  revert skip. induction pageID as [|c rest IH]; intros skip Hpre; [reflexivity|].
  destruct skip as [|k].
  - cbn [cleanID_from].
    destruct (Utf8.rune_len (String c rest)) as [|[|k]] eqn:Hlen.
    + rewrite has_hyphen_app. cbn. apply IH. reflexivity.
    + destruct (Ascii.eqb c "-") eqn:E; cbn [has_hyphen].
      * apply IH. reflexivity.
      * rewrite E. cbn. apply IH. reflexivity.
    + apply rune_len_multibyte in Hlen as [Hc Hrest].
      cbn [has_hyphen]. rewrite (high_not_hyphen c Hc). cbn.
      apply IH. exact Hrest.
  - cbn [cleanID_from has_hyphen].
    cbn in Hpre. bool_facts. rewrite (high_not_hyphen c) by lia. cbn.
    apply IH. assumption.
Qed.

Lemma cleanID_no_hyphen (pageID : string) : has_hyphen (cleanID pageID) = false.
Proof. apply cleanID_from_no_hyphen. reflexivity. Qed.

(** On valid UTF-8 the loop over the runes removes the hyphen bytes and
    nothing else. *)
Lemma cleanID_from_valid (skip : nat) (pageID : string) :
  Utf8.valid_from skip pageID = true ->
  high_prefix skip pageID = true ->
  cleanID_from skip pageID = remove_hyphens pageID.
Proof.
  revert skip. induction pageID as [|c rest IH]; intros skip Hvalid Hpre; [reflexivity|].
  destruct skip as [|k].
  - cbn [cleanID_from remove_hyphens]. cbn [Utf8.valid_from] in Hvalid.
    destruct (Utf8.rune_len (String c rest)) as [|[|k]] eqn:Hlen.
    + discriminate.
    + destruct (Ascii.eqb c "-"); [|f_equal]; apply IH; auto.
    + apply rune_len_multibyte in Hlen as [Hc Hrest].
      rewrite (high_not_hyphen c Hc). f_equal. apply IH; assumption.
  - cbn [cleanID_from remove_hyphens]. cbn in Hvalid, Hpre. bool_facts.
    rewrite (high_not_hyphen c) by lia. f_equal. apply IH; assumption.
Qed.

Lemma cleanID_valid (pageID : string) :
  Utf8.valid pageID = true -> cleanID pageID = remove_hyphens pageID.
Proof. intros H. apply cleanID_from_valid; [exact H|reflexivity]. Qed.

Example cleanID_uuid :
  cleanID "1f0e3b2a-7c4d-4e8f-9a1b-2c3d4e5f6a7b" = "1f0e3b2a7c4d4e8f9a1b2c3d4e5f6a7b".
Proof. reflexivity. Qed.

(** ** The locator *)

(** C4. The locator queries the Challenge collection with an equality
    filter on the number property "id", the value being the identifier
    string parsed as a float. When that query succeeds with a record, this is
    the only call, and the result is the base URL followed by the cleaned
    identifier of the first record. When it fails or finds no record, there
    is exactly one more call, the same filter on "ID"; its first record gives
    the URL in the same way, and when it too fails or finds no record the
    result is the empty string. The cleaned identifier never contains a
    hyphen, and for an identifier that is valid UTF-8 it is the identifier
    with its hyphens removed. *)
Theorem locateChallenge_id_then_ID
    {S : Type} (h : Store S) (app : App) (nextID : string) (s : S) :
  let db := challengeDBID app in
  let equals (prop : string) :=
    {| Filter := Some {| FilterProperty := prop;
                         Condition := NumberEquals (parseFloat nextID).1 |};
       PageSize := 0 |} in
  let r1 := (Database_Query h db (equals "id") s).1 in
  let s1 := (Database_Query h db (equals "id") s).2 in
  let r2 := (Database_Query h db (equals "ID") s1).1 in
  let s2 := (Database_Query h db (equals "ID") s1).2 in
  let url (page : Page) := baseURL +:+ cleanID (ID page) in
  (forall page, yields_first r1 page ->
     run h (locateChallenge app nextID) s
     = (url page, [EvQuery db (equals "id") r1], s1))
  /\ (yields_nothing r1 ->
      (forall page, yields_first r2 page ->
         run h (locateChallenge app nextID) s
         = (url page, [EvQuery db (equals "id") r1; EvQuery db (equals "ID") r2], s2))
      /\ (yields_nothing r2 ->
          run h (locateChallenge app nextID) s
          = (EmptyString,
             [EvQuery db (equals "id") r1; EvQuery db (equals "ID") r2], s2)))
  /\ (forall pageID,
        has_hyphen (cleanID pageID) = false
        /\ (Utf8.valid pageID = true -> cleanID pageID = remove_hyphens pageID)).
Proof.
  intros db equals r1 s1 r2 s2 url.
  assert (Hrun : run h (locateChallenge app nextID) s =
                 match firstResult r1 with
                 | Some page => (url page, [EvQuery db (equals "id") r1], s1)
                 | None =>
                     (match firstResult r2 with
                      | Some page => url page
                      | None => EmptyString
                      end,
                      [EvQuery db (equals "id") r1; EvQuery db (equals "ID") r2], s2)
                 end).
  { unfold locateChallenge. rewrite run_bind, run_query.
    fold db. change (numberFilter "id" nextID) with (equals "id").
    fold r1 s1. cbv beta iota.
    destruct (firstResult r1) as [page|] eqn:H1.
    - rewrite run_bind, run_ret. cbv beta iota. rewrite H1. reflexivity.
    - rewrite run_bind, run_query.
      change (numberFilter "ID" nextID) with (equals "ID").
      fold r2 s2. cbv beta iota.
      destruct (firstResult r2) as [page|]; reflexivity. }
  split; [|split].
  - intros page Hfirst. apply firstResult_Some in Hfirst.
    rewrite Hrun, Hfirst. reflexivity.
  - intros Hnothing. apply firstResult_None in Hnothing. split.
    + intros page Hfirst. apply firstResult_Some in Hfirst.
      rewrite Hrun, Hnothing, Hfirst. reflexivity.
    + intros Hnothing2. apply firstResult_None in Hnothing2.
      rewrite Hrun, Hnothing, Hnothing2. reflexivity.
  - intros pageID. split; [apply cleanID_no_hyphen|apply cleanID_valid].
Qed.

(** The scenario's locator call for "20": nothing under "id", the record
    under "ID". *)
Lemma locateChallenge_20_witness :
  run Rockets.store (locateChallenge Rockets.app "20") tt
  = ("https://marcbaumholz.notion.site/c20b",
     [EvQuery "challenges" (numberFilter "id" "20") (inl {| Results := [] |});
      EvQuery "challenges" (numberFilter "ID" "20") (inl {| Results := [Rockets.c20] |})],
     tt).
Proof.
  destruct (locateChallenge_id_then_ID Rockets.store Rockets.app "20" tt)
    as (_ & Hretry & _).
  destruct Hretry as [Hfound _].
  - right. eexists. split; reflexivity.
  - apply (Hfound Rockets.c20). eexists _, _. split; reflexivity.
Defined.

(** ** Team resolution *)

Lemma propertyMatches_text (teamName : string) (prop : Property) :
  propertyMatches teamName prop = true <-> property_text prop = Some teamName.
Proof.
  destruct prop as [[|t ts]|[|t ts]| | |]; cbn;
    try (split; discriminate).
  - rewrite String.eqb_eq. split; congruence.
  - rewrite String.eqb_eq. split; congruence.
Qed.

Lemma pageMatches_names_team (range : Range string Property) (teamName : string)
    (page : Page) :
  valid_range range ->
  pageMatches range teamName page = true <-> names_team teamName page.
Proof.
  intros Hrange. unfold pageMatches, names_team. rewrite existsb_exists. split.
  - intros [[key prop] [Hin Hmatch]]. exists key, prop.
    apply list_elem_of_In in Hin.
    apply (valid_range_lookup range _ key prop Hrange) in Hin.
    split; [exact Hin|]. apply propertyMatches_text. exact Hmatch.
  - intros (key & prop & Hlook & Htext). exists (key, prop). split.
    + apply list_elem_of_In. apply (valid_range_lookup range _ key prop Hrange).
      exact Hlook.
    + apply propertyMatches_text. exact Htext.
Qed.

Lemma searchPages_first_named (range : Range string Property) (teamName : string)
    (pages : list Page) :
  valid_range range ->
  first_named teamName pages (searchPages range teamName pages).
Proof.
  intros Hrange. induction pages as [|page rest IH]; cbn.
  - right. split; [constructor|reflexivity].
  - destruct (pageMatches range teamName page) eqn:Hm.
    + left. exists [], page, rest. repeat split; [constructor|].
      apply (pageMatches_names_team range teamName page Hrange). exact Hm.
    + assert (Hnot : ~ names_team teamName page).
      { intros Hn. apply (pageMatches_names_team range teamName page Hrange) in Hn.
        congruence. }
      destruct IH as [(before & p & after & -> & Hbefore & Hp & Hid)|[Hall Hid]].
      * left. exists (page :: before), p, after. repeat split; auto.
      * right. split; [constructor; assumption|exact Hid].
Qed.

(** The calls and the result of the loop over the candidate property
    names: a run of queries that yield nothing, then either a query that
    yields a first record, or the program that follows the loop. *)
Lemma run_tieredLookup {S : Type} (h : Store S) (app : App) (teamName : string)
    (props : list string) (otherwise : Prog (string + error)) (s : S) :
  exists misses : list QueryResult,
    Forall yields_nothing misses
    /\ let tiered :=
         zip_with (fun prop r => EvQuery (teamsDBID app) (teamFilter prop teamName) r)
           props misses in
       (exists prop page r s',
           props !! length misses = Some prop
           /\ yields_first r page
           /\ run h (tieredLookup app teamName props otherwise) s
              = (inl (ID page),
                 tiered ++ [EvQuery (teamsDBID app) (teamFilter prop teamName) r], s'))
       \/ (length misses = length props
           /\ exists sk,
               run h (tieredLookup app teamName props otherwise) s
               = ((run h otherwise sk).1.1, tiered ++ (run h otherwise sk).1.2,
                  (run h otherwise sk).2)).
Proof.
  revert s. induction props as [|prop rest IH]; intros s.
  - exists []. split; [constructor|]. right. split; [reflexivity|]. exists s.
    cbn. destruct (run h otherwise s) as [[res tr] s']. reflexivity.
  - pose (r := (Database_Query h (teamsDBID app) (teamFilter prop teamName) s).1).
    pose (s1 := (Database_Query h (teamsDBID app) (teamFilter prop teamName) s).2).
    destruct (firstResult r) as [page|] eqn:Hfirst.
    + exists []. split; [constructor|]. left. exists prop, page, r, s1.
      split; [reflexivity|]. split; [apply firstResult_Some; exact Hfirst|].
      cbn [tieredLookup]. rewrite run_bind, run_query. fold r s1. cbv beta iota.
      rewrite Hfirst. reflexivity.
    + destruct (IH s1) as (misses & Hmisses & Hcases).
      exists (r :: misses). split.
      { constructor; [apply firstResult_None; exact Hfirst|exact Hmisses]. }
      assert (Hstep : run h (tieredLookup app teamName (prop :: rest) otherwise) s
                      = let '(res, tr, s') :=
                          run h (tieredLookup app teamName rest otherwise) s1 in
                        (res, EvQuery (teamsDBID app) (teamFilter prop teamName) r :: tr, s')).
      { cbn [tieredLookup]. rewrite run_bind, run_query. fold r s1. cbv beta iota.
        rewrite Hfirst.
        destruct (run h (tieredLookup app teamName rest otherwise) s1) as [[res tr] s'].
        reflexivity. }
      cbn zeta in Hcases |- *.
      destruct Hcases as [(prop' & page & r' & s' & Hlook & Hyield & Hrun)
                         |[Hlen (sk & Hrun)]].
      * left. exists prop', page, r', s'. split; [exact Hlook|].
        split; [exact Hyield|].
        rewrite Hstep, Hrun. reflexivity.
      * right. split; [cbn; congruence|]. exists sk.
        rewrite Hstep, Hrun. reflexivity.
Qed.

Lemma run_fullScan {S : Type} (h : Store S) (app : App)
    (range : Range string Property) (teamName : string) (s : S) :
  run h (fullScan app range teamName) s
  = (match (Database_Query h (teamsDBID app) allTeams s).1 with
     | inr err => inr err
     | inl resp => inl (searchPages range teamName (Results resp))
     end,
     [EvQuery (teamsDBID app) allTeams (Database_Query h (teamsDBID app) allTeams s).1],
     (Database_Query h (teamsDBID app) allTeams s).2).
Proof.
  unfold fullScan. rewrite run_bind, run_query. cbv beta iota.
  destruct (Database_Query h (teamsDBID app) allTeams s).1 as [resp|err]; reflexivity.
Qed.

(** The two shapes of a run of [findTeamPage]. *)
Lemma run_findTeamPage {S : Type} (h : Store S) (app : App)
    (range : Range string Property) (teamName : string) (s : S) :
  exists misses : list QueryResult,
    Forall yields_nothing misses
    /\ let tiered :=
         zip_with (fun prop r => EvQuery (teamsDBID app) (teamFilter prop teamName) r)
           propertyNames misses in
       (exists prop page r s',
           propertyNames !! length misses = Some prop
           /\ yields_first r page
           /\ run h (findTeamPage app range teamName) s
              = (inl (ID page),
                 tiered ++ [EvQuery (teamsDBID app) (teamFilter prop teamName) r], s'))
       \/ (length misses = 4%nat
           /\ exists r s',
               run h (findTeamPage app range teamName) s
               = (match r with
                  | inr err => inr err
                  | inl resp => inl (searchPages range teamName (Results resp))
                  end,
                  tiered ++ [EvQuery (teamsDBID app) allTeams r], s')).
Proof.
  unfold findTeamPage.
  destruct (run_tieredLookup h app teamName propertyNames
              (fullScan app range teamName) s) as (misses & Hmisses & Hcases).
  exists misses. split; [exact Hmisses|]. cbn zeta in Hcases |- *.
  destruct Hcases as [Hhit|[Hlen (sk & Hrun)]]; [left; exact Hhit|].
  right. split; [exact Hlen|]. rewrite run_fullScan in Hrun. cbn [fst snd] in Hrun.
  eexists _, _. exact Hrun.
Qed.


(** C6. An error of a query of the tiered lookup never ends the resolution:
    the run goes on with another call. The resolution returns an error
    exactly when its last call is the unfiltered query and that query
    failed, and the error returned is that query's. When every call
    succeeded and none gave a record of the team, the result is the empty
    identifier with no error, which the caller reads as "not found". *)
Theorem findTeamPage_error_policy
    {S : Type} (h : Store S) (app : App) (range : Range string Property)
    (teamName : string) (s : S) :
  valid_range range ->
  let db := teamsDBID app in
  let result := (run h (findTeamPage app range teamName) s).1.1 in
  let calls := (run h (findTeamPage app range teamName) s).1.2 in
  (forall i filter req err,
      calls !! i = Some (EvQuery db req (inr err)) ->
      Filter req = Some filter ->
      is_Some (calls !! (i + 1)%nat))
  /\ (forall err,
        result = inr err
        <-> last calls = Some (EvQuery db {| Filter := None; PageSize := 100 |} (inr err)))
  /\ (Forall (no_match teamName) calls -> result = inl EmptyString).
Proof.
  intros Hrange db result calls.
  destruct (run_findTeamPage h app range teamName s) as (misses & Hmisses & Hcases).
  cbn zeta in Hcases.
  set (tiered := zip_with
         (fun prop r => EvQuery (teamsDBID app) (teamFilter prop teamName) r)
         propertyNames misses) in *.
  assert (Hshape : exists final,
             calls = tiered ++ [final]
             /\ ((exists prop page r, yields_first r page
                    /\ final = EvQuery db (teamFilter prop teamName) r
                    /\ result = inl (ID page))
                 \/ (exists r, final = EvQuery db allTeams r
                      /\ result = match r with
                                  | inr err => inr err
                                  | inl resp =>
                                      inl (searchPages range teamName (Results resp))
                                  end))).
  { destruct Hcases as [(prop & page & r & s' & _ & Hyield & Hrun)
                       |[_ (r & s' & Hrun)]]; subst result calls; rewrite Hrun.
    - eexists. split; [reflexivity|]. left. exists prop, page, r. auto.
    - eexists. split; [reflexivity|]. right. exists r. auto. }
  destruct Hshape as (final & Hcalls & Hfinal).
  split; [|split].
  - intros i filter req err Hi Hfilter. rewrite Hcalls in Hi |- *.
    destruct (decide (i < length tiered)%nat) as [Hlt|Hge].
    + apply lookup_lt_is_Some. rewrite length_app. cbn [length]. lia.
    + exfalso. rewrite lookup_app_r in Hi by lia.
      destruct (i - length tiered)%nat as [|n] eqn:Hn; [|destruct n; discriminate].
      cbn in Hi. injection Hi as Hi.
      destruct Hfinal as [(prop' & page & r & (resp & rest & -> & _) & -> & _)
                         |(r & -> & _)].
      * discriminate.
      * injection Hi as Hreq _. subst req. discriminate Hfilter.
  - intros err. rewrite Hcalls, last_snoc.
    destruct Hfinal as [(prop' & page & r & (resp & rest & -> & _) & -> & ->)
                       |(r & -> & ->)].
    + split; [discriminate|]. intros [= ].
    + destruct r as [resp|err']; split; intros Heq; inversion Heq; reflexivity.
  - intros Hall. rewrite Hcalls in Hall. apply Forall_app in Hall as [_ Hlast].
    apply Forall_cons in Hlast as [Hlast _].
    destruct Hfinal as [(prop' & page & r & (resp & rest & -> & Hres) & -> & _)
                       |(r & -> & ->)].
    + cbn in Hlast. congruence.
    + destruct r as [resp|err]; [|contradiction]. cbn in Hlast.
      destruct (searchPages_first_named range teamName (Results resp) Hrange)
        as [(before & page & after & Heq & _ & Hnames & _)|[_ ->]]; [|reflexivity].
      exfalso. rewrite Heq in Hlast. apply Forall_app in Hlast as [_ Hlast].
      apply Forall_cons in Hlast as [Hnot _]. exact (Hnot Hnames).
Qed.

(** Resolving a team nobody knows in the scenario: the filter on "Name"
    finds no record, the filters on the absent properties fail, the full
    scan finds no page of that name: not found, and no error. *)
Lemma findTeamPage_error_policy_witness :
  ~ (exists err,
        (run Rockets.store (findTeamPage Rockets.app map_to_list "Nobody") tt).1.1
        = inr err)
  /\ is_Some ((run Rockets.store (findTeamPage Rockets.app map_to_list "Nobody") tt).1.2
              !! 2%nat).
Proof.
  destruct (findTeamPage_error_policy Rockets.store Rockets.app map_to_list
              "Nobody" tt) as (Hswallow & Herr & _).
  - intros m. reflexivity.
  - split.
    + intros [err Hres]. apply Herr in Hres. vm_compute in Hres. discriminate.
    + apply (Hswallow 1%nat {| FilterProperty := "Team"; Condition := RichTextEquals "Nobody" |}
               (teamFilter "Team" "Nobody") "could not find property").
      * vm_compute. reflexivity.
      * reflexivity.
Defined.

(** ** Decimal text *)

Lemma digits_value_string_of_uint (d : Decimal.uint) (acc : Z) :
  Fmt.digits_value acc (NilEmpty.string_of_uint d) = uint_value acc d.
Proof.
  revert acc. induction d; intros acc; cbn [NilEmpty.string_of_uint Fmt.digits_value uint_value];
    [reflexivity|rewrite IHd; reflexivity..].
Qed.

Lemma uint_value_of_uint_acc (d : Decimal.uint) (acc : positive) :
  uint_value (Zpos acc) d = Zpos (Pos.of_uint_acc d acc).
Proof.
  revert acc. induction d; intros acc; cbn [uint_value Pos.of_uint_acc];
    [reflexivity|..];
    match goal with
    | |- uint_value ?a _ = Zpos (Pos.of_uint_acc _ ?p) =>
        replace a with (Zpos p) by lia; apply IHd
    end.
Qed.

Lemma uint_value_of_uint (d : Decimal.uint) :
  uint_value 0 d = Z.of_N (Pos.of_uint d).
Proof.
  induction d; cbn [uint_value Pos.of_uint]; [reflexivity|exact IHd|..];
    match goal with
    | |- uint_value ?a _ = Z.of_N (Npos (Pos.of_uint_acc _ ?p)) =>
        change a with (Zpos p); apply uint_value_of_uint_acc
    end.
Qed.

Lemma string_of_uint_digits_only (d : Decimal.uint) :
  Fmt.digits_only (NilEmpty.string_of_uint d) = true.
Proof. induction d; [reflexivity|exact IHd..]. Qed.

Lemma to_uint_not_nil (n : N) : N.to_uint n <> Decimal.Nil.
Proof.
  destruct n as [|p]; [discriminate|]. apply DecimalPos.Unsigned.to_uint_nonnil.
Qed.

Lemma decimal_string_of_uint (z : Z) :
  Fmt.decimal z = NilEmpty.string_of_uint (N.to_uint (Z.to_N z)).
Proof.
  unfold Fmt.decimal, NilZero.string_of_uint.
  pose proof (to_uint_not_nil (Z.to_N z)) as Hnil.
  destruct (N.to_uint (Z.to_N z)); [congruence|reflexivity..].
Qed.

(** The decimal digits of a natural number are digits only, at least one,
    and read back as the number. *)
Lemma decimal_digits_only (z : Z) : Fmt.digits_only (Fmt.decimal z) = true.
Proof. rewrite decimal_string_of_uint. apply string_of_uint_digits_only. Qed.

Lemma decimal_starts_with_digit (z : Z) : Fmt.starts_with_digit (Fmt.decimal z) = true.
Proof.
  rewrite decimal_string_of_uint.
  pose proof (to_uint_not_nil (Z.to_N z)) as Hnil.
  destruct (N.to_uint (Z.to_N z)); [congruence|reflexivity..].
Qed.

Lemma digits_value_decimal (z : Z) : 0 <= z -> Fmt.digits_value 0 (Fmt.decimal z) = z.
Proof.
  intros Hz. rewrite decimal_string_of_uint, digits_value_string_of_uint.
  rewrite uint_value_of_uint.
  change (Pos.of_uint (N.to_uint (Z.to_N z))) with (N.of_uint (N.to_uint (Z.to_N z))).
  rewrite DecimalN.Unsigned.of_to. lia.
Qed.

Lemma append_cons (c : ascii) (s t : string) : String c s +:+ t = String c (s +:+ t).
Proof. reflexivity. Qed.

Lemma append_empty_l (s : string) : EmptyString +:+ s = s.
Proof. reflexivity. Qed.

Lemma append_empty_r (s : string) : s +:+ EmptyString = s.
Proof. induction s as [|c s IH]; [reflexivity|]. rewrite append_cons, IH. reflexivity. Qed.

Lemma append_snoc (buf rest : string) (c : ascii) :
  (buf +:+ String c EmptyString) +:+ rest = buf +:+ String c rest.
Proof. induction buf as [|b buf IH]; [reflexivity|]. rewrite !append_cons, IH. reflexivity. Qed.

(** The loop over the digits takes a run of digits up to the first byte
    that is no digit. *)
Lemma accept_all_digits (digits suffix buf : string) :
  Fmt.digits_only digits = true ->
  Fmt.starts_with_digit suffix = false ->
  Fmt.accept_all Fmt.decimalDigits buf (digits +:+ suffix) = (buf +:+ digits, suffix).
Proof.
  revert buf. induction digits as [|c rest IH]; intros buf Hd Hs.
  - rewrite append_empty_r, append_empty_l.
    destruct suffix as [|c rest]; [reflexivity|].
    cbn [Fmt.accept_all]. cbn [Fmt.starts_with_digit] in Hs. rewrite Hs. reflexivity.
  - rewrite append_cons. cbn [Fmt.accept_all].
    unfold Fmt.digits_only in Hd. cbn [list_ascii_of_string forallb] in Hd.
    apply andb_true_iff in Hd as [Hc Hrest]. rewrite Hc.
    rewrite (IH _ Hrest Hs). rewrite append_snoc. reflexivity.
Qed.

(** A byte that is a decimal digit or a sign is no space and no newline. *)
Lemma SkipSpace_at_number (c : ascii) (rest : string) :
  Fmt.indexRune Fmt.decimalDigits c || Fmt.indexRune Fmt.sign c = true ->
  Fmt.SkipSpace (String c rest) = Some (String c rest).
Proof.
  intros Hc.
  destruct c as [[] [] [] [] [] [] [] []]; try discriminate Hc;
    destruct rest as [|b1 [|b2 s3]]; reflexivity.
Qed.

Lemma indexRune_digit_not_sign (c : ascii) :
  Fmt.indexRune Fmt.decimalDigits c = true -> Fmt.indexRune Fmt.sign c = false.
Proof.
  intros Hc. cbn in Hc |- *.
  destruct (Ascii.eqb_spec c "+") as [->|_]; [discriminate|].
  destruct (Ascii.eqb_spec c "-") as [->|_]; [discriminate|]. reflexivity.
Qed.

Lemma advance_append (literal input : string) :
  Fmt.advance literal (literal +:+ input) = Some input.
Proof.
  induction literal as [|c literal IH]; [reflexivity|].
  rewrite append_cons. cbn [Fmt.advance]. rewrite Ascii.eqb_refl. exact IH.
Qed.

Lemma decimal_cons (z : Z) :
  exists c rest, Fmt.decimal z = String c rest
                 /\ Fmt.indexRune Fmt.decimalDigits c = true.
Proof.
  pose proof (decimal_starts_with_digit z) as H.
  destruct (Fmt.decimal z) as [|c rest]; [discriminate|]. eauto.
Qed.

(** The verb [%d] reads the decimal text of any [int], and stops before
    the first byte that is no digit. *)
Lemma scanInt_int_text (n : Z) (suffix : string) :
  GoInt.in_range n = true ->
  Fmt.starts_with_digit suffix = false ->
  Fmt.scanInt (Fmt.int_text n +:+ suffix) = Some (n, suffix).
Proof.
  intros Hrange Hsuffix. unfold Fmt.int_text.
  destruct (Z.ltb_spec n 0) as [Hneg|Hpos].
  - rewrite append_cons. unfold Fmt.scanInt.
    rewrite SkipSpace_at_number by reflexivity.
    cbn [Fmt.accept fst snd Fmt.indexRune Fmt.sign Ascii.eqb Bool.eqb orb].
    cbn [fst snd].
    destruct (decimal_cons (- n)) as (c & rest & Hdec & Hc).
    rewrite Hdec at 1. rewrite append_cons. rewrite Hc.
    rewrite accept_all_digits by (auto using decimal_digits_only).
    rewrite append_empty_l. unfold Fmt.ParseInt.
    cbn [String.append Ascii.eqb Bool.eqb].
    change (String "-" EmptyString +:+ Fmt.decimal (- n))
      with (String "-" (Fmt.decimal (- n))).
    cbn [Ascii.eqb Bool.eqb]. cbn beta iota.
    rewrite digits_value_decimal by lia.
    replace (- - n) with n by lia. rewrite Hrange. reflexivity.
  - destruct (decimal_cons n) as (c & rest & Hdec & Hc).
    unfold Fmt.scanInt. rewrite Hdec, append_cons.
    rewrite SkipSpace_at_number by (rewrite Hc; reflexivity).
    unfold Fmt.accept. cbn [fst snd].
    rewrite (indexRune_digit_not_sign c Hc). cbn [fst snd]. rewrite Hc.
    rewrite <- append_cons, <- Hdec.
    rewrite accept_all_digits by (auto using decimal_digits_only).
    rewrite append_empty_l. unfold Fmt.ParseInt. rewrite Hdec.
    assert (Hsign := indexRune_digit_not_sign c Hc). cbn in Hsign.
    apply orb_false_iff in Hsign as [Hplus Hminus].
    apply orb_false_iff in Hminus as [Hminus _].
    rewrite Hminus, Hplus. rewrite <- Hdec.
    rewrite digits_value_decimal by lia. rewrite Hrange. reflexivity.
Qed.

Lemma int_text_cons (n : Z) :
  exists c rest, Fmt.int_text n = String c rest
                 /\ Fmt.indexRune Fmt.decimalDigits c || Fmt.indexRune Fmt.sign c = true.
Proof.
  unfold Fmt.int_text. destruct (n <? 0).
  - eexists _, _. split; reflexivity.
  - destruct (decimal_cons n) as (c & rest & -> & Hc). exists c, rest.
    split; [reflexivity|]. rewrite Hc. reflexivity.
Qed.

Lemma Sscanf_Challenge_d_int_text (n : Z) (suffix : string) :
  GoInt.in_range n = true ->
  Fmt.starts_with_digit suffix = false ->
  Fmt.Sscanf_Challenge_d ("Challenge" +:+ Fmt.int_text n +:+ suffix) = Some n.
Proof.
  intros Hrange Hsuffix. unfold Fmt.Sscanf_Challenge_d.
  rewrite advance_append.
  destruct (int_text_cons n) as (c & rest & Htext & Hc).
  rewrite Htext at 1. rewrite append_cons, SkipSpace_at_number by exact Hc.
  rewrite <- append_cons, <- Htext.
  rewrite scanInt_int_text by assumption. reflexivity.
Qed.

(** ** Sequence extraction *)

Lemma storeNumber_lookup (name : string) (page : Page) (n k : Z)
    (challenges : gmap Z string) :
  storeNumber name page n challenges !! k =
    match number_under name page with
    | Some v => if decide (n = k) then Some (Float64.Sprintf_0f v) else challenges !! k
    | None => challenges !! k
    end.
Proof.
  unfold storeNumber, number_under.
  destruct (PageProperties page !! name) as [[| |v| |]|]; try reflexivity.
  apply lookup_insert.
Qed.

(** The entry of the position after a fetched page was read: the number
    under "id" if there is one; else what the map held already; else the
    number under "ID". *)
Lemma readChallengeID_lookup (page : Page) (n : Z) (challenges : gmap Z string) :
  readChallengeID page n challenges !! n =
    match number_under "id" page with
    | Some v => Some (Float64.Sprintf_0f v)
    | None =>
        match challenges !! n with
        | Some text => Some text
        | None => option_map Float64.Sprintf_0f (number_under "ID" page)
        end
    end.
Proof.
  unfold readChallengeID.
  pose proof (storeNumber_lookup "id" page n n challenges) as Hid.
  destruct (number_under "id" page) as [v|] eqn:Hnum.
  - rewrite decide_True in Hid by reflexivity. rewrite Hid. exact Hid.
  - destruct (challenges !! n) as [text|] eqn:Hold; rewrite Hid.
    + exact Hid.
    + rewrite storeNumber_lookup.
      destruct (number_under "ID" page) as [v|]; cbn.
      * rewrite decide_True by reflexivity. reflexivity.
      * exact Hid.
Qed.

Lemma readChallengeID_lookup_ne (page : Page) (n k : Z) (challenges : gmap Z string) :
  n <> k -> readChallengeID page n challenges !! k = challenges !! k.
Proof.
  intros Hne. unfold readChallengeID.
  assert (Hstore : forall name m, storeNumber name page n m !! k = m !! k).
  { intros name m. rewrite storeNumber_lookup.
    destruct (number_under name page); [|reflexivity].
    rewrite decide_False by exact Hne. reflexivity. }
  destruct (storeNumber "id" page n challenges !! n); rewrite ?Hstore; reflexivity.
Qed.

Lemma run_visitProperty {S : Type} (h : Store S) (challenges : gmap Z string)
    (entry : string * Property) (s : S) :
  run h (visitProperty challenges entry) s =
    match challenge_link entry with
    | None => (challenges, [], s)
    | Some (n, target) =>
        (absorb n (Page_Get h target s).1 challenges,
         [EvGet target (Page_Get h target s).1], (Page_Get h target s).2)
    end.
Proof.
  unfold visitProperty, challenge_link.
  destruct (Fmt.Sscanf_Challenge_d entry.1) as [n|]; [|reflexivity].
  destruct entry.2 as [| | |[|relation rest]|]; try reflexivity.
  rewrite run_bind, run_get. cbv beta iota.
  destruct (Page_Get h (RelationID relation) s).1 as [page|err]; reflexivity.
Qed.

Lemma omap_cons {A B : Type} (f : A -> option B) (x : A) (l : list A) :
  omap f (x :: l) = match f x with Some y => y :: omap f l | None => omap f l end.
Proof. reflexivity. Qed.

Lemma run_visitProperties {S : Type} (h : Store S) (entries : list (string * Property))
    (challenges : gmap Z string) (s : S) :
  exists (answers : list GetResult) (s' : S),
    length answers = length (omap challenge_link entries)
    /\ run h (visitProperties entries challenges) s
       = (absorb_all (zip (omap challenge_link entries) answers) challenges,
          zip_with (fun link r => EvGet link.2 r) (omap challenge_link entries) answers,
          s').
Proof.
  revert challenges s. induction entries as [|entry rest IH]; intros challenges s.
  - exists [], s. split; reflexivity.
  - cbn [visitProperties]. rewrite run_bind, run_visitProperty, omap_cons.
    destruct (challenge_link entry) as [[n target]|].
    + cbv beta iota.
      destruct (IH (absorb n (Page_Get h target s).1 challenges)
                  (Page_Get h target s).2) as (answers & s' & Hlen & Hrun).
      exists ((Page_Get h target s).1 :: answers), s'. split; [cbn [length]; rewrite Hlen; reflexivity|].
      rewrite Hrun. reflexivity.
    + cbv beta iota. destruct (IH challenges s) as (answers & s' & Hlen & Hrun).
      exists answers, s'. split; [exact Hlen|]. rewrite Hrun. reflexivity.
Qed.

Lemma absorb_lookup_ne (n k : Z) (r : GetResult) (challenges : gmap Z string) :
  n <> k -> absorb n r challenges !! k = challenges !! k.
Proof.
  intros Hne. destruct r as [page|err]; [|reflexivity].
  apply readChallengeID_lookup_ne. exact Hne.
Qed.

(** The entry of a position after one answer was absorbed. *)
Lemma absorb_lookup (n : Z) (r : GetResult) (challenges : gmap Z string) :
  absorb n r challenges !! n = challenges !! n
  \/ exists page v, r = inl page /\ numeric_id page = Some v
                   /\ absorb n r challenges !! n = Some (Float64.Sprintf_0f v).
Proof.
  destruct r as [page|err]; [|left; reflexivity].
  cbn [absorb]. rewrite readChallengeID_lookup. unfold numeric_id.
  destruct (number_under "id" page) as [v|] eqn:Hid.
  - right. exists page, v. rewrite Hid. repeat split.
  - destruct (challenges !! n) as [text|]; [left; reflexivity|].
    destruct (number_under "ID" page) as [v|] eqn:HID; [|left; reflexivity].
    right. exists page, v. rewrite Hid, HID. repeat split.
Qed.

Lemma absorb_lookup_numbered (n : Z) (page : Page) (v : float64)
    (challenges : gmap Z string) :
  numeric_id page = Some v ->
  challenges !! n = None \/ challenges !! n = Some (Float64.Sprintf_0f v) ->
  absorb n (inl page) challenges !! n = Some (Float64.Sprintf_0f v).
Proof.
  intros Hid Hold. cbn [absorb]. rewrite readChallengeID_lookup.
  unfold numeric_id in Hid.
  destruct (number_under "id" page) as [w|]; [congruence|].
  destruct Hold as [->| ->]; [|reflexivity]. rewrite Hid. reflexivity.
Qed.

Lemma absorb_all_cons (fetch : (Z * PageID) * GetResult)
    (fetched : list ((Z * PageID) * GetResult)) (challenges : gmap Z string) :
  absorb_all (fetch :: fetched) challenges
  = absorb_all fetched (absorb fetch.1.1 fetch.2 challenges).
Proof. reflexivity. Qed.

(** Every entry of the result was in the map before or is the printed
    numeric identifier of a page fetched for its position. *)
Lemma absorb_all_sound (fetched : list ((Z * PageID) * GetResult))
    (challenges : gmap Z string) (n : Z) (text : string) :
  absorb_all fetched challenges !! n = Some text ->
  challenges !! n = Some text
  \/ exists target page v,
       ((n, target), inl page) ∈ fetched
       /\ numeric_id page = Some v /\ text = Float64.Sprintf_0f v.
Proof.
  revert challenges. induction fetched as [|[[k t] r] rest IH]; intros challenges Hlook.
  - left. exact Hlook.
  - rewrite absorb_all_cons in Hlook. cbn [fst snd] in Hlook.
    destruct (IH _ Hlook) as [Hhere|(target & page & v & Hin & Hid & Htext)].
    + destruct (decide (k = n)) as [->|Hne].
      * destruct (absorb_lookup n r challenges) as [Hsame|(page & v & -> & Hid & Hnew)].
        -- left. congruence.
        -- right. exists t, page, v. split; [left|]. split; [exact Hid|congruence].
      * left. rewrite absorb_lookup_ne in Hhere by exact Hne. exact Hhere.
    + right. exists target, page, v. split; [right; exact Hin|auto].
Qed.

Lemma absorb_all_keeps (fetched : list ((Z * PageID) * GetResult))
    (challenges : gmap Z string) (n : Z) :
  is_Some (challenges !! n) -> is_Some (absorb_all fetched challenges !! n).
Proof.
  revert challenges. induction fetched as [|[[k t] r] rest IH]; intros challenges Hsome.
  - exact Hsome.
  - rewrite absorb_all_cons. apply IH. cbn [fst snd].
    destruct (decide (k = n)) as [->|Hne].
    + destruct (absorb_lookup n r challenges) as [->|(page & v & _ & _ & ->)]; eauto.
    + rewrite absorb_lookup_ne by exact Hne. exact Hsome.
Qed.

(** A fetched page with a numeric identifier puts its position in the
    result. *)
Lemma absorb_all_present (fetched : list ((Z * PageID) * GetResult))
    (challenges : gmap Z string) (n : Z) (target : PageID) (page : Page) (v : float64) :
  ((n, target), inl page) ∈ fetched ->
  numeric_id page = Some v ->
  is_Some (absorb_all fetched challenges !! n).
Proof.
  revert challenges. induction fetched as [|fetch rest IH]; intros challenges Hin Hid.
  - inversion Hin.
  - rewrite absorb_all_cons. apply elem_of_cons in Hin as [<-|Hin].
    + apply absorb_all_keeps. cbn [fst snd absorb].
      rewrite readChallengeID_lookup. unfold numeric_id in Hid.
      destruct (number_under "id" page); [eauto|].
      destruct (challenges !! n); [eauto|]. rewrite Hid. cbn. eauto.
    + apply IH; assumption.
Qed.

(** When every page fetched for a position carries the numeric identifier
    [v], the position holds the text of [v]. *)
Lemma absorb_all_agree (fetched : list ((Z * PageID) * GetResult))
    (challenges : gmap Z string) (n : Z) (v : float64) :
  (forall target r, ((n, target), r) ∈ fetched ->
     exists page, r = inl page /\ numeric_id page = Some v) ->
  (challenges !! n = Some (Float64.Sprintf_0f v)
   \/ (challenges !! n = None /\ exists target r, ((n, target), r) ∈ fetched)) ->
  absorb_all fetched challenges !! n = Some (Float64.Sprintf_0f v).
Proof.
  revert challenges. induction fetched as [|[[k t] r] rest IH]; intros challenges Hall Hold.
  - destruct Hold as [Hold|[_ (target & r & Hin)]]; [exact Hold|inversion Hin].
  - rewrite absorb_all_cons. cbn [fst snd]. apply IH.
    + intros target r' Hin. apply (Hall target r'). right. exact Hin.
    + destruct (decide (k = n)) as [->|Hne].
      * left. destruct (Hall t r) as (page & -> & Hid); [left|].
        apply absorb_lookup_numbered; [exact Hid|]. destruct Hold as [Hold|[Hold _]]; auto.
      * rewrite absorb_lookup_ne by exact Hne.
        destruct Hold as [Hold|[Hold (target & r' & Hin)]]; [left; exact Hold|].
        right. split; [exact Hold|]. exists target, r'.
        apply elem_of_cons in Hin as [Heq|Hin]; [congruence|exact Hin].
Qed.

(** A position all of whose fetches failed, or gave a page without a
    numeric identifier, is not in the result. *)
Lemma absorb_all_absent (fetched : list ((Z * PageID) * GetResult))
    (challenges : gmap Z string) (n : Z) :
  challenges !! n = None ->
  (forall target r, ((n, target), r) ∈ fetched ->
     (exists err, r = inr err) \/ (exists page, r = inl page /\ numeric_id page = None)) ->
  absorb_all fetched challenges !! n = None.
Proof.
  revert challenges. induction fetched as [|[[k t] r] rest IH]; intros challenges Hold Hall.
  - exact Hold.
  - rewrite absorb_all_cons. cbn [fst snd]. apply IH.
    + destruct (decide (k = n)) as [->|Hne].
      * destruct (absorb_lookup n r challenges) as [->|(page & v & -> & Hid & _)];
          [exact Hold|].
        destruct (Hall t (inl page)) as [[err Herr]|(page' & Heq & Hnone)]; [left|..].
        -- discriminate.
        -- injection Heq as <-. congruence.
      * rewrite absorb_lookup_ne by exact Hne. exact Hold.
    + intros target r' Hin. apply (Hall target r'). right. exact Hin.
Qed.

Lemma run_getTeamChallenges {S : Type} (h : Store S) (range : Range string Property)
    (teamPageID : PageID) (s : S) :
  match (Page_Get h teamPageID s).1 with
  | inr err =>
      run h (getTeamChallenges range teamPageID) s
      = (inr err, [EvGet teamPageID (inr err)], (Page_Get h teamPageID s).2)
  | inl team =>
      exists (answers : list GetResult) (s' : S),
        length answers = length (omap challenge_link (range (PageProperties team)))
        /\ run h (getTeamChallenges range teamPageID) s
           = (inl (absorb_all
                     (zip (omap challenge_link (range (PageProperties team))) answers) ∅),
              EvGet teamPageID (inl team)
              :: zip_with (fun link r => EvGet link.2 r)
                   (omap challenge_link (range (PageProperties team))) answers,
              s')
  end.
Proof.
  unfold getTeamChallenges. rewrite run_bind, run_get. cbv beta iota.
  destruct (Page_Get h teamPageID s).1 as [team|err]; [|reflexivity].
  destruct (run_visitProperties h (range (PageProperties team)) ∅
              (Page_Get h teamPageID s).2) as (answers & s' & Hlen & Hrun).
  exists answers, s'. split; [exact Hlen|].
  rewrite run_bind, Hrun. cbv beta iota. rewrite run_ret. cbv beta iota.
  rewrite app_nil_r. reflexivity.
Qed.


Lemma number_under_None (name : string) (page : Page) :
  number_under name page = None
  <-> forall v, PageProperties page !! name <> Some (NumberProperty v).
Proof.
  unfold number_under.
  destruct (PageProperties page !! name) as [[| |w| |]|]; split;
    try discriminate; try congruence.
  intros H. exfalso. exact (H w eq_refl).
Qed.

Lemma storeNumber_None (name : string) (page : Page) (n : Z)
    (challenges : gmap Z string) :
  number_under name page = None -> storeNumber name page n challenges = challenges.
Proof.
  unfold storeNumber, number_under.
  destruct (PageProperties page !! name) as [[| |w| |]|]; try reflexivity.
  discriminate.
Qed.

Lemma storeNumber_Some (name : string) (page : Page) (n : Z) (v : float64)
    (challenges : gmap Z string) :
  number_under name page = Some v ->
  storeNumber name page n challenges = <[n := Float64.Sprintf_0f v]> challenges.
Proof.
  unfold storeNumber, number_under.
  destruct (PageProperties page !! name) as [[| |w| |]|]; try discriminate.
  intros [= ->]. reflexivity.
Qed.


(** C10. The scan of a property name accepts the text "Challenge", the
    decimal text of any [int], negative ones included, and then any rest
    that does not go on with a digit: so "Challenge2Bonus" scans as 2 and
    "Challenge-1" as -1. A relation property with such a name is fetched
    like any other and fills the position scanned from its name. *)
Theorem Sscanf_Challenge_d_accepts_sign_and_rest :
  (forall (n : Z) (rest : string),
      GoInt.in_range n = true ->
      Fmt.starts_with_digit rest = false ->
      Fmt.Sscanf_Challenge_d ("Challenge" +:+ Fmt.int_text n +:+ rest) = Some n)
  /\ Fmt.Sscanf_Challenge_d "Challenge2Bonus" = Some 2
  /\ Fmt.Sscanf_Challenge_d "Challenge-1" = Some (-1)
  /\ (forall (S : Type) (h : Store S) (s : S) (challenges : gmap Z string)
             (name : string) (n : Z) (relation : Relation) (others : list Relation),
        Fmt.Sscanf_Challenge_d name = Some n ->
        run h (visitProperty challenges (name, RelationProperty (relation :: others))) s
        = (absorb n (Page_Get h (RelationID relation) s).1 challenges,
           [EvGet (RelationID relation) (Page_Get h (RelationID relation) s).1],
           (Page_Get h (RelationID relation) s).2))
  /\ (run Oddities.store (getTeamChallenges map_to_list "team-2") tt).1.1
     = inl {[ 2 := "20"; -1 := "10"; 7 := "7" ]}.
Proof.
  split; [|split; [|split; [|split]]].
  - exact Sscanf_Challenge_d_int_text.
  - reflexivity.
  - reflexivity.
  - intros S h s challenges name n relation others Hscan.
    rewrite run_visitProperty. unfold challenge_link. cbn [fst snd].
    rewrite Hscan. reflexivity.
  - vm_compute. reflexivity.
Qed.

(** ** Integers as [float64] *)

Lemma iter_xO_Zpos (m d : positive) : Zpos (Pos.iter xO m d) = Zpos m * 2 ^ Zpos d.
Proof.
  induction d as [|d IH] using Pos.peano_ind.
  - cbn [Pos.iter]. lia.
  - rewrite Pos.iter_succ, Pos2Z.inj_succ, Z.pow_succ_r by lia.
    rewrite Pos2Z.inj_xO, IH. lia.
Qed.

Lemma iter_xO_digits (m d : positive) :
  Zpos (digits2_pos (Pos.iter xO m d)) = Zpos (digits2_pos m) + Zpos d.
Proof.
  induction d as [|d IH] using Pos.peano_ind.
  - cbn [Pos.iter digits2_pos]. lia.
  - rewrite Pos.iter_succ. cbn [digits2_pos]. rewrite Pos2Z.inj_succ, IH. lia.
Qed.

Lemma iter_pos_shr_1 (d m : positive) :
  SpecFloat.iter_pos shr_1 d {| shr_m := Zpos (Pos.iter xO m d); shr_r := false; shr_s := false |}
  = {| shr_m := Zpos m; shr_r := false; shr_s := false |}.
Proof.
  revert m. induction d as [d IH|d IH|]; intros m; cbn [SpecFloat.iter_pos Pos.iter].
  - cbn [shr_1 orb]. rewrite IH, IH. reflexivity.
  - rewrite IH, IH. reflexivity.
  - reflexivity.
Qed.

(** An integer that is exactly [m * 2^e] for a canonical pair [(m, e)] of
    [float64] rounds to that very number. *)
Lemma binary_round_exact (sx : bool) (m M : positive) (e : Z) :
  bounded Float64.prec Float64.emax m e = true ->
  (0 <= e /\ Zpos M = Zpos m * 2 ^ e) \/ (e < 0 /\ Zpos m = Zpos M * 2 ^ (- e)) ->
  binary_round Float64.prec Float64.emax sx M 0 = S754_finite sx m e.
Proof.
  intros Hbounded Hvalue. unfold bounded, canonical_mantissa in Hbounded.
  apply andb_true_iff in Hbounded as [Hcanon Hemax].
  apply Z.eqb_eq in Hcanon. apply Z.leb_le in Hemax.
  assert (Haux : binary_round_aux Float64.prec Float64.emax sx (Zpos m) e loc_Exact
                 = S754_finite sx m e).
  { unfold binary_round_aux, shr_fexp. cbn [Zdigits2 shr_record_of_loc].
    rewrite Hcanon, Z.sub_diag. cbn [shr loc_of_shr_record shr_m round_nearest_even].
    cbn [Zdigits2 shr_record_of_loc]. rewrite Hcanon, Z.sub_diag. cbn [shr shr_m].
    apply Z.leb_le in Hemax. rewrite Hemax. reflexivity. }
  unfold binary_round, shl_align. rewrite Z.add_0_r, Z.sub_0_r.
  destruct Hvalue as [[Hpos HM]|[Hneg Hm]].
  - destruct e as [|d|d]; [| |lia].
    + replace M with m by lia. rewrite Z.add_0_r in Hcanon. rewrite Hcanon.
      exact Haux.
    + assert (HMd : M = Pos.iter xO m d).
      { apply Pos2Z.inj. rewrite iter_xO_Zpos. exact HM. }
      subst M. rewrite iter_xO_digits, Hcanon.
      unfold binary_round_aux, shr_fexp. cbn [Zdigits2 shr_record_of_loc].
      rewrite iter_xO_digits, Z.add_0_r, Hcanon, Z.sub_0_r. cbn [shr].
      rewrite iter_pos_shr_1. cbn [loc_of_shr_record shr_m round_nearest_even].
      cbn [Zdigits2 shr_record_of_loc]. rewrite Z.add_0_l, Hcanon, Z.sub_diag.
      cbn [shr shr_m]. apply Z.leb_le in Hemax. rewrite Hemax. reflexivity.
  - destruct e as [|d|d]; [lia|lia|].
    assert (Hmd : m = Pos.iter xO M d).
    { apply Pos2Z.inj. rewrite iter_xO_Zpos. exact Hm. }
    assert (Hfexp : fexp Float64.prec Float64.emax (Zpos (digits2_pos M)) = Zneg d).
    { etransitivity; [|exact Hcanon]. f_equal. rewrite Hmd, iter_xO_digits. lia. }
    rewrite Hfexp. rewrite <- Hmd. exact Haux.
Qed.

(** ** Scanning the text of an integer as a [float64] *)

Ltac digit_cases c Hc :=
  destruct c as [[] [] [] [] [] [] [] []]; try discriminate Hc.

Lemma accept_miss (set buf : string) (c : ascii) (rest : string) :
  Fmt.indexRune set c = false ->
  Fmt.accept set (buf, String c rest) = (false, (buf, String c rest)).
Proof. intros Hc. unfold Fmt.accept. cbn [fst snd]. rewrite Hc. reflexivity. Qed.

Lemma accept_hit (set buf : string) (c : ascii) (rest : string) :
  Fmt.indexRune set c = true ->
  Fmt.accept set (buf, String c rest) = (true, (buf +:+ String c EmptyString, rest)).
Proof. intros Hc. unfold Fmt.accept. cbn [fst snd]. rewrite Hc. reflexivity. Qed.

Lemma accept_end (set buf : string) :
  Fmt.accept set (buf, EmptyString) = (false, (buf, EmptyString)).
Proof. reflexivity. Qed.

Lemma accept_all_run (set run buf : string) :
  forallb (Fmt.indexRune set) (list_ascii_of_string run) = true ->
  Fmt.accept_all set buf run = (buf +:+ run, EmptyString).
Proof.
  revert buf. induction run as [|c run IH]; intros buf Hrun.
  - rewrite append_empty_r. reflexivity.
  - cbn [list_ascii_of_string forallb] in Hrun. apply andb_true_iff in Hrun as [Hc Hrun].
    cbn [Fmt.accept_all]. rewrite Hc, IH by exact Hrun. rewrite append_snoc. reflexivity.
Qed.

Lemma digits_only_cons (c : ascii) (rest : string) :
  Fmt.digits_only (String c rest) = true <->
  Fmt.indexRune Fmt.decimalDigits c = true /\ Fmt.digits_only rest = true.
Proof. unfold Fmt.digits_only. cbn [list_ascii_of_string forallb]. apply andb_true_iff. Qed.

Lemma digits_only_float_digits (run : string) :
  Fmt.digits_only run = true ->
  forallb (Fmt.indexRune (Fmt.decimalDigits +:+ "_")) (list_ascii_of_string run) = true.
Proof.
  induction run as [|c run IH]; [reflexivity|].
  intros [Hc Hrun]%digits_only_cons. cbn [list_ascii_of_string forallb].
  rewrite IH by exact Hrun. digit_cases c Hc; reflexivity.
Qed.

(** A decimal digit is in none of the other classes of the scanner. *)
Lemma digit_not_float_syntax (c : ascii) (set : string) :
  Fmt.indexRune Fmt.decimalDigits c = true ->
  In set ["nN"; "iI"; Fmt.sign; "xX"; Fmt.period; Fmt.exponent] ->
  Fmt.indexRune set c = false.
Proof.
  intros Hc Hset. cbn [In] in Hset.
  repeat (destruct Hset as [<-|Hset]; [digit_cases c Hc; reflexivity|]).
  contradiction.
Qed.

Lemma floatToken_digits (c : ascii) (rest : string) :
  Fmt.indexRune Fmt.decimalDigits c = true ->
  Fmt.digits_only rest = true ->
  Float64.floatToken (String c rest) = (String c rest, EmptyString).
Proof.
  intros Hc Hrest. unfold Float64.floatToken.
  rewrite (accept_miss "nN") by (apply digit_not_float_syntax; cbn; auto).
  cbv beta iota zeta.
  rewrite (accept_miss Fmt.sign) by (apply digit_not_float_syntax; cbn; auto).
  rewrite (accept_miss "iI") by (apply digit_not_float_syntax; cbn; auto).
  cbv beta iota zeta.
  assert (Hfloat := digits_only_float_digits _ Hrest).
  destruct (Fmt.indexRune "0" c) eqn:Hzero.
  - rewrite (accept_hit "0") by exact Hzero.
    destruct rest as [|x rest'].
    + rewrite accept_end. cbv beta iota zeta. cbn [fst snd Fmt.accept_all].
      rewrite accept_end. cbv beta iota zeta. rewrite accept_end. reflexivity.
    + apply digits_only_cons in Hrest as [Hx Hrest'].
      rewrite (accept_miss "xX") by (apply digit_not_float_syntax; cbn; auto).
      cbv beta iota zeta. cbn [fst snd]. rewrite accept_all_run by exact Hfloat.
      rewrite accept_end. cbv beta iota zeta. rewrite accept_end. reflexivity.
  - rewrite (accept_miss "0") by exact Hzero. cbv beta iota zeta. cbn [fst snd].
    rewrite accept_all_run.
    + rewrite accept_end. cbv beta iota zeta. rewrite accept_end. reflexivity.
    + cbn [list_ascii_of_string forallb]. rewrite Hfloat, andb_true_r.
      digit_cases c Hc; reflexivity.
Qed.

Lemma floatToken_minus_digits (c : ascii) (rest : string) :
  Fmt.indexRune Fmt.decimalDigits c = true ->
  Fmt.digits_only rest = true ->
  Float64.floatToken (String "-" (String c rest)) = (String "-" (String c rest), EmptyString).
Proof.
  intros Hc Hrest. unfold Float64.floatToken.
  rewrite (accept_miss "nN") by reflexivity. cbv beta iota zeta.
  rewrite (accept_hit Fmt.sign) by reflexivity.
  rewrite (accept_miss "iI") by (apply digit_not_float_syntax; cbn; auto).
  cbv beta iota zeta.
  assert (Hfloat := digits_only_float_digits _ Hrest).
  destruct (Fmt.indexRune "0" c) eqn:Hzero.
  - rewrite (accept_hit "0") by exact Hzero.
    destruct rest as [|x rest'].
    + rewrite accept_end. cbv beta iota zeta. cbn [fst snd Fmt.accept_all].
      rewrite accept_end. cbv beta iota zeta. rewrite accept_end. reflexivity.
    + apply digits_only_cons in Hrest as [Hx Hrest'].
      rewrite (accept_miss "xX") by (apply digit_not_float_syntax; cbn; auto).
      cbv beta iota zeta. cbn [fst snd]. rewrite accept_all_run by exact Hfloat.
      rewrite accept_end. cbv beta iota zeta. rewrite accept_end. reflexivity.
  - rewrite (accept_miss "0") by exact Hzero. cbv beta iota zeta. cbn [fst snd].
    rewrite accept_all_run.
    + rewrite accept_end. cbv beta iota zeta. rewrite accept_end. reflexivity.
    + cbn [list_ascii_of_string forallb]. rewrite Hfloat, andb_true_r.
      digit_cases c Hc; reflexivity.
Qed.

Lemma floatToken_integer (s : bool) (c : ascii) (rest : string) :
  Fmt.indexRune Fmt.decimalDigits c = true ->
  Fmt.digits_only rest = true ->
  Float64.floatToken (Float64.sign_text s +:+ String c rest)
  = (Float64.sign_text s +:+ String c rest, EmptyString).
Proof.
  destruct s; [apply floatToken_minus_digits|apply floatToken_digits].
Qed.

Lemma split_at_digits (digits : string) :
  Fmt.digits_only digits = true -> Float64.split_at "p" digits = None.
Proof.
  induction digits as [|c digits IH]; [reflexivity|].
  intros [Hc Hdigits]%digits_only_cons. cbn [Float64.split_at].
  rewrite IH by exact Hdigits. digit_cases c Hc; reflexivity.
Qed.

Lemma convertFloat_integer (s : bool) (digits : string) :
  Fmt.digits_only digits = true ->
  Float64.convertFloat (Float64.sign_text s +:+ digits)
  = Float64.ParseFloat (Float64.sign_text s +:+ digits).
Proof.
  intros Hdigits. unfold Float64.convertFloat.
  destruct s; cbn [Float64.sign_text].
  - change ("-" +:+ digits) with (String "-" digits). cbn [Float64.split_at].
    change (Ascii.eqb "p" "-") with false. cbv iota.
    rewrite split_at_digits by exact Hdigits. reflexivity.
  - rewrite append_empty_l, split_at_digits by exact Hdigits. reflexivity.
Qed.

Lemma special_digits (c : ascii) (rest : string) :
  Fmt.indexRune Fmt.decimalDigits c = true ->
  Float64.special (String c rest) = None.
Proof. intros Hc. digit_cases c Hc; reflexivity. Qed.

Lemma special_minus_digits (c : ascii) (rest : string) :
  Fmt.indexRune Fmt.decimalDigits c = true ->
  Float64.special (String "-" (String c rest)) = None.
Proof. intros Hc. digit_cases c Hc; reflexivity. Qed.

(** The digit loop of [readFloat] on decimal digits: it reads them all; the
    mantissa is their value. Leading zeros leave the mantissa at zero. *)
Lemma read_digits_decimal (digits : string) (st : Float64.digits_state) :
  Fmt.digits_only digits = true ->
  0 <= Float64.nd st ->
  (Float64.nd st = 0 -> Float64.mantissa st = 0) ->
  exists st',
    Float64.read_digits false st digits = (st', EmptyString)
    /\ Float64.mantissa st' = Fmt.digits_value (Float64.mantissa st) digits
    /\ Float64.sawdot st' = Float64.sawdot st
    /\ Float64.underscores st' = Float64.underscores st
    /\ Float64.sawdigits st'
       = match digits with EmptyString => Float64.sawdigits st | _ => true end.
Proof.
  revert st. induction digits as [|c digits IH]; intros st Hdigits Hnd Hzero.
  - exists st. repeat split; reflexivity.
  - apply digits_only_cons in Hdigits as [Hc Hdigits].
    cbn [Float64.read_digits].
    assert (Hus : Ascii.eqb c "_" = false) by (digit_cases c Hc; reflexivity).
    assert (Hdot : Ascii.eqb c "." = false) by (digit_cases c Hc; reflexivity).
    assert (His : Float64.is_digit c = true) by (digit_cases c Hc; reflexivity).
    rewrite Hus, Hdot, His.
    assert (Hstep : forall st1 : Float64.digits_state,
               0 <= Float64.nd st1 ->
               (Float64.nd st1 = 0 -> Float64.mantissa st1 = 0) ->
               Float64.mantissa st1 = 10 * Float64.mantissa st + Fmt.digit_value c ->
               Float64.sawdot st1 = Float64.sawdot st ->
               Float64.underscores st1 = Float64.underscores st ->
               exists st',
                 Float64.read_digits false st1 digits = (st', EmptyString)
                 /\ Float64.mantissa st'
                    = Fmt.digits_value (Float64.mantissa st) (String c digits)
                 /\ Float64.sawdot st' = Float64.sawdot st
                 /\ Float64.underscores st' = Float64.underscores st
                 /\ (Float64.sawdigits st1 = true -> Float64.sawdigits st' = true)).
    { intros st1 Hnd1 Hzero1 Hm1 Hsd1 Hu1.
      destruct (IH st1 Hdigits Hnd1 Hzero1) as (st' & Hrun & Hm & Hsd & Hu & Hdg).
      exists st'. cbn [Fmt.digits_value]. rewrite Hm, Hsd, Hu, Hm1, Hsd1, Hu1.
      repeat split; [exact Hrun|]. intros Hsaw. rewrite Hdg.
      destruct digits; [exact Hsaw|reflexivity]. }
    assert (Hvalue : Float64.mantissa st * 10 + (Utf8.code c - 48)
                     = 10 * Float64.mantissa st + Fmt.digit_value c)
      by (unfold Fmt.digit_value; lia).
    destruct (Ascii.eqb_spec c "0") as [->|Hc0]; cbn [andb];
      [destruct (Z.eqb_spec (Float64.nd st) 0) as [Hnd0|Hnd0]|];
      match goal with
      | |- context [Float64.read_digits false ?a digits] =>
          destruct (Hstep a) as (st' & Hrun & Hm & Hsd & Hu & Hdg)
      end;
      cbn [Float64.nd Float64.mantissa Float64.sawdot Float64.underscores
           Float64.sawdigits] in *;
      try reflexivity; try lia; try assumption.
    + rewrite (Hzero Hnd0). reflexivity.
    + exists st'. repeat split; auto.
    + exists st'. repeat split; auto.
    + exists st'. repeat split; auto.
Qed.

Lemma readFloat_integer (s : bool) (c : ascii) (rest : string) :
  Fmt.indexRune Fmt.decimalDigits c = true ->
  Fmt.digits_only rest = true ->
  Float64.readFloat (Float64.sign_text s +:+ String c rest)
  = Some (Fmt.digits_value 0 (String c rest), 0, s, false).
Proof.
  intros Hc Hrest.
  assert (Hdigits : Fmt.digits_only (String c rest) = true)
    by (apply digits_only_cons; split; assumption).
  destruct (read_digits_decimal (String c rest)
              {| Float64.mantissa := 0; Float64.nd := 0; Float64.dp := 0;
                 Float64.sawdot := false; Float64.sawdigits := false;
                 Float64.underscores := false |} Hdigits)
    as (st' & Hrun & Hm & Hsd & Hu & Hdg); [reflexivity|reflexivity|].
  cbn [Float64.mantissa Float64.sawdot Float64.underscores Float64.sawdigits] in Hm, Hsd, Hu, Hdg.
  assert (Hsign : Ascii.eqb c "+" || Ascii.eqb c "-" = false)
    by (digit_cases c Hc; reflexivity).
  apply orb_false_iff in Hsign as [Hplus Hminus].
  unfold Float64.readFloat. destruct s; cbn [Float64.sign_text].
  - change ("-" +:+ String c rest) with (String "-" (String c rest)).
    cbv beta iota zeta. change (Ascii.eqb "-" "-") with true.
    change (Ascii.eqb "-" "+") with false. cbn [orb].
    destruct rest as [|x [|y r]].
    + rewrite Hrun, Hdg, Hsd, Hu, Hm. cbn [negb andb].
      rewrite Z.sub_diag. destruct (_ =? 0); reflexivity.
    + rewrite Hrun, Hdg, Hsd, Hu, Hm. cbn [negb andb].
      rewrite Z.sub_diag. destruct (_ =? 0); reflexivity.
    + apply digits_only_cons in Hrest as [Hx _].
      replace (Float64.lower x =? 120) with false by (digit_cases x Hx; reflexivity).
      rewrite andb_false_r.
      rewrite Hrun, Hdg, Hsd, Hu, Hm. cbn [negb andb].
      rewrite Z.sub_diag. destruct (_ =? 0); reflexivity.
  - rewrite append_empty_l. cbv beta iota zeta. rewrite Hplus, Hminus. cbn [orb].
    destruct rest as [|x [|y r]].
    + rewrite Hrun, Hdg, Hsd, Hu, Hm. cbn [negb andb].
      rewrite Z.sub_diag. destruct (_ =? 0); reflexivity.
    + rewrite Hrun, Hdg, Hsd, Hu, Hm. cbn [negb andb].
      rewrite Z.sub_diag. destruct (_ =? 0); reflexivity.
    + apply digits_only_cons in Hrest as [Hx _].
      replace (Float64.lower x =? 120) with false by (digit_cases x Hx; reflexivity).
      rewrite andb_false_r.
      rewrite Hrun, Hdg, Hsd, Hu, Hm. cbn [negb andb].
      rewrite Z.sub_diag. destruct (_ =? 0); reflexivity.
Qed.

Lemma Sscanf_f_integer (s : bool) (z : Z) :
  0 <= z ->
  Float64.Sscanf_f (Float64.sign_text s +:+ Fmt.decimal z)
  = Float64.in_float_range (Float64.round_decimal s z 0).
Proof.
  intros Hz. destruct (decimal_cons z) as (c & rest & Htext & Hc).
  pose proof (decimal_digits_only z) as Hdigits. pose proof (digits_value_decimal z Hz) as Hvalue.
  rewrite Htext in Hdigits, Hvalue |- *.
  pose proof Hdigits as [_ Hrest]%digits_only_cons.
  assert (Hskip : Fmt.SkipSpace (Float64.sign_text s +:+ String c rest)
                  = Some (Float64.sign_text s +:+ String c rest)).
  { destruct s; cbn [Float64.sign_text].
    - apply SkipSpace_at_number. reflexivity.
    - rewrite append_empty_l. apply SkipSpace_at_number. rewrite Hc. reflexivity. }
  unfold Float64.Sscanf_f. rewrite Hskip, Hskip.
  rewrite floatToken_integer by assumption. cbn [fst].
  rewrite convertFloat_integer by exact Hdigits.
  assert (Htoken : exists b tail, Float64.sign_text s +:+ String c rest = String b tail)
    by (destruct s; eexists _, _; reflexivity).
  destruct Htoken as (b & tail & Htoken).
  replace (match Float64.sign_text s +:+ String c rest with
           | EmptyString => None
           | String _ _ => Float64.ParseFloat (Float64.sign_text s +:+ String c rest)
           end) with (Float64.ParseFloat (Float64.sign_text s +:+ String c rest))
    by (rewrite Htoken; reflexivity).
  unfold Float64.ParseFloat. rewrite readFloat_integer by assumption.
  rewrite Hvalue.
  destruct s; cbn [Float64.sign_text].
  - change ("-" +:+ String c rest) with (String "-" (String c rest)).
    rewrite special_minus_digits by exact Hc. reflexivity.
  - rewrite append_empty_l, special_digits by exact Hc. reflexivity.
Qed.

Lemma round_decimal_exact (s : bool) (m : positive) (e z : Z) :
  bounded Float64.prec Float64.emax m e = true ->
  (0 <= e /\ z = Zpos m * 2 ^ e) \/ (e < 0 /\ Zpos m = z * 2 ^ (- e)) ->
  Float64.round_decimal s z 0 = S754_finite s m e.
Proof.
  intros Hbounded Hvalue. unfold Float64.round_decimal.
  assert (Hpos : 0 < z).
  { destruct Hvalue as [[He ->]|[He Hm]].
    - pose proof (Z.pow_pos_nonneg 2 e). lia.
    - pose proof (Z.pow_pos_nonneg 2 (- e)). nia. }
  destruct z as [|M|M]; [lia| |lia].
  cbn [Z.eqb Z.leb Z.compare]. rewrite Z.pow_0_r, Z.mul_1_r.
  destruct s; cbn [Z.opp binary_normalize]; apply binary_round_exact; assumption.
Qed.

Lemma round_half_even_exact (m k : Z) :
  0 <= k -> m mod 2 ^ k = 0 -> Float64.round_half_even m k = m / 2 ^ k.
Proof.
  intros Hk Hmod. unfold Float64.round_half_even. rewrite Hmod.
  pose proof (Z.pow_pos_nonneg 2 k).
  destruct (Z.compare_spec (2 * 0) (2 ^ k)); [lia|reflexivity|lia].
Qed.

(** C7. Round trip of the identifier. A [float64] that stands for an
    integer [z] is printed by [%.0f] as a minus sign, when its sign bit is
    set, and the decimal digits of the magnitude of [z], with no point and
    no exponent. That is the decimal text of [z] for every such number but
    the negative zero, whose text is [-0]. In every case, the negative zero
    included, [parseFloat] reads the text back as the same [float64], with
    no error. *)
Theorem parseFloat_Sprintf_0f_round_trip (f : float64) (z : Z) :
  Float64.valid f = true ->
  integer_value f = Some z ->
  Float64.Sprintf_0f f = Float64.sign_text (signbit f) +:+ Fmt.decimal (Z.abs z)
  /\ (Float64.Sprintf_0f f = Fmt.int_text z <-> f <> S754_zero true)
  /\ parseFloat (Float64.Sprintf_0f f) = (f, false).
Proof.
  intros Hvalid Hinteger. unfold parseFloat.
  destruct f as [s|s| |s m e]; try discriminate Hinteger.
  - injection Hinteger as <-. cbn [Float64.Sprintf_0f signbit Z.abs].
    change (Fmt.decimal 0) with "0". split; [reflexivity|]. split.
    + destruct s; split; try congruence; try reflexivity. discriminate.
    + change "0" with (Fmt.decimal 0). rewrite Sscanf_f_integer by lia. reflexivity.
  - unfold Float64.valid in Hvalid. cbn [valid_binary] in Hvalid.
    cbn [integer_value] in Hinteger. cbn [Float64.Sprintf_0f signbit].
    assert (Hmagnitude : exists v,
               z = (if s then - v else v)
               /\ Float64.rounded_magnitude m e = v
               /\ ((0 <= e /\ v = Zpos m * 2 ^ e) \/ (e < 0 /\ Zpos m = v * 2 ^ (- e)))).
    { unfold Float64.rounded_magnitude. destruct (Z.leb_spec 0 e) as [He|He].
      - injection Hinteger as <-. eexists. split; [reflexivity|]. split; [reflexivity|].
        left. split; [exact He|reflexivity].
      - destruct (Z.eqb_spec (Zpos m mod 2 ^ (- e)) 0) as [Hmod|Hmod];
          [|discriminate Hinteger].
        injection Hinteger as <-. eexists. split; [reflexivity|].
        split; [apply round_half_even_exact; [lia|exact Hmod]|].
        right. split; [exact He|]. pose proof (Z.pow_pos_nonneg 2 (- e)).
        rewrite (Z.div_mod (Zpos m) (2 ^ (- e))) at 1 by lia. rewrite Hmod. lia. }
    destruct Hmagnitude as (v & Hz & -> & Hv).
    assert (Hpos : 0 < v).
    { destruct Hv as [[He ->]|[He Hm]].
      - pose proof (Z.pow_pos_nonneg 2 e). lia.
      - pose proof (Z.pow_pos_nonneg 2 (- e)). nia. }
    assert (Habs : Z.abs z = v) by (destruct s; lia).
    rewrite Habs. split; [reflexivity|]. split.
    + split; [discriminate|]. intros _. unfold Fmt.int_text. subst z. destruct s.
      * replace (- v <? 0) with true by lia. rewrite Z.opp_involutive. reflexivity.
      * replace (v <? 0) with false by lia. reflexivity.
    + rewrite Sscanf_f_integer by lia.
      rewrite (round_decimal_exact s m e v Hvalid Hv). reflexivity.
Qed.

Lemma parseFloat_Sprintf_0f_round_trip_witness :
  Float64.Sprintf_0f (Rockets.number 7) = "7"
  /\ parseFloat "7" = (Rockets.number 7, false).
Proof.
  destruct (parseFloat_Sprintf_0f_round_trip (Rockets.number 7) 7) as (Htext & _ & Hparse);
    [reflexivity|reflexivity|].
  split; [exact Htext|]. rewrite Htext in Hparse. exact Hparse.
Defined.

(** The negative zero is the number a decoder reads from the text [-0]; it
    stands for the integer [0], whose decimal text is [0], and [%.0f]
    prints it as [-0]. *)
Lemma Sprintf_0f_negative_zero :
  Float64.ParseFloat "-0" = Some (S754_zero true)
  /\ Float64.valid (S754_zero true) = true
  /\ integer_value (S754_zero true) = Some 0
  /\ Fmt.int_text 0 = "0"
  /\ Float64.Sprintf_0f (S754_zero true) = "-0".
Proof. repeat split. Qed.

(** The round trip on numbers at the ends of the range: the largest
    [float64], whose text has 309 digits, and a number above [2^53]. *)
Example round_trip_largest :
  parseFloat (Float64.Sprintf_0f (S754_finite false 9007199254740991 971))
  = (S754_finite false 9007199254740991 971, false).
Proof. vm_compute. reflexivity. Qed.

Example round_trip_1e23 :
  Float64.Sprintf_0f (S754_finite true 5960464477539062 24) = "-99999999999999991611392"
  /\ parseFloat "-99999999999999991611392" = (S754_finite true 5960464477539062 24, false).
Proof. split; vm_compute; reflexivity. Qed.

(** ** The order of strings and [sort.Strings] *)

Lemma string_le_cons (c1 c2 : ascii) (s1 s2 : string) :
  string_le (String c1 s1) (String c2 s2)
  <-> (N_of_ascii c1 < N_of_ascii c2)%N \/ (c1 = c2 /\ string_le s1 s2).
Proof.
  unfold string_le, String.leb. cbn [String.compare]. unfold Ascii.compare.
  destruct (N.compare_spec (N_of_ascii c1) (N_of_ascii c2)) as [Heq|Hlt|Hgt].
  - assert (c1 = c2) by (rewrite <- (ascii_N_embedding c1), Heq; apply ascii_N_embedding).
    split; [intros H'; right; split; assumption|].
    intros [Hlt|[_ H']]; [lia|exact H'].
  - split; [intros _; left; exact Hlt|reflexivity].
  - split; [discriminate|]. intros [Hlt|[-> _]]; lia.
Qed.

Lemma string_le_nil_l (s : string) : string_le EmptyString s.
Proof. destruct s; reflexivity. Qed.

Lemma string_le_nil_r (c : ascii) (s : string) : ~ string_le (String c s) EmptyString.
Proof. discriminate. Qed.

Lemma string_le_trans : Transitive string_le.
Proof.
  intros a. induction a as [|c1 a IH]; intros b c Hab Hbc; [apply string_le_nil_l|].
  destruct b as [|c2 b]; [destruct (string_le_nil_r _ _ Hab)|].
  destruct c as [|c3 c]; [destruct (string_le_nil_r _ _ Hbc)|].
  apply string_le_cons in Hab, Hbc. apply string_le_cons.
  destruct Hab as [Hab|[-> Hab]], Hbc as [Hbc|[-> Hbc]]; eauto; left; lia.
Qed.

Lemma string_le_total : Total string_le.
Proof. intros a b. apply String.leb_total. Qed.

Lemma string_le_antisym : AntiSymm eq string_le.
Proof. intros a b. apply String.leb_antisym. Qed.

Lemma sort_Strings_sorted (x : list string) : StronglySorted string_le (sort_Strings x).
Proof.
  apply (@StronglySorted_merge_sort _ string_le _ string_le_trans string_le_total).
Qed.

Lemma sort_Strings_Permutation (x : list string) : sort_Strings x ≡ₚ x.
Proof. apply merge_sort_Permutation. Qed.

(** The increasing arrangement of a list of strings is unique. *)
Lemma sort_Strings_unique (x sorted : list string) :
  StronglySorted string_le sorted -> sorted ≡ₚ x -> sorted = sort_Strings x.
Proof.
  intros Hsorted Hperm.
  apply (@StronglySorted_unique _ string_le string_le_antisym);
    [exact Hsorted|apply sort_Strings_sorted|].
  rewrite Hperm. symmetry. apply sort_Strings_Permutation.
Qed.

Lemma sort_Strings_proper (x y : list string) : x ≡ₚ y -> sort_Strings x = sort_Strings y.
Proof.
  intros Hperm. apply sort_Strings_unique; [apply sort_Strings_sorted|].
  rewrite sort_Strings_Permutation. exact Hperm.
Qed.

(** ** [getAllTeamNames] *)

Lemma collectTeamNames_omap (range : Range string Property) (pages : list Page)
    (teamNames : list string) :
  collectTeamNames range pages teamNames
  = teamNames ++ omap (page_title range) pages.
Proof.
  revert teamNames. induction pages as [|page pages IH]; intros teamNames.
  - cbn. rewrite app_nil_r. reflexivity.
  - cbn [collectTeamNames omap list_omap]. rewrite IH. unfold page_title at 2.
    destruct (firstTitle _); [rewrite <- app_assoc|]; reflexivity.
Qed.

Lemma listTeamNames_titles (range : Range string Property) (pages : list Page) :
  listTeamNames range pages
  = match omap (page_title range) pages with
    | [] => inr "keine Teams in der Datenbank gefunden"
    | titles => inl (sort_Strings titles)
    end.
Proof.
  unfold listTeamNames. rewrite collectTeamNames_omap, app_nil_l.
  destruct (omap _ pages); reflexivity.
Qed.

Lemma firstTitle_Some (entries : list (string * Property)) (name : string) :
  firstTitle entries = Some name ->
  exists key prop, (key, prop) ∈ entries /\ titleText prop = Some name.
Proof.
  induction entries as [|[key prop] entries IH]; [discriminate|].
  cbn [firstTitle snd]. destruct (titleText prop) as [text|] eqn:Htext.
  - intros [= <-]. exists key, prop. split; [left|exact Htext].
  - intros Hrest. destruct (IH Hrest) as (key' & prop' & Hin & Hname).
    exists key', prop'. split; [right; exact Hin|exact Hname].
Qed.

Lemma firstTitle_None (entries : list (string * Property)) :
  firstTitle entries = None <->
  forall key prop, (key, prop) ∈ entries -> titleText prop = None.
Proof.
  induction entries as [|[key prop] entries IH].
  - split; [intros _ key prop Hin; inversion Hin|reflexivity].
  - cbn [firstTitle snd]. destruct (titleText prop) as [text|] eqn:Htext.
    + split; [discriminate|]. intros Hall.
      rewrite (Hall key prop) in Htext by left. discriminate.
    + rewrite IH. split.
      * intros Hall key' prop' [[= -> ->]|Hin]%elem_of_cons; [exact Htext|eauto].
      * intros Hall key' prop' Hin. apply (Hall key' prop'). right. exact Hin.
Qed.

Lemma page_title_Some (range : Range string Property) (page : Page) (name : string) :
  valid_range range ->
  page_title range page = Some name -> has_title page name.
Proof.
  intros Hrange Htitle. destruct (firstTitle_Some _ _ Htitle) as (key & prop & Hin & Hname).
  exists key, prop. split; [|exact Hname].
  apply (valid_range_lookup range _ key prop Hrange). exact Hin.
Qed.

Lemma page_title_None (range : Range string Property) (page : Page) :
  valid_range range ->
  page_title range page = None <-> forall name, ~ has_title page name.
Proof.
  intros Hrange. unfold page_title. rewrite firstTitle_None. split.
  - intros Hall name (key & prop & Hlook & Hname).
    apply (valid_range_lookup range _ key prop Hrange) in Hlook.
    rewrite (Hall key prop Hlook) in Hname. discriminate.
  - intros Hnone key prop Hin. destruct (titleText prop) as [name|] eqn:Hname; [|reflexivity].
    exfalso. apply (Hnone name). exists key, prop. split; [|exact Hname].
    apply (valid_range_lookup range _ key prop Hrange). exact Hin.
Qed.

Lemma run_getAllTeamNames {S : Type} (h : Store S) (app : App)
    (range : Range string Property) (s : S) :
  let request := {| Filter := None; PageSize := 100 |} in
  let answer := Database_Query h (teamsDBID app) request s in
  run h (getAllTeamNames app range) s
  = (match answer.1 with
     | inr err => inr ("fehler beim Abfragen der Team-Datenbank: " +:+ err)
     | inl resp => listTeamNames range (Results resp)
     end,
     [EvQuery (teamsDBID app) request answer.1], answer.2).
Proof.
  intros request answer. unfold getAllTeamNames.
  rewrite run_bind, run_query. fold request. fold answer.
  destruct answer as [[resp|err] s1]; cbn; reflexivity.
Qed.

(** X1. [getAllTeamNames] returns a list exactly when its query succeeded
    and some page of the answer has a title: the list is then not empty, it
    is in increasing byte order, and it holds, with repetitions, the title
    read from every page that has one (pages without a title are passed
    over). The title read from a page is the first segment of one of its
    title properties. *)
Theorem getAllTeamNames_sorted_titles
    {S : Type} (h : Store S) (app : App) (range : Range string Property) (s : S) :
  valid_range range ->
  let request := {| Filter := None; PageSize := 100 |} in
  let answer := (Database_Query h (teamsDBID app) request s).1 in
  let result := (run h (getAllTeamNames app range) s).1.1 in
  (forall names,
      result = inl names
      <-> exists resp,
            answer = inl resp
            /\ names <> []
            /\ StronglySorted string_le names
            /\ names ≡ₚ omap (page_title range) (Results resp))
  /\ (forall page,
        match page_title range page with
        | Some name => has_title page name
        | None => forall name, ~ has_title page name
        end).
Proof.
  intros Hrange request answer result. split.
  - intros names. subst result. rewrite run_getAllTeamNames. cbn [fst].
    fold request. fold answer. destruct answer as [resp|err].
    + rewrite listTeamNames_titles.
      destruct (omap (page_title range) (Results resp)) as [|title titles] eqn:Htitles.
      * split; [discriminate|]. intros (resp' & [= <-] & Hne & _ & Hperm).
        rewrite Htitles in Hperm. apply Permutation_nil_r in Hperm. contradiction.
      * split.
        -- intros [= <-]. exists resp. split; [reflexivity|].
           pose proof (sort_Strings_Permutation (title :: titles)) as Hperm.
           split; [|split; [apply sort_Strings_sorted|rewrite Htitles; exact Hperm]].
           intros Hnil. rewrite Hnil in Hperm. apply Permutation_nil_l in Hperm.
           discriminate.
        -- intros (resp' & [= <-] & _ & Hsorted & Hperm). f_equal.
           rewrite Htitles in Hperm. symmetry. apply sort_Strings_unique; assumption.
    + split; [discriminate|]. intros (resp & Hresp & _). discriminate.
  - intros page. destruct (page_title range page) as [name|] eqn:Htitle.
    + apply (page_title_Some range page name Hrange Htitle).
    + apply (page_title_None range page Hrange). exact Htitle.
Qed.

Lemma getAllTeamNames_sorted_titles_witness :
  (run League.store (getAllTeamNames League.app map_to_list) tt).1.1
  = inl ["Comets"; "Zebras"; "rockets"].
Proof.
  destruct (getAllTeamNames_sorted_titles League.store League.app map_to_list tt)
    as [Hlist _]; [intros m; reflexivity|].
  apply Hlist. exists {| Results := League.teams |}.
  split; [reflexivity|]. split; [discriminate|]. split.
  - repeat constructor.
  - apply (bool_decide_unpack _). vm_compute. exact I.
Defined.

(** X2. [getAllTeamNames] makes one call in every case, the unfiltered
    query of page size 100 on the team database. An error of that query
    comes back with the text "fehler beim Abfragen der Team-Datenbank: "
    before its own; a successful answer none of whose pages has a title (an
    empty answer among them) is the error "keine Teams in der Datenbank
    gefunden", and only such an answer gives that error. *)
Theorem getAllTeamNames_errors
    {S : Type} (h : Store S) (app : App) (range : Range string Property) (s : S) :
  valid_range range ->
  let request := {| Filter := None; PageSize := 100 |} in
  let answer := (Database_Query h (teamsDBID app) request s).1 in
  let outcome := run h (getAllTeamNames app range) s in
  outcome.1.2 = [EvQuery (teamsDBID app) request answer]
  /\ outcome.2 = (Database_Query h (teamsDBID app) request s).2
  /\ (forall err,
        answer = inr err ->
        outcome.1.1 = inr ("fehler beim Abfragen der Team-Datenbank: " +:+ err))
  /\ (forall resp,
        answer = inl resp ->
        Forall (fun page => forall name, ~ has_title page name) (Results resp)
        <-> outcome.1.1 = inr "keine Teams in der Datenbank gefunden").
Proof.
  intros Hrange request answer outcome. subst outcome.
  rewrite run_getAllTeamNames. cbn [fst snd]. fold request. fold answer.
  split; [reflexivity|]. split; [reflexivity|]. split.
  - intros err ->. reflexivity.
  - intros resp ->. rewrite listTeamNames_titles.
    assert (Hnil : omap (page_title range) (Results resp) = []
                   <-> Forall (fun page => forall name, ~ has_title page name)
                         (Results resp)).
    { induction (Results resp) as [|page pages IH].
      - split; [constructor|reflexivity].
      - cbn [omap list_omap]. rewrite Forall_cons, <- IH.
        rewrite <- (page_title_None range page Hrange).
        destruct (page_title range page); split.
        + discriminate.
        + intros [[=] _].
        + intros Hrest. split; [reflexivity|exact Hrest].
        + intros [_ Hrest]. exact Hrest. }
    rewrite <- Hnil. destruct (omap _ _); split; try reflexivity; discriminate.
Qed.

Lemma getAllTeamNames_errors_witness :
  (run League.offline (getAllTeamNames League.app map_to_list) tt).1.1
  = inr "fehler beim Abfragen der Team-Datenbank: service unavailable".
Proof.
  destruct (getAllTeamNames_errors League.offline League.app map_to_list tt)
    as (_ & _ & Herr & _); [intros m; reflexivity|].
  apply (Herr "service unavailable"). reflexivity.
Defined.

Lemma page_title_single (range1 range2 : Range string Property) (page : Page) :
  valid_range range1 -> valid_range range2 -> single_title page ->
  page_title range1 page = page_title range2 page.
Proof.
  intros Hr1 Hr2 Hsingle.
  destruct (page_title range1 page) as [name1|] eqn:H1;
    destruct (page_title range2 page) as [name2|] eqn:H2; [|exfalso..|reflexivity].
  - f_equal. apply Hsingle.
    + exact (page_title_Some range1 page name1 Hr1 H1).
    + exact (page_title_Some range2 page name2 Hr2 H2).
  - exact (proj1 (page_title_None range2 page Hr2) H2 name1
             (page_title_Some range1 page name1 Hr1 H1)).
  - exact (proj1 (page_title_None range1 page Hr1) H1 name2
             (page_title_Some range2 page name2 Hr2 H2)).
Qed.

Lemma omap_page_title_single (range1 range2 : Range string Property) (pages : list Page) :
  valid_range range1 -> valid_range range2 -> Forall single_title pages ->
  omap (page_title range1) pages = omap (page_title range2) pages.
Proof.
  intros Hr1 Hr2 Hsingle. induction Hsingle as [|page pages Hpage _ IH]; [reflexivity|].
  cbn [omap list_omap]. rewrite IH, (page_title_single range1 range2 page Hr1 Hr2 Hpage).
  reflexivity.
Qed.

(** X3. The outcome of [getAllTeamNames] depends neither on the order in
    which the store returns the pages nor on the order in which [range]
    visits the properties of a page, when no page has two titles that read
    differently: two runs whose answers hold the same pages in any order
    return the same list, or the same error. *)
Theorem getAllTeamNames_order_irrelevant
    {S1 S2 : Type} (h1 : Store S1) (h2 : Store S2) (app1 app2 : App)
    (range1 range2 : Range string Property) (s1 : S1) (s2 : S2)
    (resp1 resp2 : DatabaseQueryResponse) :
  valid_range range1 -> valid_range range2 ->
  let request := {| Filter := None; PageSize := 100 |} in
  (Database_Query h1 (teamsDBID app1) request s1).1 = inl resp1 ->
  (Database_Query h2 (teamsDBID app2) request s2).1 = inl resp2 ->
  Results resp1 ≡ₚ Results resp2 ->
  Forall single_title (Results resp1) ->
  (run h1 (getAllTeamNames app1 range1) s1).1.1
  = (run h2 (getAllTeamNames app2 range2) s2).1.1.
Proof.
  intros Hr1 Hr2 request Hanswer1 Hanswer2 Hperm Hsingle.
  rewrite !run_getAllTeamNames. cbn [fst]. fold request.
  rewrite Hanswer1, Hanswer2, !listTeamNames_titles.
  assert (Htitles : omap (page_title range1) (Results resp1)
                    ≡ₚ omap (page_title range2) (Results resp2)).
  { rewrite (omap_page_title_single range1 range2 _ Hr1 Hr2 Hsingle).
    apply omap_Permutation. exact Hperm. }
  destruct (omap (page_title range1) (Results resp1)) as [|t1 l1] eqn:H1;
    destruct (omap (page_title range2) (Results resp2)) as [|t2 l2] eqn:H2.
  - reflexivity.
  - apply Permutation_nil_l in Htitles. discriminate.
  - apply Permutation_nil_r in Htitles. discriminate.
  - f_equal. apply sort_Strings_proper. exact Htitles.
Qed.

(** The entries of a map written as a chain of insertions. *)
Ltac lookup_cases :=
  repeat match goal with
         | H : <[_ := _]> _ !! _ = Some _ |- _ =>
             apply lookup_insert_Some in H as [[<- <-]|[_ H]]
         | H : {[_ := _]} !! _ = Some _ |- _ =>
             apply lookup_singleton_Some in H as [<- <-]
         | H : ∅ !! _ = Some _ |- _ => rewrite lookup_empty in H; discriminate
         end.

Lemma League_single_title : Forall single_title League.teams.
Proof.
  assert (Hcase : forall page, page ∈ League.teams -> single_title page).
  { intros page Hin name1 name2 (k1 & p1 & Hk1 & Hn1) (k2 & p2 & Hk2 & Hn2).
    repeat (apply elem_of_cons in Hin as [->|Hin]); [..|inversion Hin];
      cbn [PageProperties League.teamPage League.untitled] in Hk1, Hk2;
      lookup_cases; cbn in Hn1, Hn2; congruence. }
  apply Forall_forall. exact Hcase.
Qed.

Lemma getAllTeamNames_order_witness :
  (run League.store (getAllTeamNames League.app map_to_list) tt).1.1
  = (run League.store
       (getAllTeamNames League.app (fun m => reverse (map_to_list m))) tt).1.1.
Proof.
  apply (getAllTeamNames_order_irrelevant League.store League.store League.app League.app
           map_to_list (fun m => reverse (map_to_list m)) tt tt
           {| Results := League.teams |} {| Results := League.teams |}).
  - intros m. reflexivity.
  - intros m. apply reverse_Permutation.
  - reflexivity.
  - reflexivity.
  - reflexivity.
  - exact League_single_title.
Defined.

(** A page with two titles: the name listed for it depends on the order
    in which its properties are visited. *)
Example getAllTeamNames_two_titles :
  let page := {| ID := "t-9";
                 PageProperties :=
                   {[ "Name" := TitleProperty [ {| PlainText := "Comets" |} ];
                      "Alias" := TitleProperty [ {| PlainText := "Meteors" |} ] ]} |} in
  let store := fixedStore (fun _ _ => inl {| Results := [page] |})
                          (fun _ => inr "object not found") in
  (run store (getAllTeamNames League.app map_to_list) tt).1.1
  <> (run store (getAllTeamNames League.app (fun m => reverse (map_to_list m))) tt).1.1.
Proof. vm_compute. discriminate. Qed.

(** The order of the list is the order of bytes: every capital letter
    comes before every small one. *)
Example getAllTeamNames_capitals_first :
  sort_Strings ["rockets"; "Zebras"; "comets"; "Rockets"; EmptyString]
  = [EmptyString; "Rockets"; "Zebras"; "comets"; "rockets"].
Proof. vm_compute. reflexivity. Qed.

(** ** [handleChallengeForm] *)

Lemma listTeamNames_inl (range : Range string Property) (pages : list Page)
    (names : list string) :
  listTeamNames range pages = inl names ->
  names <> [] /\ StronglySorted string_le names.
Proof.
  rewrite listTeamNames_titles.
  destruct (omap (page_title range) pages) as [|title titles]; [discriminate|].
  intros [= <-]. split; [|apply sort_Strings_sorted].
  intros Hnil. pose proof (sort_Strings_Permutation (title :: titles)) as Hperm.
  rewrite Hnil in Hperm. apply Permutation_nil_l in Hperm. discriminate.
Qed.

(** X4. [handleChallengeForm] makes the one call of [getAllTeamNames]. When
    that function returns an error, the handler writes the status 500 with
    the text "Fehler beim Laden der Teamliste: " and the error, and runs no
    template. Otherwise it sets the content type and runs "teamform.html"
    with the challenge identifier as it was given and the list of names,
    which is not empty and is in increasing order; a failure of the template
    adds the status 500 text "Template-Fehler: " with the template's
    error. *)
Theorem handleChallengeForm_outcomes
    {S : Type} (h : Store S) (app : App) (range : Range string Property)
    (ExecuteTemplate : string -> TemplateData -> option error)
    (challengeID : string) (s : S) :
  let request := {| Filter := None; PageSize := 100 |} in
  let answer := (Database_Query h (teamsDBID app) request s).1 in
  let names := (run h (getAllTeamNames app range) s).1.1 in
  let outcome := run h (handleChallengeForm app range ExecuteTemplate challengeID) s in
  outcome.1.2 = [EvQuery (teamsDBID app) request answer]
  /\ match names with
     | inr err =>
         outcome.1.1 = [OutString 500 ("Fehler beim Laden der Teamliste: " +:+ err)]
     | inl teams =>
         teams <> [] /\ StronglySorted string_le teams
         /\ outcome.1.1
            = OutHeader "Content-Type" "text/html; charset=utf-8"
              :: OutTemplate "teamform.html" (TeamFormData challengeID teams)
              :: match ExecuteTemplate "teamform.html" (TeamFormData challengeID teams) with
                 | Some err => [OutString 500 ("Template-Fehler: " +:+ err)]
                 | None => []
                 end
     end.
Proof.
  intros request answer names outcome. subst outcome names.
  unfold handleChallengeForm. rewrite run_bind, run_getAllTeamNames.
  cbn [fst snd]. fold request. fold answer.
  destruct answer as [resp|err].
  - destruct (listTeamNames range (Results resp)) as [teams|err] eqn:Hlist.
    + cbn. split; [reflexivity|].
      destruct (listTeamNames_inl range _ _ Hlist) as [Hne Hsorted]. auto.
    + cbn. split; reflexivity.
  - cbn. split; reflexivity.
Qed.

(** An empty team database gives the status 500, not a form with an empty
    list. *)
Example handleChallengeForm_no_teams :
  let store := fixedStore (fun _ _ => inl {| Results := [League.untitled] |})
                          (fun _ => inr "object not found") in
  (run store (handleChallengeForm League.app map_to_list League.rendered "7") tt).1.1
  = [OutString 500
       "Fehler beim Laden der Teamliste: keine Teams in der Datenbank gefunden"].
Proof. vm_compute. reflexivity. Qed.

Example handleChallengeForm_League :
  (run League.store (handleChallengeForm League.app map_to_list League.rendered "7") tt).1.1
  = [OutHeader "Content-Type" "text/html; charset=utf-8";
     OutTemplate "teamform.html" (TeamFormData "7" ["Comets"; "Zebras"; "rockets"])].
Proof. vm_compute. reflexivity. Qed.

(** ** [randRange] and [generateMVP] *)

Lemma wrap_int_above (z : Z) :
  GoInt.max_int < z <= 2 ^ 64 - 1 -> GoInt.wrap_int z = z - 2 ^ 64.
Proof.
  unfold GoInt.wrap_int, GoInt.max_int. intros Hz.
  replace (z + 2 ^ 63) with ((z - 2 ^ 63) + 1 * 2 ^ 64) by lia.
  rewrite Z.mod_add by lia. rewrite Z.mod_small by lia. lia.
Qed.

Lemma wrap_int_below (z : Z) :
  - 2 ^ 64 < z < GoInt.min_int -> GoInt.wrap_int z = z + 2 ^ 64.
Proof.
  unfold GoInt.wrap_int, GoInt.min_int. intros Hz.
  replace (z + 2 ^ 63) with ((z + 2 ^ 63 + 2 ^ 64) + (-1) * 2 ^ 64) by lia.
  rewrite Z.mod_add by lia. rewrite Z.mod_small by lia. lia.
Qed.

(** X5. [randRange(min, max)] on a generator that keeps the contract of
    [rand.Intn]. For a range that is not empty and no wider than the
    largest [int], the result lies in [min, max). An empty range
    ([max <= min], the difference still an [int]) is a panic, and so is a
    range wider than the largest [int], whose width wraps to a negative
    number; in general the call panics exactly when the wrapped difference
    is not positive. *)
Theorem randRange_in_range (Intn : Z -> Z) (min max : Z) :
  (forall n, 0 < n -> 0 <= Intn n < n) ->
  GoInt.in_range min = true -> GoInt.in_range max = true ->
  (0 < max - min <= GoInt.max_int ->
   exists r, randRange Intn min max = Some r /\ min <= r < max)
  /\ (GoInt.min_int <= max - min <= 0 -> randRange Intn min max = None)
  /\ (GoInt.max_int < max - min -> randRange Intn min max = None)
  /\ (randRange Intn min max = None <-> int_sub max min <= 0).
Proof.
  intros HIntn Hmin Hmax. unfold GoInt.in_range in Hmin, Hmax.
  apply andb_true_iff in Hmin as [Hmin1 Hmin2]. apply andb_true_iff in Hmax as [Hmax1 Hmax2].
  apply Z.leb_le in Hmin1, Hmin2, Hmax1, Hmax2.
  unfold randRange, rand_Intn, int_sub. unfold GoInt.min_int, GoInt.max_int in *.
  split; [|split; [|split]].
  - intros Hwidth. rewrite wrap_int_id by (unfold GoInt.min_int, GoInt.max_int; lia).
    destruct (Z.leb_spec (max - min) 0) as [Hle|Hlt]; [lia|].
    cbn [mbind option_bind]. eexists. split; [reflexivity|].
    pose proof (HIntn (max - min) Hlt) as Hr.
    unfold GoInt.add. rewrite wrap_int_id by (unfold GoInt.min_int, GoInt.max_int; lia).
    lia.
  - intros Hwidth. rewrite wrap_int_id by (unfold GoInt.min_int, GoInt.max_int; lia).
    destruct (Z.leb_spec (max - min) 0) as [Hle|Hlt]; [reflexivity|lia].
  - intros Hwidth. rewrite wrap_int_above by (unfold GoInt.max_int; lia).
    destruct (Z.leb_spec (max - min - 2 ^ 64) 0) as [Hle|Hlt]; [reflexivity|lia].
  - destruct (Z.leb_spec (GoInt.wrap_int (max - min)) 0) as [Hle|Hlt].
    + split; [intros _; exact Hle|reflexivity].
    + cbn [mbind option_bind]. split; [discriminate|lia].
Qed.

Lemma randRange_in_range_witness :
  exists r, randRange (fun n => n - 1) 3 10 = Some r /\ 3 <= r < 10.
Proof.
  destruct (randRange_in_range (fun n => n - 1) 3 10) as [Hin _].
  - intros n Hn. lia.
  - reflexivity.
  - reflexivity.
  - apply Hin. unfold GoInt.max_int. lia.
Defined.

(** A range from a negative bound to the largest [int] is wider than an
    [int]; a bound above the other one, far enough, wraps to a width that is
    positive. *)
Example randRange_wide :
  randRange (fun n => n - 1) (-1) GoInt.max_int = None
  /\ randRange (fun n => n - 1) GoInt.max_int GoInt.min_int = Some GoInt.max_int.
Proof. split; vm_compute; reflexivity. Qed.

Lemma index_Some {A : Type} (l : list A) (i : Z) :
  0 <= i < Z.of_nat (length l) -> exists a, index l i = Some a /\ a ∈ l.
Proof.
  intros Hi. unfold index. destruct (Z.ltb_spec i 0) as [Hneg|_]; [lia|].
  destruct (lookup_lt_is_Some_2 l (Z.to_nat i)) as [a Ha]; [lia|].
  exists a. split; [exact Ha|]. apply (list_elem_of_lookup_2 _ _ _ Ha).
Qed.

(** X6. [generateMVP] never panics on a generator that keeps the contract
    of [rand.Intn]: the bound handed to the generator is positive and the
    index it gives is within the list, so the handler always runs
    "mvpgenerator.html" with one of the entries of the list. Every entry,
    the first and the last included, is the outcome for some generator. *)
Theorem generateMVP_picks_an_entry
    (ExecuteTemplate : string -> TemplateData -> option error) (Intn : Z -> Z) :
  (forall n, 0 < n -> 0 <= Intn n < n) ->
  (exists mvp,
      mvp ∈ mvpArray
      /\ generateMVP ExecuteTemplate Intn
         = Some (renderTemplate ExecuteTemplate "mvpgenerator.html" (MVPData mvp)))
  /\ (forall mvp,
        mvp ∈ mvpArray ->
        exists draw,
          (forall n, 0 < n -> 0 <= draw n < n)
          /\ generateMVP ExecuteTemplate draw
             = Some (renderTemplate ExecuteTemplate "mvpgenerator.html" (MVPData mvp))).
Proof.
  assert (Hrun : forall draw : Z -> Z,
             (forall n, 0 < n -> 0 <= draw n < n) ->
             generateMVP ExecuteTemplate draw
             = mvp ← index mvpArray (draw (Z.of_nat (length mvpArray)));
               Some (renderTemplate ExecuteTemplate "mvpgenerator.html" (MVPData mvp))).
  { intros draw Hdraw. unfold generateMVP, randRange, rand_Intn, int_sub.
    rewrite Z.sub_0_r, wrap_int_id by (vm_compute; split; discriminate).
    change (Z.of_nat (length mvpArray) <=? 0) with false. cbn [mbind option_bind].
    change (Z.of_nat (length mvpArray)) with 101.
    pose proof (Hdraw 101 eq_refl) as Hr.
    unfold GoInt.add. rewrite Z.add_0_r, wrap_int_id; [reflexivity|].
    unfold GoInt.min_int, GoInt.max_int. lia. }
  intros HIntn. split.
  - rewrite (Hrun Intn HIntn).
    destruct (index_Some mvpArray (Intn (Z.of_nat (length mvpArray)))) as (mvp & -> & Hin).
    + apply HIntn. reflexivity.
    + exists mvp. split; [exact Hin|reflexivity].
  - intros mvp Hin. apply list_elem_of_lookup_1 in Hin as [i Hi].
    pose proof (lookup_lt_Some _ _ _ Hi) as Hlt.
    exists (fun n => if Z.of_nat i <? n then Z.of_nat i else 0). split.
    + intros n Hn. destruct (Z.ltb_spec (Z.of_nat i) n); lia.
    + rewrite Hrun.
      * destruct (Z.ltb_spec (Z.of_nat i) (Z.of_nat (length mvpArray))) as [_|Hge]; [|lia].
        unfold index. destruct (Z.ltb_spec (Z.of_nat i) 0) as [Hneg|_]; [lia|].
        rewrite Nat2Z.id, Hi. reflexivity.
      * intros n Hn. destruct (Z.ltb_spec (Z.of_nat i) n); lia.
Qed.

Lemma generateMVP_picks_an_entry_witness :
  exists mvp,
    mvp ∈ mvpArray
    /\ generateMVP League.rendered (fun n => n - 1)
       = Some [OutHeader "Content-Type" "text/html; charset=utf-8";
               OutTemplate "mvpgenerator.html" (MVPData mvp)].
Proof.
  destruct (generateMVP_picks_an_entry League.rendered (fun n => n - 1))
    as [(mvp & Hin & Hrun) _].
  - intros n Hn. lia.
  - exists mvp. split; [exact Hin|exact Hrun].
Defined.

(** The generator's largest number picks the last entry of the list. *)
Example generateMVP_last :
  generateMVP League.rendered (fun n => n - 1)
  = Some [OutHeader "Content-Type" "text/html; charset=utf-8";
          OutTemplate "mvpgenerator.html" (MVPData "Eco Blanket")].
Proof. vm_compute. reflexivity. Qed.

(** ** The text of any [float64] is read back without error *)

Lemma digits2_pos_lower (p : positive) : 2 ^ (Zpos (digits2_pos p) - 1) <= Zpos p.
Proof.
  induction p as [p IH|p IH|]; cbn [digits2_pos]; [| |cbn; lia];
    rewrite Pos2Z.inj_succ;
    replace (Z.succ (Zpos (digits2_pos p)) - 1) with (Z.succ (Zpos (digits2_pos p) - 1)) by lia;
    rewrite Z.pow_succ_r by lia; lia.
Qed.

Lemma round_half_even_bounds (m k : Z) :
  0 < m -> 0 < k ->
  0 <= Float64.round_half_even m k <= m / 2 ^ k + 1
  /\ Z.abs (2 * (m - Float64.round_half_even m k * 2 ^ k)) <= 2 ^ k.
Proof.
  intros Hm Hk. unfold Float64.round_half_even.
  pose proof (Z.pow_pos_nonneg 2 k) as Hpow.
  pose proof (Z.div_mod m (2 ^ k)) as Hdm.
  pose proof (Z.mod_pos_bound m (2 ^ k)) as Hmod.
  pose proof (Z.div_pos m (2 ^ k)) as Hdiv.
  destruct (Z.compare_spec (2 * (m mod 2 ^ k)) (2 ^ k)) as [Heq|Hlt|Hgt];
    [destruct (Z.even (m / 2 ^ k))| |]; nia.
Qed.

(** A positive integer below [2^53] is a [float64], and the nearest
    [float64] to it is the integer itself. *)
Lemma round_decimal_small_integer (s : bool) (R : Z) :
  0 < R < 2 ^ 53 ->
  exists m e,
    Float64.round_decimal s R 0 = S754_finite s m e
    /\ bounded Float64.prec Float64.emax m e = true
    /\ integer_value (S754_finite s m e) = Some (if s then - R else R).
Proof.
  intros HR. destruct R as [|M|M]; [lia| |lia].
  pose proof (digits2_pos_lower M) as Hlow.
  assert (Hd : Zpos (digits2_pos M) <= 53).
  { destruct (Z.le_gt_cases (Zpos (digits2_pos M)) 53) as [Hle|Hgt]; [exact Hle|].
    exfalso. assert (2 ^ 53 <= 2 ^ (Zpos (digits2_pos M) - 1))
      by (apply Z.pow_le_mono_r; lia). lia. }
  destruct (Z.eq_dec (Zpos (digits2_pos M)) 53) as [Heq|Hne].
  - exists M, 0.
    assert (Hbounded : bounded Float64.prec Float64.emax M 0 = true).
    { unfold bounded, canonical_mantissa, fexp, emin, Float64.prec, Float64.emax.
      rewrite Heq. reflexivity. }
    split; [|split; [exact Hbounded|]].
    + apply round_decimal_exact; [exact Hbounded|]. left. cbn. lia.
    + cbn [integer_value Z.leb Z.compare]. rewrite Z.pow_0_r, Z.mul_1_r. reflexivity.
  - destruct (53 - Zpos (digits2_pos M)) as [|k|k] eqn:Hk; [lia| |lia].
    exists (Pos.iter xO M k), (Zneg k).
    assert (Hbounded : bounded Float64.prec Float64.emax (Pos.iter xO M k) (Zneg k) = true).
    { unfold bounded, canonical_mantissa, fexp, emin, Float64.prec, Float64.emax.
      rewrite iter_xO_digits. apply andb_true_iff. split; [apply Z.eqb_eq|apply Z.leb_le]; lia. }
    split; [|split; [exact Hbounded|]].
    + apply round_decimal_exact; [exact Hbounded|]. right. split; [lia|].
      rewrite iter_xO_Zpos. reflexivity.
    + cbn [integer_value Z.leb Z.compare Z.opp]. rewrite iter_xO_Zpos.
      pose proof (Z.pow_pos_nonneg 2 (Zpos k)) as Hpow.
      rewrite Z.mod_mul, Z.div_mul by lia. reflexivity.
Qed.

Lemma bounded_digits (m : positive) (e : Z) :
  bounded Float64.prec Float64.emax m e = true -> Zpos m < 2 ^ 53.
Proof.
  unfold bounded, canonical_mantissa, fexp, emin, Float64.prec, Float64.emax.
  intros [Hcanon _]%andb_true_iff. apply Z.eqb_eq in Hcanon.
  assert (Hd : Zpos (digits2_pos m) <= 53) by lia.
  assert (Hsize : Zpos m < 2 ^ Zpos (digits2_pos m)).
  { clear. induction m as [m IH|m IH|]; cbn [digits2_pos]; [| |cbn; lia];
      rewrite Pos2Z.inj_succ, Z.pow_succ_r by lia; lia. }
  assert (2 ^ Zpos (digits2_pos m) <= 2 ^ 53) by (apply Z.pow_le_mono_r; lia). lia.
Qed.

(** X7. The locator's parse of an identifier never fails on a text the
    extractor wrote: for every [float64], [parseFloat] reads the text of
    [%.0f] without error. A NaN, an infinity and a zero are read back as
    themselves. A finite number is read back as the integer it was rounded
    to in printing, which is an integer nearest to it and is the number
    itself when it has no fractional part; so the locator looks for the
    rounded identifier, with the sign kept. *)
Theorem parseFloat_Sprintf_0f_never_fails (f : float64) :
  Float64.valid f = true ->
  exists g,
    parseFloat (Float64.Sprintf_0f f) = (g, false)
    /\ Float64.valid g = true
    /\ match f with
       | S754_finite s m e =>
           let R := Float64.rounded_magnitude m e in
           signbit g = s
           /\ integer_value g = Some (if s then - R else R)
           /\ (0 <= e -> g = f)
           /\ (e < 0 -> Z.abs (2 * (Zpos m - R * 2 ^ (- e))) <= 2 ^ (- e))
       | _ => g = f
       end.
Proof.
  intros Hvalid. unfold parseFloat. destruct f as [s|s| |s m e].
  - exists (S754_zero s). cbn [Float64.Sprintf_0f].
    change "0" with (Fmt.decimal 0). rewrite Sscanf_f_integer by lia. auto.
  - exists (S754_infinity s). destruct s; vm_compute; auto.
  - exists S754_nan. vm_compute. auto.
  - unfold Float64.valid in Hvalid. cbn [valid_binary] in Hvalid.
    cbn [Float64.Sprintf_0f]. cbv zeta.
    assert (Hnonneg : 0 <= Float64.rounded_magnitude m e).
    { unfold Float64.rounded_magnitude. destruct (Z.leb_spec 0 e) as [He|He].
      - pose proof (Z.pow_pos_nonneg 2 e). lia.
      - apply round_half_even_bounds; lia. }
    rewrite Sscanf_f_integer by exact Hnonneg.
    destruct (Z.leb_spec 0 e) as [He|He].
    + assert (HR : Float64.rounded_magnitude m e = Zpos m * 2 ^ e).
      { unfold Float64.rounded_magnitude. destruct (Z.leb_spec 0 e); [reflexivity|lia]. }
      rewrite HR. rewrite (round_decimal_exact s m e (Zpos m * 2 ^ e) Hvalid)
        by (left; split; [exact He|reflexivity]).
      exists (S754_finite s m e). split; [reflexivity|]. split; [exact Hvalid|].
      split; [reflexivity|]. split; [|split; [reflexivity|lia]].
      cbn [integer_value]. destruct (Z.leb_spec 0 e); [reflexivity|lia].
    + assert (HR : Float64.rounded_magnitude m e = Float64.round_half_even (Zpos m) (- e)).
      { unfold Float64.rounded_magnitude. destruct (Z.leb_spec 0 e); [lia|reflexivity]. }
      destruct (round_half_even_bounds (Zpos m) (- e)) as [[Hlo Hhi] Hnear]; [lia..|].
      rewrite <- HR in Hlo, Hhi, Hnear.
      destruct (Z.eq_dec (Float64.rounded_magnitude m e) 0) as [Hzero|Hpos].
      * rewrite Hzero in *. exists (S754_zero s). split; [reflexivity|].
        split; [reflexivity|]. split; [reflexivity|].
        split; [destruct s; reflexivity|]. split; [lia|intros _; exact Hnear].
      * assert (Hsmall : 0 < Float64.rounded_magnitude m e < 2 ^ 53).
        { split; [lia|]. pose proof (bounded_digits m e Hvalid) as Hm.
          assert (Zpos m / 2 ^ (- e) <= Zpos m / 2 ^ 1).
          { apply Z.div_le_compat_l; [lia|]. split; [lia|].
            apply Z.pow_le_mono_r; lia. }
          assert (Zpos m / 2 ^ 1 < 2 ^ 52).
          { apply Z.div_lt_upper_bound; [lia|]. change (2 ^ 1 * 2 ^ 52) with (2 ^ 53). lia. }
          change (2 ^ 53) with (2 * 2 ^ 52). lia. }
        destruct (round_decimal_small_integer s _ Hsmall) as (m' & e' & -> & Hb & Hint).
        exists (S754_finite s m' e'). split; [reflexivity|]. split; [exact Hb|].
        split; [reflexivity|]. split; [exact Hint|]. split; [lia|intros _; exact Hnear].
Qed.

Lemma parseFloat_Sprintf_0f_never_fails_witness :
  Float64.Sprintf_0f (S754_finite true 7881299347898368 (-51)) = "-4"
  /\ exists g, parseFloat "-4" = (g, false) /\ integer_value g = Some (-4).
Proof.
  destruct (parseFloat_Sprintf_0f_never_fails (S754_finite true 7881299347898368 (-51)))
    as (g & Hg & _ & _ & Hint & _).
  - reflexivity.
  - split; [reflexivity|]. exists g. split; [exact Hg|exact Hint].
Defined.

(** The numbers 2.5 and 2 are written alike, and both are looked for as
    2. *)
Example parseFloat_Sprintf_0f_fraction :
  Float64.Sprintf_0f (S754_finite false 5629499534213120 (-51)) = "2"
  /\ Float64.Sprintf_0f (Rockets.number 2) = "2"
  /\ parseFloat "2" = (Rockets.number 2, false).
Proof. repeat split. Qed.

(** ** The outcomes of [findNextChallengeURL] and [handleNextChallenge] *)

Lemma run_locateChallenge {S : Type} (h : Store S) (app : App) (nextID : string) (s : S) :
  let db := challengeDBID app in
  let first := Database_Query h db (numberFilter "id" nextID) s in
  let second := Database_Query h db (numberFilter "ID" nextID) first.2 in
  run h (locateChallenge app nextID) s
  = match firstResult first.1 with
    | Some page =>
        (baseURL +:+ cleanID (ID page), [EvQuery db (numberFilter "id" nextID) first.1],
         first.2)
    | None =>
        (match firstResult second.1 with
         | Some page => baseURL +:+ cleanID (ID page)
         | None => EmptyString
         end,
         [EvQuery db (numberFilter "id" nextID) first.1;
          EvQuery db (numberFilter "ID" nextID) second.1], second.2)
    end.
Proof.
  intros db first second. unfold locateChallenge. rewrite run_bind, run_query.
  fold db. fold first. cbv beta iota.
  destruct (firstResult first.1) as [page|] eqn:H1.
  - rewrite run_bind, run_ret. cbv beta iota. rewrite H1. reflexivity.
  - rewrite run_bind, run_query. fold second. cbv beta iota.
    destruct (firstResult second.1) as [page|]; reflexivity.
Qed.

Lemma baseURL_not_empty (path : string) : String.eqb (baseURL +:+ path) EmptyString = false.
Proof. reflexivity. Qed.

Lemma run_handleNextChallenge {S : Type} (h : Store S) (app : App)
    (rangeProperties : Range string Property) (rangeChallenges : Range Z string)
    (currentID teamName : string) (s : S) :
  run h (handleNextChallenge app rangeProperties rangeChallenges currentID teamName) s
  = if String.eqb teamName EmptyString then (BadRequest "Teamname erforderlich", [], s)
    else
      let found := run h (findTeamPage app rangeProperties teamName) s in
      match found.1.1 with
      | inr _ => (ErrorPage "Team nicht gefunden", found.1.2, found.2)
      | inl teamPageID =>
          if String.eqb teamPageID EmptyString
          then (ErrorPage "Team nicht gefunden", found.1.2, found.2)
          else
            let data := run h (getTeamChallenges rangeProperties teamPageID) found.2 in
            match data.1.1 with
            | inr err =>
                (ErrorPage ("Fehler beim Abrufen der Team-Daten: " +:+ err),
                 found.1.2 ++ data.1.2, data.2)
            | inl challenges =>
                let next :=
                  run h (findNextChallengeURL app rangeChallenges challenges currentID)
                    data.2 in
                (if String.eqb next.1.1 EmptyString then FinishedPage teamName
                 else RedirectPage next.1.1 teamName,
                 found.1.2 ++ data.1.2 ++ next.1.2, next.2)
            end
      end.
Proof.
  unfold handleNextChallenge. destruct (String.eqb teamName EmptyString); [reflexivity|].
  rewrite run_bind. cbv zeta.
  destruct (run h (findTeamPage app rangeProperties teamName) s) as [[found tr1] s1].
  cbn [fst snd]. destruct found as [teamPageID|err]; [|cbn; rewrite app_nil_r; reflexivity].
  destruct (String.eqb teamPageID EmptyString); [cbn; rewrite app_nil_r; reflexivity|].
  rewrite run_bind.
  destruct (run h (getTeamChallenges rangeProperties teamPageID) s1) as [[data tr2] s2].
  cbn [fst snd]. destruct data as [challenges|err]; [|cbn; rewrite app_nil_r; reflexivity].
  rewrite run_bind.
  destruct (run h (findNextChallengeURL app rangeChallenges challenges currentID) s2)
    as [[url tr3] s3].
  cbn [fst snd]. destruct (String.eqb url EmptyString); cbn; rewrite app_nil_r; reflexivity.
Qed.

(** X8. [findNextChallengeURL] returns the empty string exactly when
    there is no next position or neither of the two queries for the next
    identifier yields a record. A record that is found always gives a
    result that starts with the base URL, and so is never empty, whatever
    the record's identifier is: the caller's test for the empty string tells
    "found" from "not found" without error. *)
Theorem findNextChallengeURL_empty_iff
    {S : Type} (h : Store S) (app : App) (range : Range Z string)
    (challenges : gmap Z string) (currentID : string) (s : S) :
  let db := challengeDBID app in
  let url := (run h (findNextChallengeURL app range challenges currentID) s).1.1 in
  (url = EmptyString
   <-> match nextChallengeID range challenges currentID with
       | None => True
       | Some nextID =>
           let first := Database_Query h db (numberFilter "id" nextID) s in
           yields_nothing first.1
           /\ yields_nothing (Database_Query h db (numberFilter "ID" nextID) first.2).1
       end)
  /\ (url <> EmptyString ->
      exists page, url = baseURL +:+ cleanID (ID page)).
Proof.
  intros db url. subst url. unfold findNextChallengeURL.
  destruct (nextChallengeID range challenges currentID) as [nextID|].
  - rewrite run_locateChallenge. cbv zeta. fold db.
    rewrite <- !firstResult_None.
    destruct (firstResult (Database_Query h db (numberFilter "id" nextID) s).1)
      as [page|]; cbn [fst].
    + split; [split; [discriminate|intros [[=] _]]|]. intros _. exists page. reflexivity.
    + destruct (firstResult _) as [page|].
      * split; [split; [discriminate|intros [_ [=]]]|]. intros _. exists page. reflexivity.
      * split; [split; auto|]. intros Hne. contradiction.
  - cbn. split; [split; auto|]. intros Hne. contradiction.
Qed.

(** X9. A redirect of [handleNextChallenge] always carries the team name
    of the request and a URL made of the base URL and the cleaned
    identifier of a record: the first record of the handler's last call,
    which is a successful query of the Challenge collection with a number
    filter on "id" or on "ID". *)
Theorem handleNextChallenge_redirect
    {S : Type} (h : Store S) (app : App)
    (rangeProperties : Range string Property) (rangeChallenges : Range Z string)
    (currentID teamName : string) (s : S) (url team : string) :
  let outcome :=
    run h (handleNextChallenge app rangeProperties rangeChallenges currentID teamName) s in
  outcome.1.1 = RedirectPage url team ->
  team = teamName
  /\ teamName <> EmptyString
  /\ exists prop nextID resp page rest,
       (prop = "id" \/ prop = "ID")
       /\ last outcome.1.2
          = Some (EvQuery (challengeDBID app) (numberFilter prop nextID) (inl resp))
       /\ Results resp = page :: rest
       /\ url = baseURL +:+ cleanID (ID page).
Proof.
  intros outcome. subst outcome. rewrite run_handleNextChallenge.
  destruct (String.eqb_spec teamName EmptyString) as [->|Hname]; [discriminate|].
  cbv zeta.
  destruct (run h (findTeamPage app rangeProperties teamName) s) as [[found tr1] s1].
  cbn [fst snd]. destruct found as [teamPageID|err]; [|discriminate].
  destruct (String.eqb teamPageID EmptyString); [discriminate|].
  destruct (run h (getTeamChallenges rangeProperties teamPageID) s1) as [[data tr2] s2].
  cbn [fst snd]. destruct data as [challenges|err]; [|discriminate].
  unfold findNextChallengeURL.
  destruct (nextChallengeID rangeChallenges challenges currentID) as [nextID|];
    [|discriminate].
  rewrite run_locateChallenge. cbv zeta.
  set (first := Database_Query h (challengeDBID app) (numberFilter "id" nextID) s2).
  set (second := Database_Query h (challengeDBID app) (numberFilter "ID" nextID) first.2).
  destruct (firstResult first.1) as [page|] eqn:H1; cbn [fst snd].
  - rewrite baseURL_not_empty. intros [= <- <-]. split; [reflexivity|]. split; [exact Hname|].
    apply firstResult_Some in H1 as (resp & rest & Hresp & Hresults).
    exists "id", nextID, resp, page, rest. split; [left; reflexivity|].
    split; [|split; [exact Hresults|reflexivity]].
    rewrite !last_app. cbn [last]. rewrite Hresp. reflexivity.
  - destruct (firstResult second.1) as [page|] eqn:H2; [|discriminate].
    rewrite baseURL_not_empty. intros [= <- <-]. split; [reflexivity|]. split; [exact Hname|].
    apply firstResult_Some in H2 as (resp & rest & Hresp & Hresults).
    exists "ID", nextID, resp, page, rest. split; [right; reflexivity|].
    split; [|split; [exact Hresults|reflexivity]].
    rewrite !last_app. cbn [last]. rewrite Hresp. reflexivity.
Qed.

Lemma handleNextChallenge_redirect_witness :
  exists page,
    (run Rockets.store
       (handleNextChallenge Rockets.app map_to_list map_to_list "10" "Rockets") tt).1.1
    = RedirectPage (baseURL +:+ cleanID (ID page)) "Rockets".
Proof.
  destruct (handleNextChallenge_redirect Rockets.store Rockets.app map_to_list map_to_list
              "10" "Rockets" tt "https://marcbaumholz.notion.site/c20b" "Rockets")
    as (_ & _ & prop & nextID & resp & page & rest & _ & _ & _ & Hurl).
  - vm_compute. reflexivity.
  - exists page. rewrite <- Hurl. vm_compute. reflexivity.
Defined.

(** X10. Which failures [handleNextChallenge] shows. An empty team name is
    the status 400 and no call is made. An error of the team lookup and a
    lookup that finds no team give the same page, "Team nicht gefunden". A
    failed fetch of the team page gives the error page with the error's
    text. Once the team page has been fetched the handler never answers
    with an error: whatever the store answers afterwards, to the fetches of
    the challenge pages and to the queries for the next challenge, the
    response is the finished page or a redirect. *)
Theorem handleNextChallenge_error_visibility
    {S : Type} (h : Store S) (app : App)
    (rangeProperties : Range string Property) (rangeChallenges : Range Z string)
    (currentID teamName : string) (s : S) :
  let outcome :=
    run h (handleNextChallenge app rangeProperties rangeChallenges currentID teamName) s in
  let found := run h (findTeamPage app rangeProperties teamName) s in
  (teamName = EmptyString -> outcome = (BadRequest "Teamname erforderlich", [], s))
  /\ (teamName <> EmptyString ->
      match found.1.1 with
      | inr _ => outcome = (ErrorPage "Team nicht gefunden", found.1.2, found.2)
      | inl teamPageID =>
          if String.eqb teamPageID EmptyString
          then outcome = (ErrorPage "Team nicht gefunden", found.1.2, found.2)
          else
            match (Page_Get h teamPageID found.2).1 with
            | inr err =>
                outcome
                = (ErrorPage ("Fehler beim Abrufen der Team-Daten: " +:+ err),
                   found.1.2 ++ [EvGet teamPageID (inr err)],
                   (Page_Get h teamPageID found.2).2)
            | inl _ =>
                outcome.1.1 = FinishedPage teamName
                \/ exists url, outcome.1.1 = RedirectPage url teamName
            end
      end).
Proof.
  intros outcome found. subst outcome. rewrite run_handleNextChallenge. split.
  - intros ->. reflexivity.
  - intros Hname. destruct (String.eqb_spec teamName EmptyString) as [Heq|_]; [contradiction|].
    cbv zeta. fold found. destruct found.1.1 as [teamPageID|err]; [|reflexivity].
    destruct (String.eqb teamPageID EmptyString); [reflexivity|].
    pose proof (run_getTeamChallenges h rangeProperties teamPageID found.2) as Hdata.
    destruct (Page_Get h teamPageID found.2).1 as [team|err].
    + destruct Hdata as (answers & s' & _ & ->). cbn [fst snd].
      destruct (String.eqb _ EmptyString); [left; reflexivity|right; eauto].
    + rewrite Hdata. reflexivity.
Qed.

(** The store fails at every call: the team is "not found". *)
Example handleNextChallenge_offline :
  (run League.offline
     (handleNextChallenge League.app map_to_list map_to_list "10" "Rockets") tt).1.1
  = ErrorPage "Team nicht gefunden".
Proof. vm_compute. reflexivity. Qed.

(** ** Sequence extraction and the order of the properties *)

Lemma absorb_lookup_eq (n : Z) (r : GetResult) (m1 m2 : gmap Z string) :
  m1 !! n = m2 !! n -> absorb n r m1 !! n = absorb n r m2 !! n.
Proof.
  intros Heq. destruct r as [page|err]; [|exact Heq]. cbn [absorb].
  rewrite !readChallengeID_lookup, Heq. reflexivity.
Qed.

Lemma absorb_commute (n1 n2 : Z) (r1 r2 : GetResult) (m : gmap Z string) :
  n1 <> n2 -> absorb n1 r1 (absorb n2 r2 m) = absorb n2 r2 (absorb n1 r1 m).
Proof.
  intros Hne. apply map_eq. intros k.
  destruct (decide (k = n1)) as [->|Hk1]; [|destruct (decide (k = n2)) as [->|Hk2]].
  - rewrite (absorb_lookup_ne n2 n1) by congruence.
    apply absorb_lookup_eq. apply absorb_lookup_ne. congruence.
  - rewrite (absorb_lookup_ne n1 n2) by congruence.
    apply absorb_lookup_eq. symmetry. apply absorb_lookup_ne. congruence.
  - rewrite !absorb_lookup_ne by congruence. reflexivity.
Qed.

Lemma absorb_all_Permutation (fetched1 fetched2 : list ((Z * PageID) * GetResult))
    (m : gmap Z string) :
  fetched1 ≡ₚ fetched2 ->
  NoDup ((fun fetch => fetch.1.1) <$> fetched1) ->
  absorb_all fetched1 m = absorb_all fetched2 m.
Proof.
  intros Hperm. revert m.
  induction Hperm as [|x l1 l2 Hperm IH|x y l|l1 l2 l3 H12 IH12 H23 IH23]; intros m Hnodup.
  - reflexivity.
  - cbn [fmap list_fmap] in Hnodup. apply NoDup_cons in Hnodup as [_ Hnodup].
    unfold absorb_all. cbn [foldl]. apply IH. exact Hnodup.
  - cbn [fmap list_fmap] in Hnodup. apply NoDup_cons in Hnodup as [Hy _].
    unfold absorb_all. cbn [foldl]. rewrite absorb_commute; [reflexivity|].
    intros Heq. apply Hy. apply elem_of_cons. left. symmetry. exact Heq.
  - rewrite IH12 by exact Hnodup. apply IH23. rewrite <- H12. exact Hnodup.
Qed.

Lemma run_visitProperties_fixed
    (queries : DatabaseID -> DatabaseQueryRequest -> QueryResult)
    (pages : PageID -> GetResult) (entries : list (string * Property))
    (challenges : gmap Z string) :
  let links := omap challenge_link entries in
  run (fixedStore queries pages) (visitProperties entries challenges) tt
  = (absorb_all ((fun link => (link, pages link.2)) <$> links) challenges,
     (fun link => EvGet link.2 (pages link.2)) <$> links, tt).
Proof.
  revert challenges. induction entries as [|entry rest IH]; intros challenges; [reflexivity|].
  cbn [visitProperties]. rewrite run_bind, run_visitProperty, omap_cons.
  destruct (challenge_link entry) as [[n target]|]; cbv beta iota zeta.
  - cbn [fixedStore Page_Get fst snd]. rewrite IH. reflexivity.
  - rewrite IH. reflexivity.
Qed.

Lemma run_getTeamChallenges_fixed
    (queries : DatabaseID -> DatabaseQueryRequest -> QueryResult)
    (pages : PageID -> GetResult) (range : Range string Property)
    (teamPageID : PageID) (team : Page) :
  pages teamPageID = inl team ->
  let links := omap challenge_link (range (PageProperties team)) in
  run (fixedStore queries pages) (getTeamChallenges range teamPageID) tt
  = (inl (absorb_all ((fun link => (link, pages link.2)) <$> links) ∅),
     EvGet teamPageID (inl team) :: ((fun link => EvGet link.2 (pages link.2)) <$> links),
     tt).
Proof.
  intros Hteam links. unfold getTeamChallenges. rewrite run_bind, run_get.
  cbn [fixedStore Page_Get fst snd]. rewrite Hteam. cbv beta iota.
  rewrite run_bind, run_visitProperties_fixed. cbv beta iota zeta.
  rewrite run_ret. cbv beta iota. rewrite app_nil_r. reflexivity.
Qed.

Lemma links_NoDup (range : Range string Property) (team : Page) :
  valid_range range -> distinct_positions team ->
  NoDup (fst <$> omap challenge_link (range (PageProperties team))).
Proof.
  intros Hrange Hdistinct.
  assert (Hentries : NoDup (range (PageProperties team))).
  { rewrite (Hrange (PageProperties team)). apply NoDup_map_to_list. }
  assert (Hin : forall name prop, (name, prop) ∈ range (PageProperties team) ->
                  PageProperties team !! name = Some prop).
  { intros name prop. apply (valid_range_lookup range _ name prop Hrange). }
  induction (range (PageProperties team)) as [|[name prop] entries IH]; [constructor|].
  apply NoDup_cons in Hentries as [Hnew Hentries].
  rewrite omap_cons.
  assert (IH' := IH Hentries (fun name' prop' H => Hin name' prop' (list_elem_of_further _ _ _ H))).
  destruct (challenge_link (name, prop)) as [[n target]|] eqn:Hlink; [|exact IH'].
  cbn [fmap list_fmap fst]. apply NoDup_cons. split; [|exact IH'].
  intros Hdup. apply list_elem_of_fmap in Hdup as ([n' target'] & Hn & Hin').
  cbn [fst] in Hn. subst n'.
  apply list_elem_of_omap in Hin' as ([name' prop'] & Hin' & Hlink').
  assert (name = name').
  { apply (Hdistinct name prop target name' prop' target' n);
      [apply Hin; left|apply Hin; right; exact Hin'|exact Hlink|exact Hlink']. }
  subst name'.
  assert (prop = prop').
  { pose proof (Hin name prop (list_elem_of_here _ _)) as H1.
    pose proof (Hin name prop' (list_elem_of_further _ _ _ Hin')) as H2. congruence. }
  subst prop'. contradiction.
Qed.

Lemma run_getTeamChallenges_fixed_order
    (queries : DatabaseID -> DatabaseQueryRequest -> QueryResult)
    (pages : PageID -> GetResult) (range1 range2 : Range string Property)
    (teamPageID : PageID) (team : Page) :
  valid_range range1 -> valid_range range2 ->
  pages teamPageID = inl team ->
  distinct_positions team ->
  (run (fixedStore queries pages) (getTeamChallenges range1 teamPageID) tt).1.1
  = (run (fixedStore queries pages) (getTeamChallenges range2 teamPageID) tt).1.1.
Proof.
  intros Hr1 Hr2 Hteam Hdistinct.
  rewrite !(run_getTeamChallenges_fixed queries pages _ teamPageID team Hteam).
  cbn [fst snd]. f_equal. apply absorb_all_Permutation.
  - apply fmap_Permutation, omap_Permutation. rewrite (Hr1 _), (Hr2 _). reflexivity.
  - rewrite <- list_fmap_compose. exact (links_NoDup range1 team Hr1 Hdistinct).
Qed.

(** X11. Against a store that answers every fetch of a page in the same
    way, the map [getTeamChallenges] returns does not depend on the order in
    which [range] visits the properties of the team page, when no two
    linking properties of the page scan to the same position; the fetches
    made are the same ones, in another order. *)
Theorem getTeamChallenges_order_irrelevant
    (queries : DatabaseID -> DatabaseQueryRequest -> QueryResult)
    (pages : PageID -> GetResult) (range1 range2 : Range string Property)
    (teamPageID : PageID) (team : Page) :
  valid_range range1 -> valid_range range2 ->
  pages teamPageID = inl team ->
  distinct_positions team ->
  let run1 := run (fixedStore queries pages) (getTeamChallenges range1 teamPageID) tt in
  let run2 := run (fixedStore queries pages) (getTeamChallenges range2 teamPageID) tt in
  run1.1.1 = run2.1.1 /\ run1.1.2 ≡ₚ run2.1.2.
Proof.
  intros Hr1 Hr2 Hteam Hdistinct run1 run2. subst run1 run2. split.
  - apply (run_getTeamChallenges_fixed_order queries pages range1 range2 teamPageID team);
      assumption.
  - rewrite !(run_getTeamChallenges_fixed queries pages _ teamPageID team Hteam).
    cbn [fst snd]. constructor. apply fmap_Permutation, omap_Permutation.
    rewrite (Hr1 _), (Hr2 _). reflexivity.
Qed.

Lemma Rockets_distinct_positions : distinct_positions Rockets.team.
Proof.
  intros name1 prop1 target1 name2 prop2 target2 n H1 H2 Hlink1 Hlink2.
  cbn [PageProperties Rockets.team] in H1, H2.
  lookup_cases; vm_compute in Hlink1, Hlink2; congruence.
Qed.

Lemma getTeamChallenges_order_witness :
  (run Rockets.store (getTeamChallenges map_to_list "team-1") tt).1.1
  = (run Rockets.store (getTeamChallenges (fun m => reverse (map_to_list m)) "team-1") tt).1.1.
Proof.
  destruct (getTeamChallenges_order_irrelevant Rockets.queries Rockets.pages
              map_to_list (fun m => reverse (map_to_list m)) "team-1" Rockets.team)
    as [Hresult _].
  - intros m. reflexivity.
  - intros m. apply reverse_Permutation.
  - reflexivity.
  - exact Rockets_distinct_positions.
  - exact Hresult.
Defined.

(** Two properties that scan to the same position: the challenge kept for
    the position depends on the order of the visit. *)
Example getTeamChallenges_same_position :
  let team := {| ID := "team-3";
                 PageProperties :=
                   {[ "Challenge1" := RelationProperty [ {| RelationID := "c-10-a" |} ];
                      "Challenge01" := RelationProperty [ {| RelationID := "c-30-c" |} ]
                   ]} |} in
  let store := fixedStore Rockets.queries
                 (fun id => if String.eqb id "team-3" then inl team else Rockets.pages id) in
  (run store (getTeamChallenges map_to_list "team-3") tt).1.1
  <> (run store (getTeamChallenges (fun m => reverse (map_to_list m)) "team-3") tt).1.1.
Proof. vm_compute. discriminate. Qed.

(** ** The numbers [Challenge%d] reads *)

Lemma scanInt_digits (sgn digits suffix : string) :
  sgn = EmptyString \/ sgn = "+" \/ sgn = "-" ->
  Fmt.digits_only digits = true ->
  Fmt.starts_with_digit digits = true ->
  Fmt.starts_with_digit suffix = false ->
  let v := if String.eqb sgn "-" then - Fmt.digits_value 0 digits
           else Fmt.digits_value 0 digits in
  Fmt.SkipSpace (sgn +:+ digits +:+ suffix) = Some (sgn +:+ digits +:+ suffix)
  /\ Fmt.scanInt (sgn +:+ digits +:+ suffix)
     = if GoInt.in_range v then Some (v, suffix) else None.
Proof.
  intros Hsgn Hdigits Hstart Hsuffix v.
  destruct digits as [|c rest]; [discriminate|]. cbn [Fmt.starts_with_digit] in Hstart.
  assert (Hnosign := indexRune_digit_not_sign c Hstart).
  assert (Hchar : Ascii.eqb c "-" = false /\ Ascii.eqb c "+" = false).
  { cbn in Hnosign. apply orb_false_iff in Hnosign as [Hplus Hminus].
    apply orb_false_iff in Hminus as [Hminus _]. split; assumption. }
  destruct Hchar as [Hminus Hplus].
  destruct Hsgn as [-> | [-> | ->]]; subst v; cbn [String.eqb Ascii.eqb Bool.eqb].
  - rewrite append_empty_l, append_cons.
    assert (Hskip : Fmt.SkipSpace (String c (rest +:+ suffix)) = Some (String c (rest +:+ suffix)))
      by (apply SkipSpace_at_number; rewrite Hstart; reflexivity).
    split; [exact Hskip|]. unfold Fmt.scanInt. rewrite Hskip.
    rewrite (accept_miss Fmt.sign) by exact Hnosign. cbn [fst snd]. rewrite Hstart.
    rewrite <- append_cons, accept_all_digits by assumption.
    rewrite append_empty_l. unfold Fmt.ParseInt. rewrite Hminus, Hplus.
    destruct (GoInt.in_range _); reflexivity.
  - change ("+" +:+ String c rest +:+ suffix) with (String "+" (String c rest +:+ suffix)).
    assert (Hskip : Fmt.SkipSpace (String "+" (String c rest +:+ suffix))
                    = Some (String "+" (String c rest +:+ suffix)))
      by (apply SkipSpace_at_number; reflexivity).
    split; [exact Hskip|]. unfold Fmt.scanInt. rewrite Hskip.
    rewrite (accept_hit Fmt.sign) by reflexivity. cbn [fst snd].
    rewrite append_cons at 1. rewrite Hstart.
    rewrite accept_all_digits by assumption.
    change ((EmptyString +:+ "+") +:+ String c rest) with (String "+" (String c rest)).
    unfold Fmt.ParseInt. cbn [Ascii.eqb Bool.eqb]. cbv iota.
    destruct (GoInt.in_range _); reflexivity.
  - change ("-" +:+ String c rest +:+ suffix) with (String "-" (String c rest +:+ suffix)).
    assert (Hskip : Fmt.SkipSpace (String "-" (String c rest +:+ suffix))
                    = Some (String "-" (String c rest +:+ suffix)))
      by (apply SkipSpace_at_number; reflexivity).
    split; [exact Hskip|]. unfold Fmt.scanInt. rewrite Hskip.
    rewrite (accept_hit Fmt.sign) by reflexivity. cbn [fst snd].
    rewrite append_cons at 1. rewrite Hstart.
    rewrite accept_all_digits by assumption.
    change ((EmptyString +:+ "-") +:+ String c rest) with (String "-" (String c rest)).
    unfold Fmt.ParseInt. cbn [Ascii.eqb Bool.eqb]. cbv iota.
    destruct (GoInt.in_range _); reflexivity.
Qed.

(** X12. The numbers a property name can carry. After "Challenge", a sign
    [+] or [-] (or none) and any run of decimal digits, leading zeros
    included, followed by anything that is no digit, is read as the number
    the digits stand for, so that several names stand for one position. A
    number outside the 64-bit range is an error of the scan, not a wrapped
    number: the property is then passed over, with no fetch. *)
Theorem Sscanf_Challenge_d_digits (sgn digits suffix : string) :
  sgn = EmptyString \/ sgn = "+" \/ sgn = "-" ->
  Fmt.digits_only digits = true ->
  Fmt.starts_with_digit digits = true ->
  Fmt.starts_with_digit suffix = false ->
  let name := "Challenge" +:+ sgn +:+ digits +:+ suffix in
  let v := if String.eqb sgn "-" then - Fmt.digits_value 0 digits
           else Fmt.digits_value 0 digits in
  Fmt.Sscanf_Challenge_d name = (if GoInt.in_range v then Some v else None)
  /\ (GoInt.in_range v = false ->
      forall (S : Type) (h : Store S) (challenges : gmap Z string) (prop : Property) (s : S),
        run h (visitProperty challenges (name, prop)) s = (challenges, [], s)).
Proof.
  intros Hsgn Hdigits Hstart Hsuffix name v.
  destruct (scanInt_digits sgn digits suffix Hsgn Hdigits Hstart Hsuffix) as [Hskip Hscan].
  fold v in Hscan.
  assert (Hname : Fmt.Sscanf_Challenge_d name = if GoInt.in_range v then Some v else None).
  { subst name. unfold Fmt.Sscanf_Challenge_d. rewrite advance_append, Hskip, Hscan.
    destruct (GoInt.in_range v); reflexivity. }
  split; [exact Hname|]. intros Hrange S h challenges prop s.
  rewrite run_visitProperty. unfold challenge_link. cbn [fst snd].
  rewrite Hname, Hrange. reflexivity.
Qed.

Lemma Sscanf_Challenge_d_digits_witness :
  Fmt.Sscanf_Challenge_d "Challenge+007th" = Some 7
  /\ Fmt.Sscanf_Challenge_d "Challenge9223372036854775808" = None.
Proof.
  split.
  - apply (Sscanf_Challenge_d_digits "+" "007" "th"); [right; left|..]; reflexivity.
  - apply (Sscanf_Challenge_d_digits EmptyString "9223372036854775808" EmptyString);
      [left|..]; reflexivity.
Defined.

(** ** Team resolution and the order of the properties *)

Lemma pageMatches_order (range1 range2 : Range string Property) (teamName : string)
    (page : Page) :
  valid_range range1 -> valid_range range2 ->
  pageMatches range1 teamName page = pageMatches range2 teamName page.
Proof.
  intros Hr1 Hr2.
  pose proof (pageMatches_names_team range1 teamName page Hr1) as H1.
  pose proof (pageMatches_names_team range2 teamName page Hr2) as H2.
  destruct (pageMatches range1 teamName page), (pageMatches range2 teamName page);
    try reflexivity.
  - symmetry. apply H2, H1. reflexivity.
  - apply H1, H2. reflexivity.
Qed.

Lemma searchPages_order (range1 range2 : Range string Property) (teamName : string)
    (pages : list Page) :
  valid_range range1 -> valid_range range2 ->
  searchPages range1 teamName pages = searchPages range2 teamName pages.
Proof.
  intros Hr1 Hr2. induction pages as [|page rest IH]; [reflexivity|].
  cbn [searchPages]. rewrite IH, (pageMatches_order range1 range2 teamName page Hr1 Hr2).
  reflexivity.
Qed.

Lemma run_tieredLookup_ext {S : Type} (h : Store S) (app : App) (teamName : string)
    (props : list string) (otherwise1 otherwise2 : Prog (string + error)) :
  (forall s, run h otherwise1 s = run h otherwise2 s) ->
  forall s, run h (tieredLookup app teamName props otherwise1) s
            = run h (tieredLookup app teamName props otherwise2) s.
Proof.
  intros Hext. induction props as [|prop rest IH]; intros s; [apply Hext|].
  cbn [tieredLookup]. rewrite !run_bind, run_query. cbv beta iota.
  destruct (firstResult _); [reflexivity|]. rewrite IH. reflexivity.
Qed.

Lemma run_findTeamPage_order {S : Type} (h : Store S) (app : App)
    (range1 range2 : Range string Property) (teamName : string) (s : S) :
  valid_range range1 -> valid_range range2 ->
  run h (findTeamPage app range1 teamName) s = run h (findTeamPage app range2 teamName) s.
Proof.
  intros Hr1 Hr2. unfold findTeamPage. apply run_tieredLookup_ext. intros s1.
  rewrite !run_fullScan.
  destruct (Database_Query h (teamsDBID app) allTeams s1).1 as [resp|err]; [|reflexivity].
  rewrite (searchPages_order range1 range2 teamName _ Hr1 Hr2). reflexivity.
Qed.

(** X13. Team resolution does not depend on the order in which [range]
    visits the properties of a page in the manual search: under any two
    enumerations a run of [findTeamPage] makes the same calls and returns
    the same team, also when several properties or several pages read the
    team name. Among several pages that read it, the first one of the
    store's answer is the team. *)
Theorem findTeamPage_order_irrelevant
    {S : Type} (h : Store S) (app : App) (range1 range2 : Range string Property)
    (teamName : string) (s : S) :
  valid_range range1 -> valid_range range2 ->
  run h (findTeamPage app range1 teamName) s = run h (findTeamPage app range2 teamName) s
  /\ forall pages,
       first_named teamName pages (searchPages range1 teamName pages)
       /\ searchPages range1 teamName pages = searchPages range2 teamName pages.
Proof.
  intros Hr1 Hr2. split; [apply run_findTeamPage_order; assumption|].
  intros pages. split; [apply searchPages_first_named; exact Hr1|].
  apply searchPages_order; assumption.
Qed.

Lemma findTeamPage_order_witness :
  run League.store (findTeamPage League.app map_to_list "Zebras") tt
  = run League.store (findTeamPage League.app (fun m => reverse (map_to_list m)) "Zebras") tt.
Proof.
  apply (findTeamPage_order_irrelevant League.store League.app map_to_list
           (fun m => reverse (map_to_list m)) "Zebras" tt).
  - intros m. reflexivity.
  - intros m. apply reverse_Permutation.
Defined.

(** In the manual search the team of the scenario is found under its
    title "Team", which the tiered queries of this store never find. *)
Example findTeamPage_League :
  (run League.store (findTeamPage League.app map_to_list "Zebras") tt).1.1 = inl "t-2".
Proof. vm_compute. reflexivity. Qed.

(** ** The handler and the order of iteration *)

Lemma nextChallengeID_order (range1 range2 : Range Z string) (challenges : gmap Z string)
    (currentID : string) :
  valid_range range1 -> valid_range range2 ->
  distinct_identifiers challenges ->
  nextChallengeID range1 challenges currentID = nextChallengeID range2 challenges currentID.
Proof.
  intros Hr1 Hr2 Hdistinct. unfold nextChallengeID, nextPosition.
  replace (currentPosition range2 challenges currentID)
    with (currentPosition range1 challenges currentID); [reflexivity|].
  destruct (currentPosition_spec range1 challenges currentID Hr1) as [[H1 Hall1]|H1];
    destruct (currentPosition_spec range2 challenges currentID Hr2) as [[H2 Hall2]|H2].
  - congruence.
  - exfalso. exact (Hall1 _ _ H2 eq_refl).
  - exfalso. exact (Hall2 _ _ H1 eq_refl).
  - exact (Hdistinct _ _ _ H1 H2).
Qed.

(** X14. Against a store that answers every call in the same way, the
    response of [handleNextChallenge] does not depend on the order of any
    of its three loops over a map, when no two linking properties of the
    team page scan to the same position and no two positions of the
    extracted sequence hold the same identifier. *)
Theorem handleNextChallenge_order_irrelevant
    (queries : DatabaseID -> DatabaseQueryRequest -> QueryResult)
    (pages : PageID -> GetResult) (app : App)
    (rangeProperties1 rangeProperties2 : Range string Property)
    (rangeChallenges1 rangeChallenges2 : Range Z string)
    (currentID teamName : string) :
  let store := fixedStore queries pages in
  valid_range rangeProperties1 -> valid_range rangeProperties2 ->
  valid_range rangeChallenges1 -> valid_range rangeChallenges2 ->
  (forall teamPageID,
      (run store (findTeamPage app rangeProperties1 teamName) tt).1.1 = inl teamPageID ->
      (forall team, pages teamPageID = inl team -> distinct_positions team)
      /\ (forall challenges,
            (run store (getTeamChallenges rangeProperties1 teamPageID) tt).1.1
            = inl challenges ->
            distinct_identifiers challenges)) ->
  (run store
     (handleNextChallenge app rangeProperties1 rangeChallenges1 currentID teamName) tt).1.1
  = (run store
       (handleNextChallenge app rangeProperties2 rangeChallenges2 currentID teamName) tt).1.1.
Proof.
  intros store Hp1 Hp2 Hc1 Hc2 Hteam.
  rewrite !run_handleNextChallenge.
  destruct (String.eqb teamName EmptyString); [reflexivity|]. cbv zeta.
  rewrite <- (run_findTeamPage_order store app rangeProperties1 rangeProperties2
                teamName tt Hp1 Hp2).
  destruct (run store (findTeamPage app rangeProperties1 teamName) tt)
    as [[found tr1] []] eqn:Hfound.
  cbn [fst snd] in Hteam |- *. destruct found as [teamPageID|err]; [|reflexivity].
  destruct (String.eqb teamPageID EmptyString); [reflexivity|].
  destruct (Hteam teamPageID eq_refl) as [Hpositions Hidentifiers].
  destruct (pages teamPageID) as [team|err] eqn:Hpage.
  - pose proof (run_getTeamChallenges_fixed_order queries pages rangeProperties1
                  rangeProperties2 teamPageID team Hp1 Hp2 Hpage (Hpositions team eq_refl))
      as Hdata.
    fold store in Hdata.
    destruct (run store (getTeamChallenges rangeProperties1 teamPageID) tt)
      as [[data1 tr2] []].
    destruct (run store (getTeamChallenges rangeProperties2 teamPageID) tt)
      as [[data2 tr2'] []].
    cbn [fst snd] in Hdata, Hidentifiers |- *. subst data2.
    destruct data1 as [challenges|err]; [|reflexivity].
    unfold findNextChallengeURL.
    rewrite (nextChallengeID_order rangeChallenges1 rangeChallenges2 challenges currentID
               Hc1 Hc2 (Hidentifiers challenges eq_refl)).
    reflexivity.
  - assert (Hfail : forall range,
               run store (getTeamChallenges range teamPageID) tt
               = (inr err, [EvGet teamPageID (inr err)], tt)).
    { intros range. pose proof (run_getTeamChallenges store range teamPageID tt) as Hrun.
      cbn [store fixedStore Page_Get fst snd] in Hrun. rewrite Hpage in Hrun. exact Hrun. }
    rewrite !Hfail. reflexivity.
Qed.

Lemma handleNextChallenge_order_witness :
  (run Rockets.store
     (handleNextChallenge Rockets.app map_to_list map_to_list "10" "Rockets") tt).1.1
  = (run Rockets.store
       (handleNextChallenge Rockets.app (fun m => reverse (map_to_list m))
          (fun m => reverse (map_to_list m)) "10" "Rockets") tt).1.1.
Proof.
  apply (handleNextChallenge_order_irrelevant Rockets.queries Rockets.pages Rockets.app
           map_to_list (fun m => reverse (map_to_list m))
           map_to_list (fun m => reverse (map_to_list m)) "10" "Rockets").
  - intros m. reflexivity.
  - intros m. apply reverse_Permutation.
  - intros m. reflexivity.
  - intros m. apply reverse_Permutation.
  - intros teamPageID Hfound. vm_compute in Hfound. injection Hfound as <-. split.
    + intros team Hpage. vm_compute in Hpage. injection Hpage as <-.
      exact Rockets_distinct_positions.
    + intros challenges Hdata. vm_compute in Hdata. injection Hdata as <-.
      apply distinct_identifiers_NoDup. apply (bool_decide_unpack _). vm_compute. exact I.
Defined.

(** ** The step from one challenge to the next *)



(** ** The names of the form and the team resolution *)

Lemma run_fixed_trace {A : Type}
    (queries : DatabaseID -> DatabaseQueryRequest -> QueryResult)
    (pages : PageID -> GetResult) (p : Prog A) :
  Forall (fixed_answer queries pages) (run (fixedStore queries pages) p tt).1.2.
Proof.
  induction p as [a|db req k IH|id k IH]; [constructor| |].
  - cbn [run fixedStore Database_Query]. specialize (IH (queries db req)).
    destruct (run (fixedStore queries pages) (k (queries db req)) tt) as [[a tr] s2].
    cbn [fst snd] in IH |- *. constructor; [reflexivity|exact IH].
  - cbn [run fixedStore Page_Get]. specialize (IH (pages id)).
    destruct (run (fixedStore queries pages) (k (pages id)) tt) as [[a tr] s2].
    cbn [fst snd] in IH |- *. constructor; [reflexivity|exact IH].
Qed.

Lemma has_title_names_team (page : Page) (name : string) :
  has_title page name -> names_team name page.
Proof.
  intros (key & prop & Hlook & Htitle). exists key, prop. split; [exact Hlook|].
  destruct prop as [[|t ts]| | | |]; try discriminate Htitle. exact Htitle.
Qed.

(** X16. The names of the form are names the resolution finds. Against a
    store that answers every call in the same way, when [getAllTeamNames]
    lists a name, [findTeamPage] of that name returns no error: it returns
    the identifier of the first record of a filter query, or else the
    identifier of the first page of the team database one of whose title or
    rich-text properties reads the name. *)
Theorem getAllTeamNames_findTeamPage
    (queries : DatabaseID -> DatabaseQueryRequest -> QueryResult)
    (pages : PageID -> GetResult) (app : App) (range : Range string Property)
    (names : list string) (teamName : string) :
  let store := fixedStore queries pages in
  valid_range range ->
  (run store (getAllTeamNames app range) tt).1.1 = inl names ->
  teamName ∈ names ->
  exists page,
    (run store (findTeamPage app range teamName) tt).1.1 = inl (ID page)
    /\ ((exists prop, prop ∈ propertyNames
                      /\ yields_first (queries (teamsDBID app) (teamFilter prop teamName))
                           page)
        \/ (names_team teamName page
            /\ exists resp,
                 queries (teamsDBID app) allTeams = inl resp
                 /\ first_named teamName (Results resp) (ID page))).
Proof.
  intros store Hrange Hnames Hin.
  rewrite run_getAllTeamNames in Hnames. cbn [store fixedStore Database_Query fst] in Hnames.
  change {| Filter := None; PageSize := 100 |} with allTeams in Hnames.
  destruct (queries (teamsDBID app) allTeams) as [resp|err] eqn:Hanswer; [|discriminate].
  rewrite listTeamNames_titles in Hnames.
  destruct (omap (page_title range) (Results resp)) as [|t ts] eqn:Htitles; [discriminate|].
  injection Hnames as <-. rewrite sort_Strings_Permutation, <- Htitles in Hin.
  apply list_elem_of_omap in Hin as (titled & Htitled & Htitle).
  apply (page_title_Some range titled teamName Hrange) in Htitle.
  apply has_title_names_team in Htitle.
  pose proof (run_fixed_trace queries pages (findTeamPage app range teamName)) as Htrace.
  fold store in Htrace.
  destruct (run_findTeamPage store app range teamName tt) as (misses & _ & Hcases).
  cbn zeta in Hcases.
  destruct Hcases as [(prop & page & r & s' & Hprop & Hfirst & Hrun)|(_ & r & s' & Hrun)];
    rewrite Hrun in Htrace |- *; cbn [fst snd] in Htrace |- *;
    apply Forall_app in Htrace as [_ Hlast]; apply Forall_inv in Hlast;
    cbn [fixed_answer] in Hlast; subst r.
  - exists page. split; [reflexivity|]. left. exists prop. split; [|exact Hfirst].
    apply (list_elem_of_lookup_2 _ _ _ Hprop).
  - rewrite Hanswer.
    destruct (searchPages_first_named range teamName (Results resp) Hrange)
      as [(before & page & after & Hsplit & Hbefore & Hpage & Hid)|[Hnone _]].
    + exists page. split; [rewrite Hid; reflexivity|]. right. split; [exact Hpage|].
      exists resp. split; [reflexivity|]. left. exists before, page, after. auto.
    + exfalso. rewrite Forall_forall in Hnone. exact (Hnone titled Htitled Htitle).
Qed.

Lemma getAllTeamNames_findTeamPage_witness :
  exists page,
    (run League.store (findTeamPage League.app map_to_list "Zebras") tt).1.1
    = inl (ID page).
Proof.
  destruct (getAllTeamNames_findTeamPage League.queries League.pages League.app map_to_list
              ["Comets"; "Zebras"; "rockets"] "Zebras") as (page & Hpage & _).
  - intros m. reflexivity.
  - reflexivity.
  - apply (bool_decide_unpack _). vm_compute. exact I.
  - exists page. exact Hpage.
Defined.

(** ** Distinct numbers, distinct identifiers *)

Lemma parseFloat_Sprintf_0f_integer (f : float64) (z : Z) :
  Float64.valid f = true ->
  integer_value f = Some z ->
  parseFloat (Float64.Sprintf_0f f) = (f, false).
Proof.
  intros Hvalid Hinteger. unfold parseFloat.
  destruct f as [s|s| |s m e]; try discriminate Hinteger.
  - cbn [Float64.Sprintf_0f]. change "0" with (Fmt.decimal 0).
    rewrite Sscanf_f_integer by lia. reflexivity.
  - unfold Float64.valid in Hvalid. cbn [valid_binary] in Hvalid.
    cbn [integer_value] in Hinteger. cbn [Float64.Sprintf_0f].
    unfold Float64.rounded_magnitude. destruct (Z.leb_spec 0 e) as [He|He].
    + pose proof (Z.pow_pos_nonneg 2 e).
      rewrite Sscanf_f_integer by lia.
      rewrite (round_decimal_exact s m e (Zpos m * 2 ^ e) Hvalid)
        by (left; split; [exact He|reflexivity]).
      reflexivity.
    + destruct (Z.eqb_spec (Zpos m mod 2 ^ (- e)) 0) as [Hmod|Hmod];
        [|discriminate Hinteger].
      rewrite round_half_even_exact by (lia || exact Hmod).
      pose proof (Z.pow_pos_nonneg 2 (- e)).
      assert (Hdiv : Zpos m = Zpos m / 2 ^ (- e) * 2 ^ (- e)).
      { rewrite (Z.div_mod (Zpos m) (2 ^ (- e))) at 1 by lia. rewrite Hmod. lia. }
      rewrite Sscanf_f_integer by (apply Z.div_pos; lia).
      rewrite (round_decimal_exact s m e (Zpos m / 2 ^ (- e)) Hvalid)
        by (right; split; [exact He|exact Hdiv]).
      reflexivity.
Qed.

(** X17. Two identifiers that are whole numbers are written as the same
    string only when they are the same number: on integer-valued numbers
    [%.0f] loses nothing. Challenges with different whole-number identifiers
    therefore hold different strings in the sequence. *)
Theorem Sprintf_0f_injective_on_integers (f1 f2 : float64) (z1 z2 : Z) :
  Float64.valid f1 = true -> Float64.valid f2 = true ->
  integer_value f1 = Some z1 -> integer_value f2 = Some z2 ->
  Float64.Sprintf_0f f1 = Float64.Sprintf_0f f2 ->
  f1 = f2 /\ z1 = z2.
Proof.
  intros Hv1 Hv2 Hz1 Hz2 Htext.
  pose proof (parseFloat_Sprintf_0f_integer f1 z1 Hv1 Hz1) as H1.
  pose proof (parseFloat_Sprintf_0f_integer f2 z2 Hv2 Hz2) as H2.
  rewrite Htext, H2 in H1. injection H1 as <-. split; [reflexivity|congruence].
Qed.

Lemma Sprintf_0f_injective_witness :
  Rockets.number 7 = S754_finite false 7881299347898368 (-50).
Proof.
  apply (Sprintf_0f_injective_on_integers (Rockets.number 7)
           (S754_finite false 7881299347898368 (-50)) 7 7); reflexivity.
Defined.

(** ** The number of queries of a request *)

Lemma queries_of_app (calls1 calls2 : list Event) :
  queries_of (calls1 ++ calls2) = queries_of calls1 ++ queries_of calls2.
Proof. apply omap_app. Qed.

Lemma queries_of_tiered (db : DatabaseID) (request : string -> DatabaseQueryRequest)
    (props : list string) (answers : list QueryResult) :
  (length (queries_of (zip_with (fun prop r => EvQuery db (request prop) r) props answers))
   <= length props)%nat
  /\ Forall (fun q => q.1 = db)
       (queries_of (zip_with (fun prop r => EvQuery db (request prop) r) props answers)).
Proof.
  revert answers. induction props as [|prop props IH]; intros answers.
  - split; [cbn; lia|constructor].
  - destruct answers as [|r answers]; [split; [cbn; lia|constructor]|].
    destruct (IH answers) as [Hlen Hall]. cbn [zip_with queries_of omap list_omap length].
    split; [unfold queries_of in Hlen; lia|constructor; [reflexivity|exact Hall]].
Qed.

Lemma queries_of_fetches (links : list (Z * PageID)) (answers : list GetResult) :
  queries_of (zip_with (fun link r => EvGet link.2 r) links answers) = [].
Proof.
  revert answers. induction links as [|link links IH]; intros answers; [reflexivity|].
  destruct answers as [|r answers]; [reflexivity|]. cbn. apply IH.
Qed.

(** X18. One request to [handleNextChallenge] makes at most seven database
    queries, whatever the store answers: at most five of the team database
    and at most two of the challenge database, and none of any other. (The
    other calls are the fetches of the team page and of the linked challenge
    pages.) *)
Theorem handleNextChallenge_queries_bound
    {S : Type} (h : Store S) (app : App)
    (rangeProperties : Range string Property) (rangeChallenges : Range Z string)
    (currentID teamName : string) (s : S) :
  let calls :=
    (run h (handleNextChallenge app rangeProperties rangeChallenges currentID teamName)
       s).1.2 in
  exists teamQueries challengeQueries,
    queries_of calls = teamQueries ++ challengeQueries
    /\ (length teamQueries <= 5)%nat
    /\ Forall (fun q => q.1 = teamsDBID app) teamQueries
    /\ (length challengeQueries <= 2)%nat
    /\ Forall (fun q => q.1 = challengeDBID app) challengeQueries.
Proof.
  intros calls. subst calls. rewrite run_handleNextChallenge.
  destruct (String.eqb teamName EmptyString).
  { exists [], []. repeat split; cbn; try lia; constructor. }
  cbv zeta.
  assert (Hteam : (length (queries_of
                     (run h (findTeamPage app rangeProperties teamName) s).1.2) <= 5)%nat
                  /\ Forall (fun q => q.1 = teamsDBID app)
                       (queries_of (run h (findTeamPage app rangeProperties teamName) s).1.2)).
  { destruct (run_findTeamPage h app rangeProperties teamName s)
      as (misses & _ & Hcases). cbn zeta in Hcases.
    destruct (queries_of_tiered (teamsDBID app) (fun prop => teamFilter prop teamName)
                propertyNames misses) as [Hlen Hall].
    cbn [propertyNames length] in Hlen.
    destruct Hcases as [(prop & page & r & s' & _ & _ & ->)|(_ & r & s' & ->)];
      cbn [fst snd]; rewrite queries_of_app, length_app; cbn [queries_of omap list_omap length];
      (split; [unfold queries_of in Hlen |- *; lia|]);
      apply Forall_app; (split; [exact Hall|constructor; [reflexivity|constructor]]). }
  destruct Hteam as [Hlen Hall].
  destruct (run h (findTeamPage app rangeProperties teamName) s) as [[found tr1] s1].
  cbn [fst snd] in *.
  assert (Hnone : exists teamQueries challengeQueries,
             queries_of tr1 = teamQueries ++ challengeQueries
             /\ (length teamQueries <= 5)%nat
             /\ Forall (fun q => q.1 = teamsDBID app) teamQueries
             /\ (length challengeQueries <= 2)%nat
             /\ Forall (fun q => q.1 = challengeDBID app) challengeQueries).
  { exists (queries_of tr1), []. rewrite app_nil_r. repeat split; cbn; try lia; auto. }
  destruct found as [teamPageID|err]; [|exact Hnone].
  destruct (String.eqb teamPageID EmptyString); [exact Hnone|].
  assert (Hfetch : queries_of (run h (getTeamChallenges rangeProperties teamPageID) s1).1.2
                   = []).
  { pose proof (run_getTeamChallenges h rangeProperties teamPageID s1) as Hrun.
    destruct (Page_Get h teamPageID s1).1 as [team|err].
    - destruct Hrun as (answers & s' & _ & ->). cbn [fst snd queries_of omap list_omap].
      apply queries_of_fetches.
    - rewrite Hrun. reflexivity. }
  destruct (run h (getTeamChallenges rangeProperties teamPageID) s1) as [[data tr2] s2].
  cbn [fst snd] in *. destruct data as [challenges|err].
  - unfold findNextChallengeURL.
    destruct (nextChallengeID rangeChallenges challenges currentID) as [nextID|].
    + rewrite run_locateChallenge. cbv zeta.
      exists (queries_of tr1).
      destruct (firstResult _); cbn [fst snd]; rewrite !queries_of_app, Hfetch, app_nil_l;
        eexists; (split; [reflexivity|]); cbn [queries_of omap list_omap length];
        repeat split; try lia; auto; repeat constructor.
    + cbn [run fst snd]. rewrite !queries_of_app, Hfetch. cbn. rewrite app_nil_r.
      exact Hnone.
  - cbn [fst snd]. rewrite queries_of_app, Hfetch, app_nil_r. exact Hnone.
Qed.

(** ** The cleaned identifier is well formed *)








(** A byte that is no UTF-8: the cleaned identifier is longer than the
    identifier. *)
Example cleanID_invalid_byte :
  cleanID (String (ascii_of_nat 255) "a-b")
  = Utf8.RuneError +:+ "ab".
Proof. reflexivity. Qed.

(** ** The names [Challenge%d] accepts, and no others *)











(** ** The entry of a position, visit by visit *)

Lemma absorb_entry (n k : Z) (r : GetResult) (challenges : gmap Z string) :
  absorb n r challenges !! k
  = visit_entry k (challenges !! k) ((n, EmptyString), r).
Proof.
  unfold visit_entry. cbn [fst snd]. destruct (decide (n = k)) as [->|Hne].
  - destruct r as [page|err]; [|reflexivity]. cbn [absorb entry_step].
    apply readChallengeID_lookup.
  - apply absorb_lookup_ne. exact Hne.
Qed.

Lemma absorb_all_entry (fetched : list ((Z * PageID) * GetResult))
    (challenges : gmap Z string) (k : Z) :
  absorb_all fetched challenges !! k = foldl (visit_entry k) (challenges !! k) fetched.
Proof.
  revert challenges. induction fetched as [|[[n target] r] fetched IH]; intros challenges.
  - reflexivity.
  - rewrite absorb_all_cons, IH. cbn [foldl fst snd]. rewrite absorb_entry. reflexivity.
Qed.

Lemma position_entry_filter (n : Z) (fetched : list ((Z * PageID) * GetResult))
    (current : option string) :
  foldl (visit_entry n) current fetched
  = foldl (fun entry fetch => entry_step fetch.2 entry) current
      (filter (fun fetch => fetch.1.1 = n) fetched).
Proof.
  revert current. induction fetched as [|fetch fetched IH]; intros current; [reflexivity|].
  cbn [foldl]. rewrite IH, filter_cons. unfold visit_entry.
  destruct (decide (fetch.1.1 = n)); reflexivity.
Qed.


(** The map of a run of [getTeamChallenges] that fetched the team page:
    entry by entry, what the fetches for the position made of it. *)
Lemma run_getTeamChallenges_entries {S : Type} (h : Store S)
    (range : Range string Property) (teamPageID : PageID) (s : S) (team : Page) :
  (Page_Get h teamPageID s).1 = inl team ->
  let links := omap challenge_link (range (PageProperties team)) in
  exists (answers : list GetResult) (challenges : gmap Z string) (s' : S),
    length answers = length links
    /\ run h (getTeamChallenges range teamPageID) s
       = (inl challenges,
          EvGet teamPageID (inl team) :: zip_with (fun link r => EvGet link.2 r) links answers,
          s')
    /\ forall n, challenges !! n = position_entry n (zip links answers).
Proof.
  intros Hteam links. pose proof (run_getTeamChallenges h range teamPageID s) as Hrun.
  rewrite Hteam in Hrun. destruct Hrun as (answers & s' & Hlen & Hrun).
  exists answers, (absorb_all (zip links answers) ∅), s'.
  split; [exact Hlen|]. split; [exact Hrun|].
  intros n. rewrite absorb_all_entry, lookup_empty. reflexivity.
Qed.





(** C9. The read of "ID" in sequence extraction. One visit of a linking
    property whose fetch succeeds makes that one fetch and changes the map
    at the position of the property only. There, a number under "id" is
    stored; when "id" stores nothing, because it is absent or because it is
    no number, the number under "ID" is read and stored if the position has
    no entry yet, and is not read if the position has one already (left
    there by another property that scans to the same position): the test is
    made on the map, not on the outcome of the read of "id". When the
    position has no entry and neither "id" nor "ID" is a number, the map is
    left as it was. The extraction as a whole returns its map with no error
    once the team page is fetched, and for a position that one property
    alone scans to and whose record has no number under "id", the entry is
    the number under "ID", and there is none when "ID" is no number
    either. *)
Theorem readChallengeID_falls_back_to_ID :
  (forall (S : Type) (h : Store S) (challenges : gmap Z string) (name : string)
          (relation : Relation) (others : list Relation) (n : Z) (s : S) (page : Page),
      Fmt.Sscanf_Challenge_d name = Some n ->
      (Page_Get h (RelationID relation) s).1 = inl page ->
      let outcome :=
        run h (visitProperty challenges (name, RelationProperty (relation :: others))) s in
      outcome.1.2 = [EvGet (RelationID relation) (inl page)]
      /\ (forall k, k <> n -> outcome.1.1 !! k = challenges !! k)
      /\ outcome.1.1 !! n
         = match number_under "id" page with
           | Some v => Some (Float64.Sprintf_0f v)
           | None =>
               match challenges !! n with
               | Some text => Some text
               | None => option_map Float64.Sprintf_0f (number_under "ID" page)
               end
           end
      /\ (number_under "id" page = None ->
          (forall v,
              challenges !! n = None ->
              PageProperties page !! "ID" = Some (NumberProperty v) ->
              outcome.1.1 = <[n := Float64.Sprintf_0f v]> challenges)
          /\ (is_Some (challenges !! n) -> outcome.1.1 = challenges)
          /\ (number_under "ID" page = None -> outcome.1.1 = challenges)))
  /\ (forall (name : string) (page : Page),
        number_under name page = None
        <-> forall v, PageProperties page !! name <> Some (NumberProperty v))
  /\ (forall (S : Type) (h : Store S) (range : Range string Property)
             (teamPageID : PageID) (s : S) (team : Page),
        (Page_Get h teamPageID s).1 = inl team ->
        let links := omap challenge_link (range (PageProperties team)) in
        exists (answers : list GetResult) (challenges : gmap Z string),
          length answers = length links
          /\ (run h (getTeamChallenges range teamPageID) s).1.1 = inl challenges
          /\ (run h (getTeamChallenges range teamPageID) s).1.2
             = EvGet teamPageID (inl team)
               :: zip_with (fun link r => EvGet link.2 r) links answers
          /\ forall n target page,
               filter (fun fetch => fetch.1.1 = n) (zip links answers)
               = [((n, target), inl page)] ->
               number_under "id" page = None ->
               challenges !! n = option_map Float64.Sprintf_0f (number_under "ID" page)).
Proof.
  split; [|split].
  - intros S h challenges name relation others n s page Hscan Hpage outcome.
    subst outcome. rewrite run_visitProperty. unfold challenge_link. cbn [fst snd].
    rewrite Hscan, Hpage. cbn [fst snd absorb].
    split; [reflexivity|]. split; [|split].
    + intros k Hk. apply readChallengeID_lookup_ne. congruence.
    + apply readChallengeID_lookup.
    + intros Hid. unfold readChallengeID.
      rewrite (storeNumber_None "id" page n challenges Hid). split; [|split].
      * intros v Hfresh HID. rewrite Hfresh. apply storeNumber_Some.
        unfold number_under. rewrite HID. reflexivity.
      * intros [text ->]. reflexivity.
      * intros HID. rewrite (storeNumber_None "ID" page n challenges HID).
        destruct (challenges !! n); reflexivity.
  - exact number_under_None.
  - intros S h range teamPageID s team Hteam. cbv zeta.
    destruct (run_getTeamChallenges_entries h range teamPageID s team Hteam)
      as (answers & challenges & s' & Hlen & Hrun & Hentries). cbv zeta in Hentries.
    exists answers, challenges. rewrite Hrun. split; [exact Hlen|].
    split; [reflexivity|]. split; [reflexivity|].
    intros n target page Hone Hid. rewrite Hentries. unfold position_entry.
    rewrite position_entry_filter, Hone. cbn [foldl snd entry_step]. rewrite Hid.
    reflexivity.
Qed.

(** The page "t-7" has a title under "id" and the number 7 under "ID": a
    visit of "Challenge7" with no entry yet stores "7". *)
Lemma readChallengeID_falls_back_witness :
  (run Oddities.store
     (visitProperty ∅ ("Challenge7", RelationProperty [ {| RelationID := "t-7" |} ]))
     tt).1.1
  = {[ 7 := "7" ]}.
Proof.
  destruct readChallengeID_falls_back_to_ID as (Hvisit & _ & _).
  destruct (Hvisit unit Oddities.store ∅ "Challenge7" {| RelationID := "t-7" |} [] 7 tt
              (Oddities.titled "t-7" 7) eq_refl eq_refl) as (_ & _ & _ & Hfallback).
  destruct Hfallback as (Hstore & _ & _); [reflexivity|].
  rewrite (Hstore (Rockets.number 7)); [reflexivity|apply lookup_empty|reflexivity].
Defined.

(** The same page visited for a position that has an entry: the read of
    "id" stores nothing, "ID" is the number 7, and the entry stays "20". *)
Lemma readChallengeID_filled_position_keeps_entry :
  Fmt.Sscanf_Challenge_d "Challenge07" = Some 7
  /\ storeNumber "id" (Oddities.titled "t-7" 7) 7 {[ 7 := "20" ]} = {[ 7 := "20" ]}
  /\ PageProperties (Oddities.titled "t-7" 7) !! "ID"
     = Some (NumberProperty (Rockets.number 7))
  /\ run SamePosition.store
       (visitProperty {[ 7 := "20" ]}
          ("Challenge07", RelationProperty [ {| RelationID := "t-7" |} ])) tt
     = ({[ 7 := "20" ]}, [EvGet "t-7" (inl (Oddities.titled "t-7" 7))], tt).
Proof. vm_compute. repeat split. Qed.

Lemma names_team_segment (teamName : string) (page : Page) :
  names_team teamName page
  <-> exists key segment others,
        (PageProperties page !! key = Some (TitleProperty (segment :: others))
         \/ PageProperties page !! key = Some (RichTextProperty (segment :: others)))
        /\ PlainText segment = teamName.
Proof.
  unfold names_team. split.
  - intros (key & prop & Hlook & Htext).
    destruct prop as [[|t ts]|[|t ts]| | |]; try discriminate Htext;
      injection Htext as Htext; exists key, t, ts; auto.
  - intros (key & segment & others & [Hlook|Hlook] & Htext);
      eexists key, _; (split; [exact Hlook|]); cbn; congruence.
Qed.

Lemma names_team_full_text (teamName : string) (page : Page) :
  (forall key prop, PageProperties page !! key = Some prop -> one_segment prop) ->
  names_team teamName page
  <-> exists key prop,
        PageProperties page !! key = Some prop /\ full_text prop = Some teamName.
Proof.
  intros Hone. unfold names_team.
  assert (Htext : forall prop, one_segment prop ->
                    property_text prop = Some teamName <-> full_text prop = Some teamName).
  { intros prop Hprop. destruct prop as [[|t [|t' ts]]|[|t [|t' ts]]| | |];
      cbn in Hprop |- *; try discriminate Hprop; try reflexivity;
      rewrite append_empty_r; reflexivity. }
  split; intros (key & prop & Hlook & Hname); exists key, prop;
    (split; [exact Hlook|]); apply (Htext prop (Hone key prop Hlook)); exact Hname.
Qed.

(** C5. Team resolution queries the Team collection with an equality
    filter on the title-property names "Name", "Team", "Title", "title", in
    this order and as long as each query fails or finds no record. The
    first query that succeeds with a record ends the resolution with the
    identifier of its first record. Only after all four have yielded nothing
    comes one unfiltered query with page size 100, and the result is then
    the identifier of the first returned page that has a title or rich-text
    property whose first segment is the team name, byte for byte (the empty
    string when there is none). Segments after the first are not compared:
    for a property of one segment the first segment is the whole text of
    the property. *)
Theorem findTeamPage_tiered_then_full_scan
    {S : Type} (h : Store S) (app : App) (range : Range string Property)
    (teamName : string) (s : S) :
  valid_range range ->
  let db := teamsDBID app in
  let equals (prop : string) :=
    {| Filter := Some {| FilterProperty := prop; Condition := RichTextEquals teamName |};
       PageSize := 0 |} in
  let unfiltered := {| Filter := None; PageSize := 100 |} in
  let result := (run h (findTeamPage app range teamName) s).1.1 in
  let calls := (run h (findTeamPage app range teamName) s).1.2 in
  (exists misses : list QueryResult,
      Forall yields_nothing misses
      /\ let tiered :=
           zip_with (fun prop r => EvQuery db (equals prop) r)
             ["Name"; "Team"; "Title"; "title"] misses in
         (exists prop page r,
             ["Name"; "Team"; "Title"; "title"] !! length misses = Some prop
             /\ yields_first r page
             /\ calls = tiered ++ [EvQuery db (equals prop) r]
             /\ result = inl (ID page))
         \/ (length misses = 4%nat
             /\ exists r,
                 calls = tiered ++ [EvQuery db unfiltered r]
                 /\ match r with
                    | inr err => result = inr err
                    | inl resp =>
                        exists id, result = inl id
                                   /\ first_named teamName (Results resp) id
                    end))
  /\ (forall page,
        names_team teamName page
        <-> exists key segment others,
              (PageProperties page !! key = Some (TitleProperty (segment :: others))
               \/ PageProperties page !! key = Some (RichTextProperty (segment :: others)))
              /\ PlainText segment = teamName)
  /\ (forall page,
        (forall key prop, PageProperties page !! key = Some prop -> one_segment prop) ->
        names_team teamName page
        <-> exists key prop,
              PageProperties page !! key = Some prop /\ full_text prop = Some teamName).
Proof.
  intros Hrange db equals unfiltered result calls.
  split; [|split; [apply names_team_segment|apply names_team_full_text]].
  destruct (run_findTeamPage h app range teamName s) as (misses & Hmisses & Hcases).
  exists misses. split; [exact Hmisses|]. cbn zeta in Hcases |- *.
  destruct Hcases as [(prop & page & r & s' & Hlook & Hyield & Hrun)
                     |[Hlen (r & s' & Hrun)]].
  - left. exists prop, page, r. subst result calls. rewrite Hrun.
    repeat split; assumption.
  - right. split; [exact Hlen|]. exists r. subst result calls. rewrite Hrun.
    split; [reflexivity|]. destruct r as [resp|err]; [|reflexivity].
    eexists. split; [reflexivity|]. apply searchPages_first_named. exact Hrange.
Qed.

(** The team "Zebras" of the league: the four filter queries fail, the
    unfiltered query follows, and the page "t-2" is the team. *)
Lemma findTeamPage_tiered_witness :
  exists misses : list QueryResult,
    Forall yields_nothing misses
    /\ length misses = 4%nat
    /\ (run League.store (findTeamPage League.app map_to_list "Zebras") tt).1.2
       = zip_with (fun prop r => EvQuery "teams" (teamFilter prop "Zebras") r)
           ["Name"; "Team"; "Title"; "title"] misses
         ++ [EvQuery "teams" allTeams (inl {| Results := League.teams |})]
    /\ (run League.store (findTeamPage League.app map_to_list "Zebras") tt).1.1
       = inl "t-2".
Proof.
  destruct (findTeamPage_tiered_then_full_scan League.store League.app map_to_list
              "Zebras" tt) as [(misses & Hmisses & Hcases) _].
  - intros m. reflexivity.
  - exists misses. split; [exact Hmisses|]. cbn zeta in Hcases.
    assert (Hlast : last (run League.store
                            (findTeamPage League.app map_to_list "Zebras") tt).1.2
                    = Some (EvQuery "teams" allTeams (inl {| Results := League.teams |})))
      by reflexivity.
    destruct Hcases as [(prop & page & r & _ & _ & Hcalls & _)|[Hlen (r & Hcalls & _)]];
      rewrite Hcalls, last_snoc in Hlast.
    + discriminate Hlast.
    + injection Hlast as ->. split; [exact Hlen|]. split; [exact Hcalls|reflexivity].
Defined.

(** Two titles of two segments. The page whose title reads "Rockets" as a
    whole, in the segments "Rock" and "ets", is passed over; the page whose
    title is "Rockets (2024)" is the team found for "Rockets", by its first
    segment. *)
Lemma findTeamPage_compares_first_segment :
  Segments.queries "teams" allTeams
  = inl {| Results := [Segments.split; Segments.suffixed] |}
  /\ PageProperties Segments.split !! "Name" ≫= full_text = Some "Rockets"
  /\ PageProperties Segments.suffixed !! "Name" ≫= full_text = Some "Rockets (2024)"
  /\ (run Segments.store (findTeamPage Rockets.app map_to_list "Rockets") tt).1.1
     = inl (ID Segments.suffixed).
Proof. vm_compute. repeat split. Qed.
